(** * firefly-tokens-erc1155: the token service and its event listener

    A shallow embedding of [TokensService] and [TokenListener]
    (tokens.service.ts): the provenance-id formatter, the event
    transformers, the subscription migration check, pool activation and the
    contract-query helpers, followed by the properties the specification
    states about them.

    Strings are [string] (bytes); the JavaScript operations used by the
    source ([padStart], [indexOf], [substring], [join], [BigInt], [toString],
    [<] on strings) are written out for ASCII text, where a UTF-16 code unit
    and a byte coincide. *)

From Stdlib Require Import String Ascii List NArith ZArith Bool Lia Permutation.
Import ListNotations.
Open Scope string_scope.

(* ================================================================== *)
(** * JavaScript string and number primitives used by the source        *)
(* ================================================================== *)

Module Js.

(** [padString.repeat(n)] *)
Fixpoint repeat_string (pad : string) (n : nat) : string :=
  match n with
  | O => ""
  | S n' => pad ++ repeat_string pad n'
  end.

(** [s.padStart(targetLength, padString)]: the string is returned unchanged
    when it is already long enough or the filler is empty; otherwise the
    filler is repeated and truncated to the missing length and put in
    front.  Nothing is ever cut from [s]. *)
Definition padStart (targetLength : nat) (padString : string) (s : string) : string :=
  if (targetLength <=? String.length s)%nat then s
  else if String.eqb padString "" then s
  else
    let fillLen := targetLength - String.length s in
    substring 0 fillLen (repeat_string padString fillLen) ++ s.

(** [arr.join(sep)] on an array of strings *)
Fixpoint join (sep : string) (l : list string) : string :=
  match l with
  | [] => ""
  | [x] => x
  | x :: rest => x ++ sep ++ join sep rest
  end.

(** [s.indexOf(pat)]: [None] stands for [-1]. *)
Definition indexOf (pat s : string) : option nat := index 0 pat s.

(** [s.substring(start)] *)
Definition substring_from (start : nat) (s : string) : string :=
  substring start (String.length s - start) s.

(** [s.substring(0, end)] where [end] is the result of an [indexOf]:
    a negative end is clamped to [0]. *)
Definition substring_to (stop : option nat) (s : string) : string :=
  match stop with
  | None => ""
  | Some e => substring 0 e s
  end.

(** [s.includes(pat)] *)
Definition includes (pat s : string) : bool :=
  match indexOf pat s with Some _ => true | None => false end.

(** [s.replace(pat, by)] with a string pattern: the first occurrence only.
    (The [$]-patterns of the replacement text are not interpreted; the
    replacements of the source are hexadecimal digits.) *)
Definition replace_first (pat by_ s : string) : string :=
  match indexOf pat s with
  | None => s
  | Some i =>
      substring 0 i s ++ by_ ++ substring_from (i + String.length pat) s
  end.

Definition lower_ascii (c : ascii) : ascii :=
  let n := nat_of_ascii c in
  if ((65 <=? n) && (n <=? 90))%nat then ascii_of_nat (n + 32) else c.

(** [s.toLowerCase()] on ASCII text *)
Fixpoint toLowerCase (s : string) : string :=
  match s with
  | EmptyString => EmptyString
  | String c s' => String (lower_ascii c) (toLowerCase s')
  end.

(** The decimal digit character of [d < 10]. *)
Definition digit_char (d : N) : ascii := ascii_of_N (48 + d).

(** Decimal rendering, most significant digit first, no leading zero.
    [fuel] bounds the number of digits. *)
Fixpoint dec_digits (fuel : nat) (n : N) : string :=
  match fuel with
  | O => ""
  | S f =>
      (if (n / 10 =? 0)%N then "" else dec_digits f (n / 10))
        ++ String (digit_char (n mod 10)) ""
  end.

(** [n.toString(10)] for a non-negative integer. *)
Definition toString10 (n : N) : string :=
  dec_digits (S (N.to_nat (N.log2 n))) n.

(** [BigInt.prototype.toString(10)] *)
Definition bigint_toString10 (z : Z) : string :=
  match z with
  | Zneg p => "-" ++ toString10 (Npos p)
  | _ => toString10 (Z.to_N z)
  end.

(** Strings are held as their UTF-8 bytes. *)
Definition of_bytes (l : list nat) : string :=
  fold_right (fun b s => String (ascii_of_nat b) s) "" l.

(** The white space trimmed by the string-to-number conversions
    (StrWhiteSpaceChar: WhiteSpace and LineTerminator), each character as
    its UTF-8 encoding: TAB, LF, VT, FF, CR, SP, U+00A0, U+1680,
    U+2000..U+200A, U+2028, U+2029, U+202F, U+205F, U+3000 and U+FEFF. *)
Definition white_space : list string :=
  map of_bytes
    ([[9]; [10]; [11]; [12]; [13]; [32]; [194; 160]; [225; 154; 128]]
       ++ map (fun b => [226; 128; b]) (seq 128 11)
       ++ [[226; 128; 168]; [226; 128; 169]; [226; 128; 175];
           [226; 129; 159]; [227; 128; 128]; [239; 187; 191]])%list.

(** The rest of [s] after one of [chars] at its start. *)
Fixpoint strip_one (chars : list string) (s : string) : option string :=
  match chars with
  | [] => None
  | c :: rest =>
      if String.prefix c s then Some (substring_from (String.length c) s)
      else strip_one rest s
  end.

(** [s] without the characters of [chars] at its start; [fuel] bounds
    their number. *)
Fixpoint drop_chars (fuel : nat) (chars : list string) (s : string) : string :=
  match fuel with
  | O => s
  | S f =>
      match strip_one chars s with
      | Some r => drop_chars f chars r
      | None => s
      end
  end.

Definition drop_ws (s : string) : string :=
  drop_chars (String.length s) white_space s.

Fixpoint rev_string (s acc : string) : string :=
  match s with
  | EmptyString => acc
  | String c s' => rev_string s' (String c acc)
  end.

(** White space removed at both ends (at the end: on the reversed bytes). *)
Definition trim (s : string) : string :=
  let t := rev_string (drop_ws s) "" in
  rev_string
    (drop_chars (String.length t)
       (map (fun c => rev_string c "") white_space) t) "".

(** Value of a digit character in radix up to 16. *)
Definition digit_val (c : ascii) : option N :=
  let n := N_of_ascii c in
  if ((48 <=? n) && (n <=? 57))%N then Some (n - 48)%N
  else if ((97 <=? n) && (n <=? 102))%N then Some (n - 87)%N
  else if ((65 <=? n) && (n <=? 70))%N then Some (n - 55)%N
  else None.

Fixpoint parse_digits (radix : N) (s : string) (acc : N) : option N :=
  match s with
  | EmptyString => Some acc
  | String c s' =>
      match digit_val c with
      | Some d =>
          if (d <? radix)%N then parse_digits radix s' (acc * radix + d)%N
          else None
      | None => None
      end
  end.

(** At least one digit is required. *)
Definition parse_nat (radix : N) (s : string) : option N :=
  match s with
  | EmptyString => None
  | _ => parse_digits radix s 0%N
  end.

(** [BigInt(s)] for a string argument (StringToBigInt): white space is
    trimmed, the empty string is [0n], a [0x]/[0o]/[0b] prefix selects the
    radix (no sign allowed there), otherwise an optionally signed decimal
    literal is read.  [None] is the [SyntaxError]. *)
Definition BigInt (s : string) : option Z :=
  match trim s with
  | EmptyString => Some 0%Z
  | String "0" (String ("x" | "X") r) => option_map Z.of_N (parse_nat 16 r)
  | String "0" (String ("o" | "O") r) => option_map Z.of_N (parse_nat 8 r)
  | String "0" (String ("b" | "B") r) => option_map Z.of_N (parse_nat 2 r)
  | String "+" r => option_map Z.of_N (parse_nat 10 r)
  | String "-" r => option_map (fun n => Z.opp (Z.of_N n)) (parse_nat 10 r)
  | t => option_map Z.of_N (parse_nat 10 t)
  end.

(** [a ?? b] *)
Definition nullish {A} (a : option A) (b : A) : A :=
  match a with Some x => x | None => b end.

End Js.

(* ================================================================== *)
(** * Data model                                                        *)
(* ================================================================== *)

(** Values of type [any] returned by the gateway in [EthConnectReturn.output]
    (the three shapes the source distinguishes). *)
Inductive JsVal : Type :=
| JUndefined
| JBool (b : bool)
| JString (s : string).

(** Template-literal rendering [`${v}`]. *)
Definition show_JsVal (v : JsVal) : string :=
  match v with
  | JUndefined => "undefined"
  | JBool true => "true"
  | JBool false => "false"
  | JString s => s
  end.

Definition show_opt (o : option string) : string := Js.nullish o "undefined".

(** The part of a failed HTTP response that [wrapError] reads. *)
Record AxiosErrorResponse : Type := {
  aer_status : N;
  aer_statusText : string;
  aer_data_error : option string
}.

(** What can be thrown. *)
Inductive Err : Type :=
| AxiosError (request_path : option string)
             (response : option AxiosErrorResponse) (message : string)
| InternalServerErrorException (message : string)
| SyntaxError (message : string)
| TypeError (message : string)
| UtilError (message : string)
| OtherError (message : string).

Definition Result (A : Type) : Type := (Err + A)%type.

Record EventStream : Type := {
  es_id : string;
  es_name : string
}.

Record EventStreamSubscription : Type := {
  sub_name : string;
  sub_stream : string
}.

Record IAbiMethod : Type := {
  abi_name : option string;
  abi_type : option string
}.

Record ContractInfoResponse : Type := { cir_address : string }.
Record EthConnectReturn : Type := { ecr_output : JsVal }.

Record InputArgs : Type := { ia_data : option string }.

(** [Event] of event-stream.interfaces, with the payload type of each
    event kind as parameter. *)
Record Event (D : Type) : Type := {
  ev_signature : string;
  ev_address : string;
  ev_blockNumber : option string;
  ev_transactionIndex : string;
  ev_transactionHash : string;
  ev_logIndex : option string;
  ev_timestamp : string;
  ev_data : D;
  ev_inputArgs : option InputArgs
}.
Arguments ev_signature {D} _.
Arguments ev_address {D} _.
Arguments ev_blockNumber {D} _.
Arguments ev_transactionIndex {D} _.
Arguments ev_transactionHash {D} _.
Arguments ev_logIndex {D} _.
Arguments ev_timestamp {D} _.
Arguments ev_data {D} _.
Arguments ev_inputArgs {D} _.

Record TokenPoolCreationData : Type := {
  pc_operator : string;
  pc_type_id : string;
  pc_data : option string
}.

(** [value] is optional because the batch path reads [values[i]], which is
    [undefined] past the end of the array. *)
Record TransferSingleData : Type := {
  ts_operator : string;
  ts_from : string;
  ts_to : string;
  ts_id : string;
  ts_value : option string
}.

Record TransferBatchData : Type := {
  tb_operator : string;
  tb_from : string;
  tb_to : string;
  tb_ids : list string;
  tb_values : list string
}.

Record ApprovalForAllData : Type := {
  ap_account : string;
  ap_operator : string;
  ap_approved : bool
}.

Inductive TokenType : Type := FUNGIBLE | NONFUNGIBLE.

Record BlockchainInfo : Type := {
  bi_blockNumber : option string;
  bi_transactionIndex : string;
  bi_transactionHash : string;
  bi_logIndex : option string;
  bi_address : string;
  bi_signature : string
}.

Record BlockchainEvent (D : Type) : Type := {
  bc_id : string;
  bc_name : string;
  bc_location : string;
  bc_signature : string;
  bc_timestamp : string;
  bc_output : D;
  bc_info : BlockchainInfo
}.
Arguments bc_id {D} _.
Arguments bc_name {D} _.
Arguments bc_output {D} _.
Arguments bc_info {D} _.

Record TokenPoolEventInfo : Type := {
  pi_address : string;
  pi_typeId : string;
  pi_baseUri : option JsVal
}.

Record TokenPoolEvent : Type := {
  tp_standard : string;
  tp_poolLocator : string;
  tp_type : TokenType;
  tp_signer : string;
  tp_data : string;
  tp_info : TokenPoolEventInfo;
  tp_blockchain : BlockchainEvent TokenPoolCreationData
}.

(** [TokenTransferEvent], also used for the mint (no [from]) and burn
    (no [to]) messages. *)
Record TokenTransferEvent : Type := {
  tt_id : string;
  tt_poolData : option string;
  tt_poolLocator : string;
  tt_tokenIndex : option string;
  tt_uri : option string;
  tt_amount : option string;
  tt_signer : string;
  tt_data : string;
  tt_blockchain : BlockchainEvent TransferSingleData;
  tt_from : option string;
  tt_to : option string
}.

Record TokenApprovalEvent : Type := {
  ta_id : string;
  ta_poolData : option string;
  ta_subject : string;
  ta_poolLocator : string;
  ta_operator : string;
  ta_approved : bool;
  ta_signer : string;
  ta_data : string;
  ta_blockchain : BlockchainEvent ApprovalForAllData
}.

Inductive MessageData : Type :=
| PoolMessage (d : TokenPoolEvent)
| TransferMessage (d : TokenTransferEvent)
| ApprovalMessage (d : TokenApprovalEvent).

Record WebSocketMessage : Type := {
  msg_event : string;
  msg_data : MessageData
}.

Record TokenPoolActivate : Type := {
  tpa_poolLocator : string;
  tpa_poolData : option string
}.



(** ** The identifier codec (tokens.util)

    Its functions are imported by the service; they are taken as a
    parameter of the development. *)

Record UnpackedTokenId : Type := {
  uti_isFungible : bool;
  uti_poolId : string;
  uti_tokenIndex : option string
}.

Record PoolLocator : Type := {
  pl_poolId : string;
  pl_blockNumber : option string
}.

Record SubscriptionParts : Type := {
  sp_instancePath : string;
  sp_poolLocator : option string;
  sp_event : option string;
  sp_poolData : option string
}.

Record Codec : Type := {
  unpackTokenId : string -> Result UnpackedTokenId;
  packTokenId : string -> option string -> Result string;
  packPoolLocator : string -> option string -> string;
  unpackPoolLocator : string -> PoolLocator;
  packSubscriptionName : string -> string -> string -> option string -> string;
  unpackSubscriptionName : string -> SubscriptionParts;
  packStreamName : string -> string -> string;
  decodeHex : string -> string;
  encodeHexIDForURI : string -> string
}.

(** ** Constants of the module *)

Definition TOKEN_STANDARD := "ERC1155".
Definition ZERO_ADDRESS := "0x0000000000000000000000000000000000000000".
Definition BASE_SUBSCRIPTION_NAME := "base".
Definition CUSTOM_URI_IID := "0xa1d87d57".
Definition queryHeader := "Query".
Definition tokenCreateFunctionName := "create".
Definition tokenCreateEvent := "TokenPoolCreation".
Definition transferSingleEvent := "TransferSingle".
Definition transferBatchEvent := "TransferBatch".
Definition approvalForAllEvent := "ApprovalForAll".

Definition ALL_SUBSCRIBED_EVENTS : list string :=
  [tokenCreateEvent; transferSingleEvent; transferBatchEvent; approvalForAllEvent].

(* ================================================================== *)
(** * External collaborators and the effect monad                       *)
(* ================================================================== *)

(** Body of the gateway POST issued by [query]. *)
Record QueryRequest : Type := {
  qr_url : string;
  qr_type : string;
  qr_to : string;
  qr_method : option IAbiMethod;
  qr_params : list string
}.

(** Arguments of [EventStreamService.getOrCreateSubscription]. *)
Record SubscriptionRequest : Type := {
  sr_baseUrl : string;
  sr_eventABI : IAbiMethod;
  sr_streamId : string;
  sr_event : string;
  sr_name : string;
  sr_contractAddress : string;
  sr_methodABIs : list IAbiMethod;
  sr_fromBlock : string
}.

(** The HTTP client and the event-stream directory, as transitions of an
    abstract outside world; each call may fail. *)
Record Env (World : Type) : Type := {
  http_get : string -> World -> Result ContractInfoResponse * World;
  http_post : QueryRequest -> World -> Result EthConnectReturn * World;
  getStreams : World -> Result (list EventStream) * World;
  getSubscriptions : World -> Result (list EventStreamSubscription) * World;
  createOrUpdateStream : string -> string -> World -> Result EventStream * World;
  getOrCreateSubscription :
    SubscriptionRequest -> World -> Result EventStreamSubscription * World
}.
Arguments http_get {World} _ _ _.
Arguments http_post {World} _ _ _.
Arguments getStreams {World} _ _.
Arguments getSubscriptions {World} _ _.
Arguments createOrUpdateStream {World} _ _ _ _.
Arguments getOrCreateSubscription {World} _ _ _.

(** One entry per call that leaves the process. *)
Inductive Call : Type :=
| CHttpGet (url : string)
| CHttpPost (req : QueryRequest)
| CGetStreams
| CGetSubscriptions
| CCreateOrUpdateStream (name topic : string)
| CGetOrCreateSubscription (req : SubscriptionRequest).

Inductive LogLevel : Type := LDebug | LLog | LWarn | LError.

(** The mutable fields of [TokensService] (those set by [configure] and
    the caches), with the lines written to its logger. *)
Record Service : Type := {
  baseUrl : string;
  instancePath : string;
  instanceUrl : string;
  topic : string;
  contractAddress : string;
  supportsCustomUri : option bool;
  stream : option EventStream;
  logs : list (LogLevel * string)
}.

Definition set_contractAddress (a : string) (s : Service) : Service :=
  {| baseUrl := baseUrl s; instancePath := instancePath s;
     instanceUrl := instanceUrl s; topic := topic s;
     contractAddress := a; supportsCustomUri := supportsCustomUri s;
     stream := stream s; logs := logs s |}.

Definition set_supportsCustomUri (b : bool) (s : Service) : Service :=
  {| baseUrl := baseUrl s; instancePath := instancePath s;
     instanceUrl := instanceUrl s; topic := topic s;
     contractAddress := contractAddress s; supportsCustomUri := Some b;
     stream := stream s; logs := logs s |}.

Definition set_stream (st : EventStream) (s : Service) : Service :=
  {| baseUrl := baseUrl s; instancePath := instancePath s;
     instanceUrl := instanceUrl s; topic := topic s;
     contractAddress := contractAddress s;
     supportsCustomUri := supportsCustomUri s;
     stream := Some st; logs := logs s |}.

Definition add_log (l : LogLevel) (msg : string) (s : Service) : Service :=
  {| baseUrl := baseUrl s; instancePath := instancePath s;
     instanceUrl := instanceUrl s; topic := topic s;
     contractAddress := contractAddress s;
     supportsCustomUri := supportsCustomUri s;
     stream := stream s; logs := (logs s ++ [(l, msg)])%list |}.

(** The service, the outside world and the calls issued so far. *)
Record Machine (World : Type) : Type := {
  svc : Service;
  world : World;
  trace : list Call
}.
Arguments Build_Machine {World} _ _ _.
Arguments svc {World} _.
Arguments world {World} _.
Arguments trace {World} _.

(** Computations that read and update the machine and may throw.  A throw
    keeps the machine reached so far, as an exception does. *)
Definition M (World A : Type) : Type := Machine World -> Result A * Machine World.

Definition ret {W A} (a : A) : M W A := fun m => (inr a, m).
Definition throw {W A} (e : Err) : M W A := fun m => (inl e, m).

Definition bind {W A B} (c : M W A) (k : A -> M W B) : M W B :=
  fun m =>
    match c m with
    | (inl e, m') => (inl e, m')
    | (inr a, m') => k a m'
    end.

(** [try { c } catch (err) { h err }] *)
Definition tryCatch {W A} (c : M W A) (h : Err -> M W A) : M W A :=
  fun m =>
    match c m with
    | (inl e, m') => h e m'
    | (inr a, m') => (inr a, m')
    end.

Definition lift {W A} (r : Result A) : M W A := fun m => (r, m).

Definition getService {W} : M W Service := fun m => (inr (svc m), m).

Definition modifyService {W} (f : Service -> Service) : M W unit :=
  fun m => (inr tt, Build_Machine (f (svc m)) (world m) (trace m)).

Definition logger {W} (l : LogLevel) (msg : string) : M W unit :=
  modifyService (add_log l msg).

(** Issue an external call: the world moves and the call is recorded. *)
Definition call {W A} (c : Call) (f : W -> Result A * W) : M W A :=
  fun m =>
    let '(r, w') := f (world m) in
    (r, Build_Machine (svc m) w' (trace m ++ [c])%list).

Declare Scope m_scope.
Delimit Scope m_scope with m.
Notation "x <- c ;; k" := (bind c (fun x => k))
  (at level 61, c at next level, right associativity) : m_scope.
Notation "c ;;; k" := (bind c (fun _ => k))
  (at level 61, right associativity) : m_scope.

(* ================================================================== *)
(** * TokenListener: pure helpers                                       *)
(* ================================================================== *)

(** [formatBlockchainEventId]: zero-padded block number, transaction index
    and log index, joined by [/].  [BigInt] throws on a transaction index
    that is not an integer literal. *)
Definition formatBlockchainEventId {D} (event : Event D) : Result string :=
  let blockNumber := Js.nullish (ev_blockNumber event) "0" in
  match Js.BigInt (ev_transactionIndex event) with
  | None =>
      inl (SyntaxError ("Cannot convert " ++ ev_transactionIndex event ++ " to a BigInt"))
  | Some z =>
      let txIndex := Js.bigint_toString10 z in
      let logIndex := Js.nullish (ev_logIndex event) "0" in
      inr (Js.join "/"
             [Js.padStart 12 "0" blockNumber;
              Js.padStart 6 "0" txIndex;
              Js.padStart 6 "0" logIndex])
  end.

Definition stripParamsFromSignature (signature : string) : string :=
  Js.substring_to (Js.indexOf "(" signature) signature.

Definition trimEventSignature (signature : string) : string :=
  match Js.indexOf ":" signature with
  | Some (S firstColon') => Js.substring_from (S firstColon' + 1) signature
  | _ => signature
  end.

Definition blockchainInfo {D} (event : Event D) : BlockchainInfo :=
  {| bi_blockNumber := ev_blockNumber event;
     bi_transactionIndex := ev_transactionIndex event;
     bi_transactionHash := ev_transactionHash event;
     bi_logIndex := ev_logIndex event;
     bi_address := ev_address event;
     bi_signature := trimEventSignature (ev_signature event) |}.

(** The [blockchain] envelope common to every message. *)
Definition blockchainEvent {D O} (event : Event D) (eventId : string) (output : O)
  : BlockchainEvent O :=
  {| bc_id := eventId;
     bc_name := stripParamsFromSignature (trimEventSignature (ev_signature event));
     bc_location := "address=" ++ ev_address event;
     bc_signature := trimEventSignature (ev_signature event);
     bc_timestamp := ev_timestamp event;
     bc_output := output;
     bc_info := blockchainInfo event |}.

(** ** [Map<string, string[]>] of [migrationCheck], in insertion order *)

Definition EventsMap : Type := list (string * list string).

Fixpoint map_get (key : string) (m : EventsMap) : option (list string) :=
  match m with
  | [] => None
  | (k, v) :: rest => if String.eqb k key then Some v else map_get key rest
  end.

(** [existing.push(ev)] on the array stored under [key]. *)
Fixpoint map_push (key ev : string) (m : EventsMap) : EventsMap :=
  match m with
  | [] => []
  | (k, v) :: rest =>
      if String.eqb k key then (k, (v ++ [ev])%list) :: rest
      else (k, v) :: map_push key ev rest
  end.

(** [foundEvents.set(key, [ev])] for a key that is not present. *)
Definition map_set (key : string) (v : list string) (m : EventsMap) : EventsMap :=
  (m ++ [(key, v)])%list.

(** [events.includes(event)] *)
Definition array_includes (x : string) (l : list string) : bool :=
  existsb (String.eqb x) l.

(** The test of the second loop of [migrationCheck]. *)
Definition events_mismatch (events : list string) : bool :=
  negb (Nat.eqb (List.length ALL_SUBSCRIBED_EVENTS) (List.length events))
  || negb (forallb (fun event => array_includes event events) ALL_SUBSCRIBED_EVENTS).

(* ================================================================== *)
(** * TokensService                                                     *)
(* ================================================================== *)

Section TokensService.

Context {World : Type}.
Variable env : Env World.
Variable codec : Codec.
(** The contract ABI ([ERC1155MixedFungible.json]). *)
Variable abi : list IAbiMethod.

Local Open Scope m_scope.

(** [ERC1155MixedFungibleAbi.find(m => m.name === name)] *)
Definition abi_find (name : string) : option IAbiMethod :=
  find (fun m => match abi_name m with
                 | Some n => String.eqb n name
                 | None => false
                 end) abi.

(** [wrapError]: an Axios failure is logged and rethrown as an
    [InternalServerErrorException]; anything else is rethrown as it is. *)
Definition wrapError {A} (response : M World A) : M World A :=
  tryCatch response (fun err =>
    match err with
    | AxiosError path resp message =>
        let errorMessage :=
          Js.nullish (match resp with
                      | Some r => aer_data_error r
                      | None => None
                      end) message in
        logger LWarn
          (show_opt path ++ " <-- HTTP "
           ++ match resp with
              | Some r => Js.toString10 (aer_status r)
              | None => "undefined"
              end
           ++ " "
           ++ match resp with
              | Some r => aer_statusText r
              | None => "undefined"
              end
           ++ ": " ++ errorMessage) ;;;
        throw (InternalServerErrorException errorMessage)
    | _ => throw err
    end).

Definition getContractAddress : M World string :=
  s <- getService ;;
  (if String.eqb (contractAddress s) "" then
     logger LDebug
       ("CONTRACT_ADDRESS is not set, fetching the address using instance url: "
        ++ instanceUrl s) ;;;
     response <- wrapError (call (CHttpGet (instanceUrl s))
                                 (http_get env (instanceUrl s))) ;;
     modifyService
       (set_contractAddress ("0x" ++ Js.toLowerCase (cir_address response))) ;;;
     s1 <- getService ;;
     logger LDebug ("Contract address: " ++ contractAddress s1)
   else ret tt) ;;;
  s2 <- getService ;;
  ret (contractAddress s2).

(** [query]: the read-only contract call through the gateway. *)
Definition query (method : option IAbiMethod) (params : list string)
  : M World EthConnectReturn :=
  s <- getService ;;
  to <- getContractAddress ;;
  let req := {| qr_url := baseUrl s; qr_type := queryHeader; qr_to := to;
                qr_method := method; qr_params := params |} in
  wrapError (call (CHttpPost req) (http_post env req)).

(** [isCustomUriSupported]: the field is set on every path before it is
    read back, so the result is a boolean. *)
Definition isCustomUriSupported : M World bool :=
  s <- getService ;;
  (match supportsCustomUri s with
   | None =>
       tryCatch
         (result <- query (abi_find "supportsInterface") [CUSTOM_URI_IID] ;;
          s1 <- getService ;;
          logger LDebug
            ("Result for URI support on instance '" ++ instancePath s1
             ++ "': " ++ show_JsVal (ecr_output result)) ;;;
          modifyService
            (set_supportsCustomUri
               (match ecr_output result with JBool true => true | _ => false end)))
         (fun _ =>
            s1 <- getService ;;
            logger LLog
              ("Failed to query URI support on instance '" ++ instancePath s1
               ++ "': assuming false") ;;;
            modifyService (set_supportsCustomUri false))
   | Some _ => ret tt
   end) ;;;
  s2 <- getService ;;
  ret (Js.nullish (supportsCustomUri s2) false).

Definition queryBaseUri : M World JsVal :=
  tryCatch
    (result <- query (abi_find "baseTokenUri") [CUSTOM_URI_IID] ;;
     ret (ecr_output result))
    (fun _ =>
       logger LError "Failed to query base URI" ;;;
       ret (JString "")).

(** First loop of [migrationCheck]: group the event names by pool key.
    [None] is the early [return true] on a name that does not parse. *)
Fixpoint collectEvents (streamName baseSubscription : string)
    (subscriptions : list EventStreamSubscription) (foundEvents : EventsMap)
  : M World (option EventsMap) :=
  match subscriptions with
  | [] => ret (Some foundEvents)
  | sub :: rest =>
      if String.eqb (sub_name sub) baseSubscription then
        collectEvents streamName baseSubscription rest foundEvents
      else
        let parts := unpackSubscriptionName codec (sub_name sub) in
        match sp_poolLocator parts, sp_event parts with
        | Some poolLocator, Some event =>
            let key := packSubscriptionName codec (sp_instancePath parts)
                         poolLocator "" (sp_poolData parts) in
            match map_get key foundEvents with
            | Some _ =>
                collectEvents streamName baseSubscription rest
                  (map_push key event foundEvents)
            | None =>
                collectEvents streamName baseSubscription rest
                  (map_set key [event] foundEvents)
            end
        | _, _ =>
            logger LWarn
              ("Non-parseable subscription name '" ++ sub_name sub
               ++ "' found in event stream '" ++ streamName ++ "'."
               ++ "It is recommended to delete all subscriptions and activate all pools again.") ;;;
            ret None
        end
  end.

(** Second loop of [migrationCheck]: every group must hold the expected
    events. *)
Fixpoint checkEvents (foundEvents : EventsMap) : M World bool :=
  match foundEvents with
  | [] => ret false
  | (key, events) :: rest =>
      let parts := unpackSubscriptionName codec key in
      if events_mismatch events then
        logger LWarn
          ("Event stream subscriptions for pool " ++ show_opt (sp_poolLocator parts)
           ++ " do not include all expected events "
           ++ "(" ++ Js.join "," ALL_SUBSCRIBED_EVENTS ++ "). Events may not be properly delivered to this pool. "
           ++ "It is recommended to delete its subscriptions and activate the pool again.") ;;;
        ret true
      else checkEvents rest
  end.

Definition find_stream (name : string) (streams : list EventStream)
  : option EventStream :=
  find (fun s => String.eqb (es_name s) name) streams.

(** The part of [migrationCheck] after a stream has been found. *)
Definition checkStream (existingStream : EventStream) : M World bool :=
  modifyService (set_stream existingStream) ;;;
  let streamId := es_id existingStream in
  allSubscriptions <- call CGetSubscriptions (getSubscriptions env) ;;
  let subscriptions :=
    filter (fun s => String.eqb (sub_stream s) streamId) allSubscriptions in
  match subscriptions with
  | [] => ret false
  | _ =>
      s <- getService ;;
      let baseSubscription :=
        packSubscriptionName codec (instancePath s) BASE_SUBSCRIPTION_NAME
          tokenCreateEvent None in
      found <- collectEvents (es_name existingStream) baseSubscription
                 subscriptions [] ;;
      match found with
      | None => ret true
      | Some foundEvents => checkEvents foundEvents
      end
  end.

Definition migrationCheck : M World bool :=
  s <- getService ;;
  let name := packStreamName codec (topic s) (instancePath s) in
  streams <- call CGetStreams (getStreams env) ;;
  match find_stream name streams with
  | Some existingStream => checkStream existingStream
  | None =>
      (* Look for the old stream name (topic alone) *)
      match find_stream (topic s) streams with
      | None => ret false
      | Some existingStream =>
          logger LWarn
            ("Old event stream found with name " ++ es_name existingStream ++ ". "
             ++ "The connector will continue to use this stream, but it is recommended "
             ++ "to create a new stream with the name " ++ name ++ ".") ;;;
          checkStream existingStream
      end
  end.

Definition getStream : M World EventStream :=
  s <- getService ;;
  match stream s with
  | Some st => ret st
  | None =>
      _ <- migrationCheck ;;
      s1 <- getService ;;
      let name :=
        match stream s1 with
        | Some st => es_name st
        | None => packStreamName codec (topic s1) (instancePath s1)
        end in
      logger LLog ("Creating stream with name " ++ name) ;;;
      st <- call (CCreateOrUpdateStream name name)
                 (createOrUpdateStream env name name) ;;
      modifyService (set_stream st) ;;;
      ret st
  end.

(** [Promise.all]: every call of the array has been issued before the
    first one is awaited, so all of them run; the result is the array of
    values, or a rejection when one of them failed (of them, the first in
    array order is taken here). *)
Fixpoint settleAll {A} (calls : list (M World A)) (m : Machine World)
  : list (Result A) * Machine World :=
  match calls with
  | [] => ([], m)
  | c :: rest =>
      let '(r, m1) := c m in
      let '(rs, m2) := settleAll rest m1 in
      (r :: rs, m2)
  end.

Fixpoint allValues {A} (rs : list (Result A)) : Result (list A) :=
  match rs with
  | [] => inr []
  | inl e :: _ => inl e
  | inr a :: rest =>
      match allValues rest with
      | inl e => inl e
      | inr l => inr (a :: l)
      end
  end.

Definition promiseAll {A} (calls : list (M World A)) : M World (list A) :=
  fun m => let '(rs, m') := settleAll calls m in (allValues rs, m').

Definition subscribe (req : SubscriptionRequest) : M World EventStreamSubscription :=
  call (CGetOrCreateSubscription req) (getOrCreateSubscription env req).

Definition name_includes (pat : string) (m : IAbiMethod) : bool :=
  match abi_name m with
  | Some n => Js.includes pat (Js.toLowerCase n)
  | None => false
  end.

Definition activatePool (dto : TokenPoolActivate) : M World unit :=
  strm <- getStream ;;
  let poolLocator := unpackPoolLocator codec (tpa_poolLocator dto) in
  let transferFunctionABIs :=
    filter (fun m => name_includes "mint" m || name_includes "transfer" m
                     || name_includes "burn" m) abi in
  let approvalFunctionABIs := filter (name_includes "approval") abi in
  match abi_find tokenCreateEvent, abi_find tokenCreateFunctionName,
        abi_find transferSingleEvent, abi_find transferBatchEvent,
        abi_find approvalForAllEvent with
  | Some tokenCreateEventABI, Some tokenCreateFunctionABI,
    Some transferSingleEventABI, Some transferBatchEventABI,
    Some approvalForAllEventABI =>
      s <- getService ;;
      contractAddress <- getContractAddress ;;
      let subName event :=
        packSubscriptionName codec (instancePath s) (tpa_poolLocator dto) event
          (tpa_poolData dto) in
      _ <- promiseAll
        [ subscribe
            {| sr_baseUrl := baseUrl s; sr_eventABI := tokenCreateEventABI;
               sr_streamId := es_id strm; sr_event := tokenCreateEvent;
               sr_name := subName tokenCreateEvent;
               sr_contractAddress := contractAddress;
               sr_methodABIs := [tokenCreateFunctionABI];
               sr_fromBlock := Js.nullish (pl_blockNumber poolLocator) "0" |};
          subscribe
            {| sr_baseUrl := baseUrl s; sr_eventABI := transferSingleEventABI;
               sr_streamId := es_id strm; sr_event := transferSingleEvent;
               sr_name := subName transferSingleEvent;
               sr_contractAddress := contractAddress;
               sr_methodABIs := transferFunctionABIs;
               sr_fromBlock := Js.nullish (pl_blockNumber poolLocator) "0" |};
          subscribe
            {| sr_baseUrl := baseUrl s; sr_eventABI := transferBatchEventABI;
               sr_streamId := es_id strm; sr_event := transferBatchEvent;
               sr_name := subName transferBatchEvent;
               sr_contractAddress := contractAddress;
               sr_methodABIs := transferFunctionABIs;
               sr_fromBlock := Js.nullish (pl_blockNumber poolLocator) "0" |};
          subscribe
            {| sr_baseUrl := baseUrl s; sr_eventABI := approvalForAllEventABI;
               sr_streamId := es_id strm; sr_event := approvalForAllEvent;
               sr_name := subName approvalForAllEvent;
               sr_contractAddress := contractAddress;
               sr_methodABIs := approvalFunctionABIs;
               (* Block number is 0 because it is important to receive all
                  approval events *)
               sr_fromBlock := "0" |} ] ;;
      ret tt
  | _, _, _, _, _ => ret tt
  end.


(* ================================================================== *)
(** * TokenListener                                                     *)
(* ================================================================== *)

Definition getTokenUri (id : string) : M World string :=
  tryCatch
    (response <- query (abi_find "uri") [id] ;;
     match ecr_output response with
     | JString output =>
         if Js.includes "{id}" output
         then ret (Js.replace_first "{id}" (encodeHexIDForURI codec id) output)
         else ret output
     | _ => throw (TypeError "output.includes is not a function")
     end)
    (fun _ => ret "").

Definition transformTokenPoolCreationEvent (subName : string)
    (event : Event TokenPoolCreationData) : M World (option WebSocketMessage) :=
  let output := ev_data event in
  unpackedId <- lift (unpackTokenId codec (pc_type_id output)) ;;
  let unpackedSub := unpackSubscriptionName codec subName in
  let decodedData := decodeHex codec (Js.nullish (pc_data output) "") in
  match sp_poolLocator unpackedSub with
  | None => ret None (* should not happen *)
  | Some subLocator =>
      let poolLocator := unpackPoolLocator codec subLocator in
      if negb (String.eqb (pl_poolId poolLocator) BASE_SUBSCRIPTION_NAME)
         && negb (String.eqb (pl_poolId poolLocator) (uti_poolId unpackedId))
      then ret None
      else
        supported <- isCustomUriSupported ;;
        baseUri <- (if supported
                    then (u <- queryBaseUri ;; ret (Some u))
                    else ret None) ;;
        let eventInfo :=
          {| pi_address := ev_address event;
             pi_typeId := "0x" ++ encodeHexIDForURI codec (pc_type_id output);
             pi_baseUri := baseUri |} in
        eventId <- lift (formatBlockchainEventId event) ;;
        ret (Some
          {| msg_event := "token-pool";
             msg_data := PoolMessage
               {| tp_standard := TOKEN_STANDARD;
                  tp_poolLocator :=
                    packPoolLocator codec (uti_poolId unpackedId)
                      (ev_blockNumber event);
                  tp_type := if uti_isFungible unpackedId
                             then FUNGIBLE else NONFUNGIBLE;
                  tp_signer := pc_operator output;
                  tp_data := decodedData;
                  tp_info := eventInfo;
                  tp_blockchain := blockchainEvent event eventId output |} |})
  end.

Definition transformTransferSingleEvent (subName : string)
    (event : Event TransferSingleData) (eventIndex : option nat)
  : M World (option WebSocketMessage) :=
  let output := ev_data event in
  unpackedId <- lift (unpackTokenId codec (ts_id output)) ;;
  let unpackedSub := unpackSubscriptionName codec subName in
  let decodedData :=
    decodeHex codec
      (Js.nullish (match ev_inputArgs event with
                   | Some a => ia_data a
                   | None => None
                   end) "") in
  match sp_poolLocator unpackedSub with
  | None => ret None (* should not happen *)
  | Some subLocator =>
      let poolLocator := unpackPoolLocator codec subLocator in
      if negb (String.eqb (pl_poolId poolLocator) (uti_poolId unpackedId))
      then ret None (* this transfer is not from the subscribed pool *)
      else if String.eqb (ts_from output) ZERO_ADDRESS
              && String.eqb (ts_to output) ZERO_ADDRESS
      then ret None (* should not happen *)
      else
        uri <- (if uti_isFungible unpackedId then ret None
                else (u <- getTokenUri (ts_id output) ;; ret (Some u))) ;;
        eventId <- lift (formatBlockchainEventId event) ;;
        let transferId :=
          match eventIndex with
          | None => eventId
          | Some i => eventId ++ "/" ++ Js.padStart 6 "0" (Js.toString10 (N.of_nat i))
          end in
        let commonData (from to : option string) :=
          {| tt_id := transferId;
             tt_poolData := sp_poolData unpackedSub;
             tt_poolLocator := subLocator;
             tt_tokenIndex := uti_tokenIndex unpackedId;
             tt_uri := uri;
             tt_amount := ts_value output;
             tt_signer := ts_operator output;
             tt_data := decodedData;
             tt_blockchain := blockchainEvent event eventId output;
             tt_from := from;
             tt_to := to |} in
        if String.eqb (ts_from output) ZERO_ADDRESS then
          ret (Some {| msg_event := "token-mint";
                       msg_data := TransferMessage
                         (commonData None (Some (ts_to output))) |})
        else if String.eqb (ts_to output) ZERO_ADDRESS then
          ret (Some {| msg_event := "token-burn";
                       msg_data := TransferMessage
                         (commonData (Some (ts_from output)) None) |})
        else
          ret (Some {| msg_event := "token-transfer";
                       msg_data := TransferMessage
                         (commonData (Some (ts_from output))
                            (Some (ts_to output))) |})
  end.

(** The event handed to the single-transfer path for entry [i] of a batch:
    [{...event, data: {from, to, operator, id: ids[i], value: values[i]}}]. *)
Definition batchEntry (event : Event TransferBatchData) (id : string) (i : nat)
  : Event TransferSingleData :=
  {| ev_signature := ev_signature event;
     ev_address := ev_address event;
     ev_blockNumber := ev_blockNumber event;
     ev_transactionIndex := ev_transactionIndex event;
     ev_transactionHash := ev_transactionHash event;
     ev_logIndex := ev_logIndex event;
     ev_timestamp := ev_timestamp event;
     ev_data :=
       {| ts_operator := tb_operator (ev_data event);
          ts_from := tb_from (ev_data event);
          ts_to := tb_to (ev_data event);
          ts_id := id;
          ts_value := nth_error (tb_values (ev_data event)) i |};
     ev_inputArgs := ev_inputArgs event |}.

(** The loop [for (let i = 0; i < event.data.ids.length; i++)]; [fuel]
    is the number of iterations left. *)
Fixpoint batchLoop (subName : string) (event : Event TransferBatchData)
    (fuel i : nat) (messages : list WebSocketMessage)
  : M World (list WebSocketMessage) :=
  match fuel with
  | O => ret messages
  | S fuel' =>
      match nth_error (tb_ids (ev_data event)) i with
      | None => ret messages
      | Some id =>
          message <- transformTransferSingleEvent subName
                       (batchEntry event id i) (Some i) ;;
          batchLoop subName event fuel' (S i)
            (match message with
             | Some msg => (messages ++ [msg])%list
             | None => messages
             end)
      end
  end.

Definition transformTransferBatchEvent (subName : string)
    (event : Event TransferBatchData) : M World (list WebSocketMessage) :=
  batchLoop subName event (List.length (tb_ids (ev_data event))) 0 [].

(** Not asynchronous and without access to the service: a plain result. *)
Definition transformApprovalForAllEvent (subName : string)
    (event : Event ApprovalForAllData) : Result (option WebSocketMessage) :=
  let output := ev_data event in
  let unpackedSub := unpackSubscriptionName codec subName in
  let decodedData :=
    decodeHex codec
      (Js.nullish (match ev_inputArgs event with
                   | Some a => ia_data a
                   | None => None
                   end) "") in
  match sp_poolLocator unpackedSub with
  | None => inr None (* should not happen *)
  | Some subLocator =>
      let poolLocator := unpackPoolLocator codec subLocator in
      (* One event may apply across multiple pools: include the poolId *)
      match formatBlockchainEventId event with
      | inl e => inl e
      | inr eventId =>
          let approvalId := eventId ++ "/" ++ pl_poolId poolLocator in
          inr (Some
            {| msg_event := "token-approval";
               msg_data := ApprovalMessage
                 {| ta_id := approvalId;
                    ta_poolData := sp_poolData unpackedSub;
                    ta_subject := ap_account output ++ ":" ++ ap_operator output;
                    ta_poolLocator := subLocator;
                    ta_operator := ap_operator output;
                    ta_approved := ap_approved output;
                    ta_signer := ap_account output;
                    ta_data := decodedData;
                    ta_blockchain := blockchainEvent event eventId output |} |})
      end
  end.

End TokensService.

(* ================================================================== *)
(** * Auxiliary definitions for the statements                          *)
(* ================================================================== *)

(** The [k]-digit decimal rendering of [n], zero-padded on the left. *)
Fixpoint fixed_digits (k : nat) (n : N) : string :=
  match k with
  | O => ""
  | S k' => fixed_digits k' (n / 10) ++ String (Js.digit_char (n mod 10)) ""
  end.

(** The position of an event on its chain: block number, transaction
    index and log index, as the event carries them (decimal strings for
    the block number and the log index, with the source's default ["0"];
    an integer literal for the transaction index). *)
Definition positioned {D} (e : Event D) (b t l : N) : Prop :=
  Js.nullish (ev_blockNumber e) "0" = Js.toString10 b
  /\ Js.BigInt (ev_transactionIndex e) = Some (Z.of_N t)
  /\ Js.nullish (ev_logIndex e) "0" = Js.toString10 l.

(** Emission order: by block, then transaction index, then log index. *)
Definition position_lt (p q : N * N * N) : Prop :=
  let '(b1, t1, l1) := p in
  let '(b2, t2, l2) := q in
  (b1 < b2 \/ (b1 = b2 /\ (t1 < t2 \/ (t1 = t2 /\ l1 < l2))))%N.

(** The message kind of an accepted single transfer. *)
Definition transferKind (from to : string) : string :=
  if String.eqb from ZERO_ADDRESS then "token-mint"
  else if String.eqb to ZERO_ADDRESS then "token-burn"
  else "token-transfer".

(** The id of a transfer message: the provenance id, with the zero-padded
    sub-index appended for an entry of a batch. *)
Definition transferIdOf (eventId : string) (eventIndex : option nat) : string :=
  match eventIndex with
  | None => eventId
  | Some i => eventId ++ "/" ++ Js.padStart 6 "0" (Js.toString10 (N.of_nat i))
  end.

(** Order-preserving removal of the absent entries. *)
Fixpoint somes {A} (l : list (option A)) : list A :=
  match l with
  | [] => []
  | Some a :: rest => a :: somes rest
  | None :: rest => somes rest
  end.

(** The failure of the first token id of [ids] that the codec does not
    decode, if there is one. *)
Fixpoint firstRejected (codec : Codec) (ids : list string) : option Err :=
  match ids with
  | [] => None
  | id :: rest =>
      match unpackTokenId codec id with
      | inl e => Some e
      | inr _ => firstRejected codec rest
      end
  end.

Section BatchExpansionSpec.

Context {World : Type}.
Variable env : Env World.
Variable codec : Codec.
Variable abi : list IAbiMethod.

Local Open Scope m_scope.

(** The single-transfer event of entry [(id, value)] of a batch: the
    shared [from], [to] and [operator] with the entry's id and value. *)
Definition entryEvent (event : Event TransferBatchData) (id value : string)
  : Event TransferSingleData :=
  {| ev_signature := ev_signature event;
     ev_address := ev_address event;
     ev_blockNumber := ev_blockNumber event;
     ev_transactionIndex := ev_transactionIndex event;
     ev_transactionHash := ev_transactionHash event;
     ev_logIndex := ev_logIndex event;
     ev_timestamp := ev_timestamp event;
     ev_data :=
       {| ts_operator := tb_operator (ev_data event);
          ts_from := tb_from (ev_data event);
          ts_to := tb_to (ev_data event);
          ts_id := id;
          ts_value := Some value |};
     ev_inputArgs := ev_inputArgs event |}.

(** The single-transfer path run on each entry in turn, with its
    sub-index; a throw of one entry ends the run. *)
Fixpoint singlePathOnEach (subName : string) (event : Event TransferBatchData)
    (entries : list (nat * (string * string)))
  : M World (list (option WebSocketMessage)) :=
  match entries with
  | [] => ret []
  | (i, (id, value)) :: rest =>
      message <- transformTransferSingleEvent env codec abi subName
                   (entryEvent event id value) (Some i) ;;
      messages <- singlePathOnEach subName event rest ;;
      ret (message :: messages)
  end.

(** The batch expansion as the specification words it: entries
    [(ids[i], values[i])] for [i = 0 .. N-1] ascending, each sent through
    the single-transfer path, the discarded ones dropped. *)
Definition batchExpansion (subName : string) (event : Event TransferBatchData)
  : M World (list WebSocketMessage) :=
  let ids := tb_ids (ev_data event) in
  let values := tb_values (ev_data event) in
  results <- singlePathOnEach subName event
               (combine (seq 0 (List.length ids)) (combine ids values)) ;;
  ret (somes results).

End BatchExpansionSpec.

(** Number of gateway POSTs among the calls. *)
Definition posts (calls : list Call) : nat :=
  List.length (filter (fun c => match c with CHttpPost _ => true | _ => false end) calls).

(** The service without its log lines. *)
Definition forget_logs (s : Service) : Service :=
  {| baseUrl := baseUrl s; instancePath := instancePath s;
     instanceUrl := instanceUrl s; topic := topic s;
     contractAddress := contractAddress s;
     supportsCustomUri := supportsCustomUri s;
     stream := stream s; logs := [] |}.

(** The calls of the event-stream directory that only list. *)
Definition is_list_call (c : Call) : Prop :=
  c = CGetStreams \/ c = CGetSubscriptions.

Section CodecSpec.

Variable codec : Codec.

(** Steps 1 and 2 of the reconciliation: the stream under the expected
    name, else the stream under the legacy name (the topic alone). *)
Definition adoptedStream (s : Service) (streams : list EventStream)
  : option EventStream :=
  match find_stream (packStreamName codec (topic s) (instancePath s)) streams with
  | Some st => Some st
  | None => find_stream (topic s) streams
  end.

(** The subscriptions of a stream. *)
Definition subscriptionsOf (st : EventStream)
    (allSubscriptions : list EventStreamSubscription)
  : list EventStreamSubscription :=
  filter (fun s => String.eqb (sub_stream s) (es_id st)) allSubscriptions.

Definition baseSubscriptionName (s : Service) : string :=
  packSubscriptionName codec (instancePath s) BASE_SUBSCRIPTION_NAME
    tokenCreateEvent None.

(** The pool-identifying key of a decoded name: instance path, pool
    locator and pool data, with the event name left empty. *)
Definition poolKey (parts : SubscriptionParts) (poolLocator : string) : string :=
  packSubscriptionName codec (sp_instancePath parts) poolLocator ""
    (sp_poolData parts).

(** The (pool key, event name) pairs of the subscriptions other than the
    base one, in order; [None] when a name does not decode. *)
Fixpoint decodeSubscriptions (baseSubscription : string)
    (subscriptions : list EventStreamSubscription)
  : option (list (string * string)) :=
  match subscriptions with
  | [] => Some []
  | sub :: rest =>
      if String.eqb (sub_name sub) baseSubscription then
        decodeSubscriptions baseSubscription rest
      else
        let parts := unpackSubscriptionName codec (sub_name sub) in
        match sp_poolLocator parts, sp_event parts with
        | Some poolLocator, Some event =>
            option_map (cons (poolKey parts poolLocator, event))
              (decodeSubscriptions baseSubscription rest)
        | _, _ => None
        end
  end.

(** The acceptance rule of the pool-creation path: the subscription has
    a pool locator, and the pool id decoded from it is the base
    subscription's or the one decoded from the event's type id. *)
Definition poolCreationAccepted (subName : string) (unpackedId : UnpackedTokenId)
  : Prop :=
  exists subLocator,
    sp_poolLocator (unpackSubscriptionName codec subName) = Some subLocator
    /\ (pl_poolId (unpackPoolLocator codec subLocator) = BASE_SUBSCRIPTION_NAME
        \/ pl_poolId (unpackPoolLocator codec subLocator) = uti_poolId unpackedId).

End CodecSpec.

(** The event names of the group of one pool key. *)
Definition groupEvents (key : string) (pairs : list (string * string))
  : list string :=
  map snd (filter (fun p => String.eqb (fst p) key) pairs).

(** The map built by the first loop from the decoded pairs. *)
Fixpoint addAll (pairs : list (string * string)) (foundEvents : EventsMap)
  : EventsMap :=
  match pairs with
  | [] => foundEvents
  | (key, event) :: rest =>
      addAll rest
        (match map_get key foundEvents with
         | Some _ => map_push key event foundEvents
         | None => map_set key [event] foundEvents
         end)
  end.

(** Equality of two lists as sets: same members, whatever the order and
    the multiplicities. *)
Definition same_set (l1 l2 : list string) : bool :=
  forallb (fun x => array_includes x l2) l1
  && forallb (fun x => array_includes x l1) l2.

Definition pow10 (k : nat) : N := (10 ^ N.of_nat k)%N.

(** The id carried by a message. *)
Definition message_id (msg : WebSocketMessage) : string :=
  match msg_data msg with
  | PoolMessage d => bc_id (tp_blockchain d)
  | TransferMessage d => tt_id d
  | ApprovalMessage d => ta_id d
  end.

(* ================================================================== *)
(** * A concrete codec and outside world                                *)
(* ================================================================== *)

Module Sample.

(** Helpers of the sample codec: hexadecimal rendering, splitting at
    colons, decoding pairs of hexadecimal digits. *)
Definition hex_char (d : N) : ascii :=
  if (d <? 10)%N then ascii_of_N (48 + d) else ascii_of_N (87 + d).

Fixpoint hex_digits (fuel : nat) (n : N) : string :=
  match fuel with
  | O => ""
  | S f =>
      (if (n / 16 =? 0)%N then "" else hex_digits f (n / 16))
        ++ String (hex_char (n mod 16)) ""
  end.

Definition toString16 (n : N) : string :=
  hex_digits (S (N.to_nat (N.log2 n))) n.

Fixpoint split_colon (s : string) : list string :=
  match s with
  | EmptyString => [""]
  | String c r =>
      match split_colon r with
      | [] => [String c ""]
      | h :: t => if Ascii.eqb c ":" then "" :: h :: t else String c h :: t
      end
  end.

Fixpoint decode_pairs (s : string) : string :=
  match s with
  | String a (String b r) =>
      match Js.digit_val a, Js.digit_val b with
      | Some x, Some y => String (ascii_of_N (16 * x + y)) (decode_pairs r)
      | _, _ => ""
      end
  | _ => ""
  end.

(** Token ids as 256-bit numbers: bit 255 set for a non-fungible pool,
    the pool number in bits 128..254, the token index in the low 128 bits;
    the decoder rejects what is not a non-negative integer literal. *)
Definition sample_unpackTokenId (id : string) : Result UnpackedTokenId :=
  match Js.BigInt id with
  | Some (Zneg _) | None => inl (UtilError ("malformed token id " ++ id))
  | Some z =>
      let v := Z.to_N z in
      let fungible := (v / 2 ^ 255 =? 0)%N in
      inr {| uti_isFungible := fungible;
             uti_poolId := (if fungible then "F" else "N")
                           ++ Js.toString10 ((v mod 2 ^ 255) / 2 ^ 128);
             uti_tokenIndex := if fungible then None
                               else Some (Js.toString10 (v mod 2 ^ 128)) |}
  end.

Definition sample_packTokenId (poolId : string) (tokenIndex : option string)
  : Result string :=
  match poolId with
  | String c rest =>
      match Js.parse_nat 10 rest,
            Js.parse_nat 10 (Js.nullish tokenIndex "0") with
      | Some p, Some i =>
          if ((p <? 2 ^ 127) && (i <? 2 ^ 128))%N then
            inr (Js.toString10
                   ((if Ascii.eqb c "N" then 2 ^ 255 else 0)
                    + p * 2 ^ 128 + i)%N)
          else inl (UtilError ("pool id out of range " ++ poolId))
      | _, _ => inl (UtilError ("invalid pool id " ++ poolId))
      end
  | EmptyString => inl (UtilError "invalid pool id")
  end.

(** Pool locators as [id=<pool>] or [id=<pool>&block=<number>]; a string
    without the [id=] prefix is its own pool id. *)
Definition sample_packPoolLocator (poolId : string) (blockNumber : option string)
  : string :=
  match blockNumber with
  | None => "id=" ++ poolId
  | Some b => "id=" ++ poolId ++ "&block=" ++ b
  end.

Definition sample_unpackPoolLocator (data : string) : PoolLocator :=
  if String.prefix "id=" data then
    let rest := Js.substring_from 3 data in
    match Js.indexOf "&block=" rest with
    | Some i =>
        {| pl_poolId := substring 0 i rest;
           pl_blockNumber := Some (Js.substring_from (i + 7) rest) |}
    | None => {| pl_poolId := rest; pl_blockNumber := None |}
    end
  else {| pl_poolId := data; pl_blockNumber := None |}.

(** Subscription names as colon-separated fields after a fixed prefix;
    any other shape decodes to no locator and no event. *)
Definition sample_packSubscriptionName (instancePath poolLocator event : string)
    (poolData : option string) : string :=
  Js.join ":"
    (["fft"; instancePath; poolLocator; event]
       ++ match poolData with Some d => [d] | None => [] end)%list.

Definition sample_unpackSubscriptionName (name : string) : SubscriptionParts :=
  match split_colon name with
  | ["fft"; i; l; e] =>
      {| sp_instancePath := i; sp_poolLocator := Some l; sp_event := Some e;
         sp_poolData := None |}
  | ["fft"; i; l; e; d] =>
      {| sp_instancePath := i; sp_poolLocator := Some l; sp_event := Some e;
         sp_poolData := Some d |}
  | _ =>
      {| sp_instancePath := ""; sp_poolLocator := None; sp_event := None;
         sp_poolData := None |}
  end.

(** Modelled from the spec: tokens.util (the identifier codec) is missing
    from the sources.  This instance follows the contracts of the spec's
    IdentifierCodec section (reversible packing, a strict token-id decoder,
    a lenient subscription-name decoder) with a simple encoding of its own.
    The properties below are proved for every codec; this one serves to run
    the service on concrete inputs. *)
Definition codec : Codec :=
  {| unpackTokenId := sample_unpackTokenId;
     packTokenId := sample_packTokenId;
     packPoolLocator := sample_packPoolLocator;
     unpackPoolLocator := sample_unpackPoolLocator;
     packSubscriptionName := sample_packSubscriptionName;
     unpackSubscriptionName := sample_unpackSubscriptionName;
     packStreamName := fun topic instancePath => topic ++ ":" ++ instancePath;
     decodeHex := fun s =>
       decode_pairs (if String.prefix "0x" s then Js.substring_from 2 s else s);
     encodeHexIDForURI := fun id =>
       match Js.BigInt id with
       | Some z => Js.padStart 64 "0" (toString16 (Z.to_N z))
       | None => ""
       end |}.

(** An ABI with the entries the service looks up. *)
Definition abi : list IAbiMethod :=
  map (fun '(n, t) => {| abi_name := Some n; abi_type := Some t |})
    [ ("TokenPoolCreation", "event"); ("TransferSingle", "event");
      ("TransferBatch", "event"); ("ApprovalForAll", "event");
      ("create", "function"); ("mintFungible", "function");
      ("mintNonFungible", "function"); ("safeTransferFrom", "function");
      ("burn", "function"); ("setApprovalForAllWithData", "function");
      ("balanceOf", "function"); ("uri", "function");
      ("supportsInterface", "function"); ("baseTokenUri", "function") ].

(** An outside world: the event-stream directory, the replies the gateway
    will give to the next POSTs (none left: connection failure) and the
    contract address behind the instance URL. *)
Record SampleWorld : Type := {
  sw_streams : list EventStream;
  sw_subscriptions : list EventStreamSubscription;
  sw_replies : list (Result EthConnectReturn);
  sw_address : string
}.

Definition sample_post (req : QueryRequest) (w : SampleWorld)
  : Result EthConnectReturn * SampleWorld :=
  match sw_replies w with
  | [] => (inl (AxiosError (Some "/") None "connect ECONNREFUSED"), w)
  | r :: rest =>
      (r, {| sw_streams := sw_streams w;
             sw_subscriptions := sw_subscriptions w;
             sw_replies := rest; sw_address := sw_address w |})
  end.

Definition sample_createStream (name topic : string) (w : SampleWorld)
  : Result EventStream * SampleWorld :=
  match find (fun s => String.eqb (es_name s) name) (sw_streams w) with
  | Some st => (inr st, w)
  | None =>
      let st := {| es_id := "es-" ++ Js.toString10 (N.of_nat (List.length (sw_streams w)));
                   es_name := name |} in
      (inr st, {| sw_streams := (sw_streams w ++ [st])%list;
                  sw_subscriptions := sw_subscriptions w;
                  sw_replies := sw_replies w; sw_address := sw_address w |})
  end.

Definition sample_subscribe (req : SubscriptionRequest) (w : SampleWorld)
  : Result EventStreamSubscription * SampleWorld :=
  match find (fun s => String.eqb (sub_name s) (sr_name req)
                       && String.eqb (sub_stream s) (sr_streamId req))
             (sw_subscriptions w) with
  | Some s => (inr s, w)
  | None =>
      let s := {| sub_name := sr_name req; sub_stream := sr_streamId req |} in
      (inr s, {| sw_streams := sw_streams w;
                 sw_subscriptions := (sw_subscriptions w ++ [s])%list;
                 sw_replies := sw_replies w; sw_address := sw_address w |})
  end.

Definition env : Env SampleWorld :=
  {| http_get := fun _ w => (inr {| cir_address := sw_address w |}, w);
     http_post := sample_post;
     getStreams := fun w => (inr (sw_streams w), w);
     getSubscriptions := fun w => (inr (sw_subscriptions w), w);
     createOrUpdateStream := sample_createStream;
     getOrCreateSubscription := sample_subscribe |}.

(** The service after [configure]. *)
Definition service : Service :=
  {| baseUrl := "http://ethconnect:5102";
     instancePath := "/contracts/erc1155";
     instanceUrl := "http://ethconnect:5102/contracts/erc1155";
     topic := "tokens";
     contractAddress := "0x123456";
     supportsCustomUri := None;
     stream := None;
     logs := [] |}.

Definition start (w : SampleWorld) : Machine SampleWorld :=
  Build_Machine service w [].

Definition mkEvent {D} (signature blockNumber transactionIndex logIndex : string)
    (d : D) : Event D :=
  {| ev_signature := signature;
     ev_address := "0x123456";
     ev_blockNumber := Some blockNumber;
     ev_transactionIndex := transactionIndex;
     ev_transactionHash := "0xabc";
     ev_logIndex := Some logIndex;
     ev_timestamp := "1";
     ev_data := d;
     ev_inputArgs := None |}.

(** Token id of the fungible pool [F1], and of token 1 of the
    non-fungible pool [N2]. *)
Definition tokenF1 : string := Eval vm_compute in Js.toString10 (2 ^ 128).
Definition tokenN2_1 : string :=
  Eval vm_compute in Js.toString10 (2 ^ 255 + 2 * 2 ^ 128 + 1).

Definition locatorF1 : string := "id=F1&block=5".

(** Name of the subscription of pool [F1] to an event. *)
Definition subF1 (event : string) : string :=
  sample_packSubscriptionName "/contracts/erc1155" locatorF1 event None.

Definition baseSub : string :=
  sample_packSubscriptionName "/contracts/erc1155" BASE_SUBSCRIPTION_NAME
    tokenCreateEvent None.

Definition transferSig : string :=
  "TransferSingle(address,address,address,uint256,uint256)".
Definition batchSig : string :=
  "TransferBatch(address,address,address,uint256[],uint256[])".
Definition createSig : string := "TokenPoolCreation(address,uint256,bytes)".
Definition approvalSig : string := "ApprovalForAll(address,address,bool)".

Definition mintEvent : Event TransferSingleData :=
  mkEvent transferSig "5" "0x1" "2"
    {| ts_operator := "0x0a"; ts_from := ZERO_ADDRESS; ts_to := "0xABC";
       ts_id := tokenF1; ts_value := Some "10" |}.

Definition batchEvent : Event TransferBatchData :=
  mkEvent batchSig "5" "0x1" "2"
    {| tb_operator := "0x0a"; tb_from := ZERO_ADDRESS; tb_to := "0xABC";
       tb_ids := [tokenF1; tokenF1]; tb_values := ["1"; "2"] |}.

Definition createEvent : Event TokenPoolCreationData :=
  mkEvent createSig "5" "0x1" "2"
    {| pc_operator := "0x0a"; pc_type_id := tokenF1; pc_data := None |}.

Definition approvalEvent : Event ApprovalForAllData :=
  mkEvent approvalSig "5" "0x1" "2"
    {| ap_account := "0x0b"; ap_operator := "0x0a"; ap_approved := true |}.

(** The gateway is down: nothing in the directory, every POST fails. *)
Definition world_down : SampleWorld :=
  {| sw_streams := []; sw_subscriptions := []; sw_replies := [];
     sw_address := "123456" |}.

(** The first POST fails, the second would answer [true]. *)
Definition world_fails_once : SampleWorld :=
  {| sw_streams := []; sw_subscriptions := [];
     sw_replies := [inl (AxiosError (Some "/") None "timeout");
                    inr {| ecr_output := JBool true |}];
     sw_address := "123456" |}.

Definition theStream : EventStream :=
  {| es_id := "es-0"; es_name := "tokens:/contracts/erc1155" |}.

Definition onStream (name : string) : EventStreamSubscription :=
  {| sub_name := name; sub_stream := "es-0" |}.

(** The stream with the base subscription and the four subscriptions of
    pool [F1]. *)
Definition world_reconciled : SampleWorld :=
  {| sw_streams := [theStream];
     sw_subscriptions :=
       [onStream baseSub; onStream (subF1 tokenCreateEvent);
        onStream (subF1 transferSingleEvent);
        onStream (subF1 transferBatchEvent);
        onStream (subF1 approvalForAllEvent)];
     sw_replies := []; sw_address := "123456" |}.

(** The same, with the approval subscription of pool [F1] listed twice. *)
Definition world_duplicate : SampleWorld :=
  {| sw_streams := [theStream];
     sw_subscriptions :=
       (sw_subscriptions world_reconciled
          ++ [onStream (subF1 approvalForAllEvent)])%list;
     sw_replies := []; sw_address := "123456" |}.

Definition keyF1 : string :=
  sample_packSubscriptionName "/contracts/erc1155" locatorF1 "" None.

(** The decoded (pool key, event name) pairs of [world_reconciled]. *)
Definition pairsF1 : list (string * string) :=
  map (fun event => (keyF1, event)) ALL_SUBSCRIBED_EVENTS.

Definition unpackedF1 : UnpackedTokenId :=
  {| uti_isFungible := true; uti_poolId := "F1"; uti_tokenIndex := None |}.

Definition activateF1 : TokenPoolActivate :=
  {| tpa_poolLocator := locatorF1; tpa_poolData := None |}.



Definition transferEvent (from to id : string) : Event TransferSingleData :=
  mkEvent transferSig "5" "0x1" "2"
    {| ts_operator := "0x0a"; ts_from := from; ts_to := to;
       ts_id := id; ts_value := Some "10" |}.

(** [world_reconciled] without the batch-transfer subscription of [F1]. *)
Definition world_missing_one : SampleWorld :=
  {| sw_streams := [theStream];
     sw_subscriptions :=
       [onStream baseSub; onStream (subF1 tokenCreateEvent);
        onStream (subF1 transferSingleEvent);
        onStream (subF1 approvalForAllEvent)];
     sw_replies := []; sw_address := "123456" |}.

End Sample.

(* ================================================================== *)
(** * The rest of the service: initialization and transactions          *)
(* ================================================================== *)

Module JsInt.

(** Value of the longest prefix of [s] made of digits of the radix;
    [None] when that prefix is empty. *)
Fixpoint parse_prefix (radix : N) (s : string) (acc : N) (seen : bool)
  : option N :=
  match s with
  | EmptyString => if seen then Some acc else None
  | String c r =>
      match Js.digit_val c with
      | Some d =>
          if (d <? radix)%N then parse_prefix radix r (acc * radix + d)%N true
          else if seen then Some acc else None
      | None => if seen then Some acc else None
      end
  end.

(** [parseInt(s)] without a radix: leading white space is skipped, a sign
    is read, a [0x] prefix selects radix 16, and the longest prefix of
    digits is the value; what follows is ignored.  [None] is [NaN].  The
    value is the exact integer (a JavaScript number rounds it from 2^53
    on). *)
Definition parseInt (s : string) : option Z :=
  let t := Js.drop_ws s in
  let '(negative, t1) :=
    match t with
    | String "-" r => (true, r)
    | String "+" r => (false, r)
    | _ => (false, t)
    end in
  let '(radix, t2) :=
    match t1 with
    | String "0" (String ("x" | "X") r) => (16%N, r)
    | _ => (10%N, t1)
    end in
  option_map (fun n => if negative then Z.opp (Z.of_N n) else Z.of_N n)
    (parse_prefix radix t2 0%N false).

(** Longest array: [2^32 - 1] elements. *)
Definition MAX_ARRAY_LENGTH : Z := 4294967295.

End JsInt.

(** Values passed as parameters of a transaction. *)
Inductive TxParam : Type :=
| PString (s : string)
| PBool (b : bool)
| PStrings (l : list string).

(** Body of the gateway POST issued by [sendTransaction]. *)
Record TxRequest : Type := {
  tx_url : string;
  tx_id : option string;
  tx_type : string;
  tx_from : string;
  tx_to : string;
  tx_method : option IAbiMethod;
  tx_params : list TxParam
}.

Record EthConnectAsyncResponse : Type := { ecar_id : string }.
Record AsyncResponse : Type := { ar_id : string }.

Record TokenPool : Type := {
  tpo_type : TokenType;
  tpo_requestId : option string;
  tpo_signer : string;
  tpo_data : option string
}.

Record TokenMint : Type := {
  tm_poolLocator : string;
  tm_to : string;
  tm_amount : string;
  tm_requestId : option string;
  tm_signer : string;
  tm_data : option string;
  tm_uri : option string
}.

Record TokenApproval : Type := {
  tap_operator : string;
  tap_approved : bool;
  tap_requestId : option string;
  tap_signer : string;
  tap_data : option string
}.

Record TokenTransfer : Type := {
  ttr_poolLocator : string;
  ttr_tokenIndex : option string;
  ttr_from : string;
  ttr_to : string;
  ttr_amount : string;
  ttr_requestId : option string;
  ttr_signer : string;
  ttr_data : option string
}.

Record TokenBurn : Type := {
  tbu_poolLocator : string;
  tbu_tokenIndex : option string;
  tbu_from : string;
  tbu_amount : string;
  tbu_requestId : option string;
  tbu_signer : string;
  tbu_data : option string
}.

Definition sendTransactionHeader := "SendTransaction".

(** A mint request with its URI left out. *)
Definition without_uri (dto : TokenMint) : TokenMint :=
  {| tm_poolLocator := tm_poolLocator dto; tm_to := tm_to dto;
     tm_amount := tm_amount dto; tm_requestId := tm_requestId dto;
     tm_signer := tm_signer dto; tm_data := tm_data dto; tm_uri := None |}.

Section TokensServiceTransactions.

Context {World : Type}.
Variable env : Env World.
Variable codec : Codec.
Variable abi : list IAbiMethod.
(** The POST of a transaction through the HTTP client: a transition of the
    outside world that may fail.  (It is kept apart from the [Call]s of the
    trace, which lists the queries and the event-stream calls.) *)
Variable post_transaction :
  TxRequest -> World -> Result EthConnectAsyncResponse * World.
(** [isFungible] and [encodeHex] of tokens.util. *)
Variable isFungible : string -> bool.
Variable encodeHex : string -> string.
(** The number of elements up to which the engine lets an array grow by
    [push]: the language allows [2^32 - 1], an engine may stop before
    (V8 does).  A process that runs out of memory is outside the model. *)
Variable arrayLimit : Z.

Local Open Scope m_scope.

(** One-time initialization of event stream and base subscription. *)
Definition init : M World unit :=
  strm <- getStream env codec ;;
  match abi_find abi tokenCreateEvent, abi_find abi tokenCreateFunctionName with
  | Some eventABI, Some methodABI =>
      contractAddress <- getContractAddress env ;;
      s <- getService ;;
      _ <- subscribe env
             {| sr_baseUrl := baseUrl s; sr_eventABI := eventABI;
                sr_streamId := es_id strm; sr_event := tokenCreateEvent;
                sr_name := packSubscriptionName codec (instancePath s)
                             BASE_SUBSCRIPTION_NAME tokenCreateEvent None;
                sr_contractAddress := contractAddress;
                sr_methodABIs := [methodABI];
                sr_fromBlock := "0" |} ;;
      ret tt
  | _, _ => ret tt
  end.

Definition sendTransaction (from : string) (id : option string)
    (method : option IAbiMethod) (params : list TxParam)
  : M World EthConnectAsyncResponse :=
  s <- getService ;;
  to <- getContractAddress env ;;
  let req := {| tx_url := baseUrl s; tx_id := id; tx_type := sendTransactionHeader;
                tx_from := from; tx_to := to; tx_method := method;
                tx_params := params |} in
  wrapError
    (fun m =>
       let '(r, w') := post_transaction req (world m) in
       (r, Build_Machine (svc m) w' (trace m))).

Definition is_FUNGIBLE (t : TokenType) : bool :=
  match t with FUNGIBLE => true | NONFUNGIBLE => false end.

Definition createPool (dto : TokenPool) : M World AsyncResponse :=
  response <- sendTransaction (tpo_signer dto) (tpo_requestId dto)
                (abi_find abi tokenCreateFunctionName)
                [PBool (is_FUNGIBLE (tpo_type dto));
                 PString (encodeHex (Js.nullish (tpo_data dto) ""))] ;;
  ret {| ar_id := ecar_id response |}.

(** The longest array [push] can build. *)
Definition pushLimit : Z := Z.min arrayLimit JsInt.MAX_ARRAY_LENGTH.

(** The loop [for (let i = 0; i < amount; i++) to.push(dto.to)]; [fuel]
    bounds the iterations.  [push] on an array that cannot grow is a
    [RangeError]. *)
Fixpoint pushLoop (fuel : nat) (i amount : Z) (x : string) (to : list string)
  : Result (list string) :=
  match fuel with
  | O => inr to
  | S fuel' =>
      if (i <? amount)%Z then
        if (Z.of_nat (List.length to) <? pushLimit)%Z
        then pushLoop fuel' (i + 1)%Z amount x (to ++ [x])%list
        else inl (OtherError "RangeError: Invalid array length")
      else inr to
  end.

(** The recipients array of a non-fungible mint, with
    [amount = parseInt(dto.amount)]; the test [i < NaN] is false. *)
Definition mintRecipients (to amount : string) : Result (list string) :=
  match JsInt.parseInt amount with
  | None => inr []
  | Some n =>
      pushLoop (S (Z.to_nat (Z.min n (pushLimit + 1)))) 0 n to []
  end.

Definition mint (dto : TokenMint) : M World AsyncResponse :=
  let poolLocator := unpackPoolLocator codec (tm_poolLocator dto) in
  typeId <- lift (packTokenId codec (pl_poolId poolLocator) None) ;;
  if isFungible (pl_poolId poolLocator) then
    response <- sendTransaction (tm_signer dto) (tm_requestId dto)
                  (abi_find abi "mintFungible")
                  [PString typeId; PStrings [tm_to dto];
                   PStrings [tm_amount dto];
                   PString (encodeHex (Js.nullish (tm_data dto) ""))] ;;
    ret {| ar_id := ecar_id response |}
  else
    (* In the case of a non-fungible token the value is parsed as a whole
       integer count of NFTs to mint *)
    to <- lift (mintRecipients (tm_to dto) (tm_amount dto)) ;;
    withUri <- match tm_uri dto with
               | Some _ => isCustomUriSupported env abi
               | None => ret false
               end ;;
    match tm_uri dto, withUri with
    | Some uri, true =>
        response <- sendTransaction (tm_signer dto) (tm_requestId dto)
                      (abi_find abi "mintNonFungibleWithURI")
                      [PString typeId; PStrings to;
                       PString (encodeHex (Js.nullish (tm_data dto) ""));
                       PString uri] ;;
        ret {| ar_id := ecar_id response |}
    | _, _ =>
        response <- sendTransaction (tm_signer dto) (tm_requestId dto)
                      (abi_find abi "mintNonFungible")
                      [PString typeId; PStrings to;
                       PString (encodeHex (Js.nullish (tm_data dto) ""))] ;;
        ret {| ar_id := ecar_id response |}
    end.

Definition approval (dto : TokenApproval) : M World AsyncResponse :=
  response <- sendTransaction (tap_signer dto) (tap_requestId dto)
                (abi_find abi "setApprovalForAllWithData")
                [PString (tap_operator dto); PBool (tap_approved dto);
                 PString (encodeHex (Js.nullish (tap_data dto) ""))] ;;
  ret {| ar_id := ecar_id response |}.

Definition transfer (dto : TokenTransfer) : M World AsyncResponse :=
  let poolLocator := unpackPoolLocator codec (ttr_poolLocator dto) in
  tokenId <- lift (packTokenId codec (pl_poolId poolLocator) (ttr_tokenIndex dto)) ;;
  response <- sendTransaction (ttr_signer dto) (ttr_requestId dto)
                (abi_find abi "safeTransferFrom")
                [PString (ttr_from dto); PString (ttr_to dto); PString tokenId;
                 PString (ttr_amount dto);
                 PString (encodeHex (Js.nullish (ttr_data dto) ""))] ;;
  ret {| ar_id := ecar_id response |}.

Definition burn (dto : TokenBurn) : M World AsyncResponse :=
  let poolLocator := unpackPoolLocator codec (tbu_poolLocator dto) in
  tokenId <- lift (packTokenId codec (pl_poolId poolLocator) (tbu_tokenIndex dto)) ;;
  response <- sendTransaction (tbu_signer dto) (tbu_requestId dto)
                (abi_find abi "burn")
                [PString (tbu_from dto); PString tokenId;
                 PString (tbu_amount dto);
                 PString (encodeHex (Js.nullish (tbu_data dto) ""))] ;;
  ret {| ar_id := ecar_id response |}.

End TokensServiceTransactions.

(** Further inputs on which the service is run: a non-fungible pool, a
    gateway that answers the [uri] query, an unconfigured service, a
    gateway whose contract info cannot be fetched, a legacy subscription, a
    partial ABI and a transaction endpoint. *)
Module Fixtures.

Definition locatorN2 : string := "id=N2&block=7".

Definition subN2 (event : string) : string :=
  Sample.sample_packSubscriptionName "/contracts/erc1155" locatorN2 event None.

Definition unpackedN2_1 : UnpackedTokenId :=
  {| uti_isFungible := false; uti_poolId := "N2"; uti_tokenIndex := Some "1" |}.

(** The gateway answers the next query with the string [uri]. *)
Definition world_uri (uri : string) : Sample.SampleWorld :=
  {| Sample.sw_streams := []; Sample.sw_subscriptions := [];
     Sample.sw_replies := [inr {| ecr_output := JString uri |}];
     Sample.sw_address := "123456" |}.

(** The service before its contract address is known, in front of a
    contract whose address is reported in mixed case. *)
Definition unconfigured (w : Sample.SampleWorld) : Machine Sample.SampleWorld :=
  Build_Machine (set_contractAddress "" Sample.service) w [].

Definition world_mixed_case : Sample.SampleWorld :=
  {| Sample.sw_streams := []; Sample.sw_subscriptions := [];
     Sample.sw_replies := []; Sample.sw_address := "12AB56" |}.

Definition notFound : Err :=
  AxiosError (Some "/contracts/erc1155")
    (Some {| aer_status := 404; aer_statusText := "Not Found";
             aer_data_error := Some "contract not registered" |})
    "Request failed with status code 404".

(** The environment of [Sample] with a gateway that does not know the
    contract instance. *)
Definition env_unregistered : Env Sample.SampleWorld :=
  {| http_get := fun _ w => (inl notFound, w);
     http_post := http_post Sample.env;
     getStreams := getStreams Sample.env;
     getSubscriptions := getSubscriptions Sample.env;
     createOrUpdateStream := createOrUpdateStream Sample.env;
     getOrCreateSubscription := getOrCreateSubscription Sample.env |}.

(** The reconciled directory with one more subscription on the stream, under
    a name of another format. *)
Definition world_legacy_name : Sample.SampleWorld :=
  {| Sample.sw_streams := [Sample.theStream];
     Sample.sw_subscriptions :=
       (Sample.sw_subscriptions Sample.world_reconciled
          ++ [Sample.onStream "tokens:legacy"])%list;
     Sample.sw_replies := []; Sample.sw_address := "123456" |}.

(** An ABI without the [create] function. *)
Definition abi_without_create : list IAbiMethod :=
  filter (fun e => match abi_name e with
                   | Some n => negb (String.eqb n tokenCreateFunctionName)
                   | None => true
                   end) Sample.abi.

(** The transaction endpoint: accepts everything and answers with the
    request id, or with [tx-1] when there is none. *)
Definition post_transaction (req : TxRequest) (w : Sample.SampleWorld)
  : Result EthConnectAsyncResponse * Sample.SampleWorld :=
  (inr {| ecar_id := Js.nullish (tx_id req) "tx-1" |}, w).

(** Pool ids of the sample codec start with [F] when fungible. *)
Definition isFungible (poolId : string) : bool := String.prefix "F" poolId.

Definition encodeHex (data : string) : string := "0x" ++ data.

(** The array limit of an engine that stops [push] at 112813858 elements. *)
Definition arrayLimit : Z := 112813858.

(** The amount [3] after a no-break space (U+00A0). *)
Definition amountAfterNbsp : string := Js.of_bytes [194; 160] ++ "3".

Definition mintN2 (amount : string) (uri : option string) : TokenMint :=
  {| tm_poolLocator := locatorN2; tm_to := "0xABC"; tm_amount := amount;
     tm_requestId := Some "req-1"; tm_signer := "0x0a"; tm_data := None;
     tm_uri := uri |}.

Definition mintF1 : TokenMint :=
  {| tm_poolLocator := Sample.locatorF1; tm_to := "0xABC"; tm_amount := "10";
     tm_requestId := Some "req-2"; tm_signer := "0x0a"; tm_data := None;
     tm_uri := Some "https://host/ignored" |}.

(** Requests naming a pool the codec cannot pack. *)
Definition transferBad : TokenTransfer :=
  {| ttr_poolLocator := "id=Fx"; ttr_tokenIndex := None; ttr_from := "0x01";
     ttr_to := "0x02"; ttr_amount := "1"; ttr_requestId := None;
     ttr_signer := "0x01"; ttr_data := None |}.

Definition burnBad : TokenBurn :=
  {| tbu_poolLocator := "id=Fx"; tbu_tokenIndex := None; tbu_from := "0x01";
     tbu_amount := "1"; tbu_requestId := None; tbu_signer := "0x01";
     tbu_data := None |}.

Definition mintBad : TokenMint :=
  {| tm_poolLocator := "id=Fx"; tm_to := "0x02"; tm_amount := "1";
     tm_requestId := None; tm_signer := "0x01"; tm_data := None;
     tm_uri := None |}.

End Fixtures.


(* ================================================================== *)
(** * Strings: lengths, padding and comparison                          *)
(* ================================================================== *)

Lemma length_append (s1 s2 : string) :
  String.length (s1 ++ s2) = String.length s1 + String.length s2.
Proof. induction s1 as [|c s1 IH]; simpl; [reflexivity | now rewrite IH]. Qed.

Lemma append_assoc (s1 s2 s3 : string) : (s1 ++ s2) ++ s3 = s1 ++ (s2 ++ s3).
Proof. induction s1 as [|c s1 IH]; simpl; [reflexivity | now rewrite IH]. Qed.

Lemma substring_all (s : string) : substring 0 (String.length s) s = s.
Proof. induction s as [|c s IH]; simpl; [reflexivity | now rewrite IH]. Qed.

Lemma repeat_zero_length (n : nat) :
  String.length (Js.repeat_string "0" n) = n.
Proof. induction n as [|n IH]; simpl; [reflexivity | now rewrite IH]. Qed.

Lemma padStart_zero (k : nat) (s : string) :
  Js.padStart k "0" s = Js.repeat_string "0" (k - String.length s) ++ s.
Proof.
  unfold Js.padStart.
  destruct (Nat.leb_spec k (String.length s)) as [Hle | Hlt].
  - replace (k - String.length s) with 0 by lia. reflexivity.
  - simpl String.eqb. cbv iota.
    rewrite <- (repeat_zero_length (k - String.length s)) at 1.
    now rewrite substring_all.
Qed.

(** Comparing two strings that start with blocks of the same length. *)
Lemma compare_append (x y r1 r2 : string) :
  String.length x = String.length y ->
  String.compare (x ++ r1) (y ++ r2) =
  match String.compare x y with
  | Eq => String.compare r1 r2
  | c => c
  end.
Proof.
  revert y. induction x as [|a x IH]; intros [|b y] Hlen; simpl in *;
    try discriminate; [reflexivity|].
  destruct (Ascii.compare a b); try reflexivity.
  apply IH. lia.
Qed.

Lemma compare_refl (s : string) : String.compare s s = Eq.
Proof.
  induction s as [|a s IH]; simpl; [reflexivity|].
  unfold Ascii.compare. now rewrite N.compare_refl.
Qed.

Lemma digit_char_compare (a b : N) :
  (a < 10)%N -> (b < 10)%N ->
  Ascii.compare (Js.digit_char a) (Js.digit_char b) = (a ?= b)%N.
Proof.
  intros Ha Hb. unfold Ascii.compare, Js.digit_char.
  rewrite !N_ascii_embedding by lia.
  destruct (N.compare_spec a b) as [E | L | G].
  - apply N.compare_eq_iff. lia.
  - apply N.compare_lt_iff. lia.
  - apply N.compare_gt_iff. lia.
Qed.

Lemma fixed_digits_length (k : nat) (n : N) :
  String.length (fixed_digits k n) = k.
Proof.
  revert n. induction k as [|k IH]; intros n; simpl; [reflexivity|].
  rewrite length_append, IH. simpl. lia.
Qed.

Lemma compare_div10 (a b : N) :
  (a ?= b)%N =
  match (a / 10 ?= b / 10)%N with
  | Eq => (a mod 10 ?= b mod 10)%N
  | c => c
  end.
Proof.
  pose proof (N.div_mod a 10 ltac:(lia)) as Ha.
  pose proof (N.div_mod b 10 ltac:(lia)) as Hb.
  pose proof (N.mod_lt a 10 ltac:(lia)) as Ha'.
  pose proof (N.mod_lt b 10 ltac:(lia)) as Hb'.
  set (qa := (a / 10)%N) in *. set (qb := (b / 10)%N) in *.
  set (ra := (a mod 10)%N) in *. set (rb := (b mod 10)%N) in *.
  clearbody qa qb ra rb.
  destruct (N.compare_spec qa qb) as [E | L | G].
  - destruct (N.compare_spec ra rb) as [E' | L' | G'].
    + apply N.compare_eq_iff. lia.
    + apply N.compare_lt_iff. lia.
    + apply N.compare_gt_iff. lia.
  - apply N.compare_lt_iff. lia.
  - apply N.compare_gt_iff. lia.
Qed.

Lemma pow10_succ (k : nat) : pow10 (S k) = (10 * pow10 k)%N.
Proof.
  unfold pow10. rewrite Nat2N.inj_succ, N.pow_succ_r by lia. reflexivity.
Qed.

Lemma pow10_pos (k : nat) : (0 < pow10 k)%N.
Proof. unfold pow10. apply N.neq_0_lt_0, N.pow_nonzero. lia. Qed.

Lemma div10_lt (k : nat) (n : N) :
  (n < pow10 (S k))%N -> (n / 10 < pow10 k)%N.
Proof.
  rewrite pow10_succ. intros H.
  apply N.Div0.div_lt_upper_bound. lia.
Qed.

(** Fixed-width renderings compare as the numbers do. *)
Lemma fixed_digits_compare (k : nat) (a b : N) :
  (a < pow10 k)%N -> (b < pow10 k)%N ->
  String.compare (fixed_digits k a) (fixed_digits k b) = (a ?= b)%N.
Proof.
  revert a b. induction k as [|k IH]; intros a b Ha Hb.
  - unfold pow10 in *. simpl in *.
    assert (a = 0%N) by lia. assert (b = 0%N) by lia. subst. reflexivity.
  - simpl. rewrite compare_append by now rewrite !fixed_digits_length.
    rewrite IH by now apply div10_lt.
    rewrite (compare_div10 a b).
    destruct (a / 10 ?= b / 10)%N; try reflexivity.
    simpl. rewrite digit_char_compare by (apply N.mod_lt; lia).
    now destruct (a mod 10 ?= b mod 10)%N.
Qed.

Lemma repeat_zero_snoc (k : nat) :
  Js.repeat_string "0" k ++ "0" = Js.repeat_string "0" (S k).
Proof.
  induction k as [|k IH]; [reflexivity|].
  change (Js.repeat_string "0" (S k)) with ("0" ++ Js.repeat_string "0" k).
  rewrite append_assoc, IH. reflexivity.
Qed.

Lemma fixed_digits_zero (k : nat) :
  fixed_digits k 0 = Js.repeat_string "0" k.
Proof.
  induction k as [|k IH]; [reflexivity|].
  simpl fixed_digits. change (0 / 10)%N with 0%N. rewrite IH.
  change (String (Js.digit_char (0 mod 10)) "") with "0".
  apply repeat_zero_snoc.
Qed.

(** The free-width rendering is the fixed-width one without its leading
    zeros. *)
Lemma dec_digits_fixed (k fuel : nat) (n : N) :
  (n < pow10 k)%N -> (n < pow10 fuel)%N -> 0 < k -> 0 < fuel ->
  fixed_digits k n =
  Js.repeat_string "0" (k - String.length (Js.dec_digits fuel n))
    ++ Js.dec_digits fuel n
  /\ String.length (Js.dec_digits fuel n) <= k.
Proof.
  revert fuel n. induction k as [|k IH]; intros fuel n Hk Hf Hkpos Hfpos;
    [lia|].
  destruct fuel as [|fuel]; [lia|].
  simpl fixed_digits. simpl Js.dec_digits.
  destruct (N.eqb_spec (n / 10) 0) as [E | NE].
  - rewrite E, fixed_digits_zero. simpl.
    replace (k - 0) with k by lia. split; [reflexivity | lia].
  - assert (Hk' : (n / 10 < pow10 k)%N) by now apply div10_lt.
    assert (Hf' : (n / 10 < pow10 fuel)%N) by now apply div10_lt.
    set (q := (n / 10)%N) in *. clearbody q.
    assert (0 < k).
    { destruct k; [|lia]. unfold pow10 in Hk'. simpl in Hk'. lia. }
    assert (0 < fuel).
    { destruct fuel; [|lia]. unfold pow10 in Hf'. simpl in Hf'. lia. }
    destruct (IH fuel q Hk' Hf') as [Heq Hlen]; try assumption.
    rewrite length_append. simpl String.length.
    split; [|lia].
    rewrite Heq at 1. rewrite append_assoc.
    replace (S k - (String.length (Js.dec_digits fuel q) + 1))
      with (k - String.length (Js.dec_digits fuel q)) by lia.
    reflexivity.
Qed.

Lemma toString10_fuel (n : N) :
  (n < pow10 (S (N.to_nat (N.log2 n))))%N.
Proof.
  unfold pow10. rewrite Nat2N.inj_succ, N2Nat.id.
  destruct (N.eq_dec n 0) as [-> | NZ]; [reflexivity|].
  destruct (N.log2_spec n) as [_ Hlt]; [lia|].
  eapply N.lt_le_trans; [exact Hlt|].
  apply N.pow_le_mono_l. lia.
Qed.

(** [padStart] of the decimal rendering is the fixed-width rendering, as
    long as the number fits the width. *)
Lemma padStart_toString10 (k : nat) (n : N) :
  0 < k -> (n < pow10 k)%N ->
  Js.padStart k "0" (Js.toString10 n) = fixed_digits k n.
Proof.
  intros Hk Hn. rewrite padStart_zero. unfold Js.toString10.
  destruct (dec_digits_fixed k (S (N.to_nat (N.log2 n))) n) as [Heq _];
    try assumption; try lia.
  - apply toString10_fuel.
  - now rewrite Heq.
Qed.

(* ================================================================== *)
(** * The provenance id                                                 *)
(* ================================================================== *)

Lemma bigint_toString10_of_N (t : N) :
  Js.bigint_toString10 (Z.of_N t) = Js.toString10 t.
Proof. destruct t; reflexivity. Qed.

(** The id of an event whose position fits the field widths. *)
Lemma formatBlockchainEventId_positioned {D} (e : Event D) (b t l : N) :
  positioned e b t l ->
  (b < 1000000000000)%N -> (t < 1000000)%N -> (l < 1000000)%N ->
  formatBlockchainEventId e =
  inr (fixed_digits 12 b ++ "/" ++ fixed_digits 6 t ++ "/" ++ fixed_digits 6 l).
Proof.
  intros (Hb & Ht & Hl) Bb Bt Bl. unfold formatBlockchainEventId.
  rewrite Ht, Hb, Hl, bigint_toString10_of_N.
  rewrite !padStart_toString10 by (first [lia | assumption]).
  reflexivity.
Qed.

Lemma compare_slash (x y : string) :
  String.compare ("/" ++ x) ("/" ++ y) = String.compare x y.
Proof. reflexivity. Qed.

Lemma position_ids_compare (b1 t1 l1 b2 t2 l2 : N) :
  (b1 < 1000000000000)%N -> (t1 < 1000000)%N -> (l1 < 1000000)%N ->
  (b2 < 1000000000000)%N -> (t2 < 1000000)%N -> (l2 < 1000000)%N ->
  position_lt (b1, t1, l1) (b2, t2, l2) ->
  String.compare
    (fixed_digits 12 b1 ++ "/" ++ fixed_digits 6 t1 ++ "/" ++ fixed_digits 6 l1)
    (fixed_digits 12 b2 ++ "/" ++ fixed_digits 6 t2 ++ "/" ++ fixed_digits 6 l2)
  = Lt.
Proof.
  intros Bb1 Bt1 Bl1 Bb2 Bt2 Bl2 Hlt. simpl in Hlt.
  rewrite compare_append by now rewrite !fixed_digits_length.
  rewrite fixed_digits_compare by assumption.
  destruct Hlt as [Hb | [-> Hlt]].
  { now apply N.compare_lt_iff in Hb as ->. }
  rewrite N.compare_refl, compare_slash.
  rewrite compare_append by now rewrite !fixed_digits_length.
  rewrite fixed_digits_compare by assumption.
  destruct Hlt as [Ht | [-> Hl]].
  { now apply N.compare_lt_iff in Ht as ->. }
  rewrite N.compare_refl, compare_slash.
  rewrite fixed_digits_compare by assumption.
  now apply N.compare_lt_iff.
Qed.

(** C2 (amended): for two events of one chain whose block numbers are
    below 10^12 and whose transaction and log indices are below 10^6, if
    the first comes before the second in emission order (block number, then
    transaction index, then log index), both provenance ids are produced
    and the first sorts strictly before the second as a string. *)
Theorem provenance_id_sorted_within_widths {D} (e1 e2 : Event D)
    (b1 t1 l1 b2 t2 l2 : N) :
  positioned e1 b1 t1 l1 ->
  positioned e2 b2 t2 l2 ->
  (b1 < 1000000000000)%N -> (t1 < 1000000)%N -> (l1 < 1000000)%N ->
  (b2 < 1000000000000)%N -> (t2 < 1000000)%N -> (l2 < 1000000)%N ->
  position_lt (b1, t1, l1) (b2, t2, l2) ->
  exists id1 id2,
    formatBlockchainEventId e1 = inr id1
    /\ formatBlockchainEventId e2 = inr id2
    /\ (id1 <? id2)%string = true.
Proof.
  intros P1 P2 Bb1 Bt1 Bl1 Bb2 Bt2 Bl2 Hlt.
  eexists. eexists. split; [|split].
  - apply (formatBlockchainEventId_positioned e1 b1 t1 l1); assumption.
  - apply (formatBlockchainEventId_positioned e2 b2 t2 l2); assumption.
  - unfold String.ltb. now rewrite position_ids_compare.
Qed.

Lemma provenance_id_sorted_within_widths_witness :
  exists id1 id2,
    formatBlockchainEventId (Sample.mkEvent "TransferSingle" "5" "0x1" "2" tt) = inr id1
    /\ formatBlockchainEventId (Sample.mkEvent "TransferSingle" "5" "0x1" "10" tt) = inr id2
    /\ (id1 <? id2)%string = true.
Proof.
  apply (provenance_id_sorted_within_widths
           (Sample.mkEvent "TransferSingle" "5" "0x1" "2" tt)
           (Sample.mkEvent "TransferSingle" "5" "0x1" "10" tt)
           5 1 2 5 1 10).
  - repeat split; reflexivity.
  - repeat split; reflexivity.
  - reflexivity.
  - reflexivity.
  - reflexivity.
  - reflexivity.
  - reflexivity.
  - reflexivity.
  - simpl. right. split; [reflexivity|]. right. split; reflexivity.
Defined.

(** C2 as stated fails past the field widths: in block 5, the event of
    transaction 999999 comes before the event of transaction 1000000, yet
    its id sorts after, because [padStart] never truncates and the seven
    digits of 1000000 start with [1]. *)
Lemma provenance_id_unsorted_past_width :
  let e1 := Sample.mkEvent "TransferSingle" "5" "999999" "0" tt in
  let e2 := Sample.mkEvent "TransferSingle" "5" "1000000" "0" tt in
  positioned e1 5 999999 0
  /\ positioned e2 5 1000000 0
  /\ position_lt (5, 999999, 0)%N (5, 1000000, 0)%N
  /\ formatBlockchainEventId e1 = inr "000000000005/999999/000000"
  /\ formatBlockchainEventId e2 = inr "000000000005/1000000/000000"
  /\ ("000000000005/999999/000000" <? "000000000005/1000000/000000")%string = false.
Proof.
  cbv zeta. repeat split; try reflexivity.
  simpl. right. split; [reflexivity|]. left. reflexivity.
Qed.

(* ================================================================== *)
(** * Queries that cannot fail                                          *)
(* ================================================================== *)

Lemma tryCatch_total {W A} (c : M W A) (h : Err -> M W A) (m : Machine W) :
  (forall e m1, exists a m2, h e m1 = (inr a, m2)) ->
  exists a m', tryCatch c h m = (inr a, m').
Proof.
  intros Hh. unfold tryCatch. destruct (c m) as [[e | a] m1]; eauto.
Qed.

Section Listener.

Context {World : Type}.
Variable env : Env World.
Variable codec : Codec.
Variable abi : list IAbiMethod.

Lemma getTokenUri_total (id : string) (m : Machine World) :
  exists u m', getTokenUri env codec abi id m = (inr u, m').
Proof.
  apply tryCatch_total. intros e m1. unfold ret. eauto.
Qed.

Lemma queryBaseUri_total (m : Machine World) :
  exists u m', queryBaseUri env abi m = (inr u, m').
Proof.
  apply tryCatch_total. intros e m1.
  unfold bind, logger, modifyService, ret. eauto.
Qed.

Lemma isCustomUriSupported_total (m : Machine World) :
  exists b m', isCustomUriSupported env abi m = (inr b, m').
Proof.
  unfold isCustomUriSupported, bind at 1, getService at 1.
  destruct (supportsCustomUri (svc m)).
  - unfold bind, ret, getService. eauto.
  - unfold bind at 1.
    match goal with
    | |- context [tryCatch ?c ?h m] =>
        destruct (tryCatch_total c h m) as (a & m' & ->)
    end.
    + intros e m1. unfold bind, getService, logger, modifyService. eauto.
    + unfold bind, getService, ret. eauto.
Qed.

(* ================================================================== *)
(** * The single-transfer path                                          *)
(* ================================================================== *)

Lemma transformTransferSingleEvent_accepted (subName : string)
    (event : Event TransferSingleData) (eventIndex : option nat)
    (m : Machine World) (unpackedId : UnpackedTokenId)
    (subLocator eventId : string) :
  unpackTokenId codec (ts_id (ev_data event)) = inr unpackedId ->
  sp_poolLocator (unpackSubscriptionName codec subName) = Some subLocator ->
  pl_poolId (unpackPoolLocator codec subLocator) = uti_poolId unpackedId ->
  String.eqb (ts_from (ev_data event)) ZERO_ADDRESS
    && String.eqb (ts_to (ev_data event)) ZERO_ADDRESS = false ->
  formatBlockchainEventId event = inr eventId ->
  exists d m',
    transformTransferSingleEvent env codec abi subName event eventIndex m =
    (inr (Some {| msg_event := transferKind (ts_from (ev_data event))
                                 (ts_to (ev_data event));
                  msg_data := TransferMessage d |}), m')
    /\ tt_id d = transferIdOf eventId eventIndex
    /\ tt_poolLocator d = subLocator.
Proof.
  intros Hid Hsub Hpool Hzero Hfmt.
  unfold transformTransferSingleEvent.
  cbv beta iota delta [bind lift].
  rewrite Hid, Hsub, Hpool, String.eqb_refl, Hzero, Hfmt.
  cbn [negb]. unfold transferKind, transferIdOf.
  destruct (uti_isFungible unpackedId).
  - destruct (String.eqb (ts_from (ev_data event)) ZERO_ADDRESS);
      [|destruct (String.eqb (ts_to (ev_data event)) ZERO_ADDRESS)];
      cbv [ret]; do 2 eexists; (split; [reflexivity | split; reflexivity]).
  - destruct (getTokenUri_total (ts_id (ev_data event)) m) as (u & m1 & ->).
    destruct (String.eqb (ts_from (ev_data event)) ZERO_ADDRESS);
      [|destruct (String.eqb (ts_to (ev_data event)) ZERO_ADDRESS)];
      cbv [ret]; do 2 eexists; (split; [reflexivity | split; reflexivity]).
Qed.

Lemma transformTransferSingleEvent_both_zero (subName : string)
    (event : Event TransferSingleData) (eventIndex : option nat)
    (m : Machine World) (unpackedId : UnpackedTokenId) (subLocator : string) :
  unpackTokenId codec (ts_id (ev_data event)) = inr unpackedId ->
  sp_poolLocator (unpackSubscriptionName codec subName) = Some subLocator ->
  pl_poolId (unpackPoolLocator codec subLocator) = uti_poolId unpackedId ->
  ts_from (ev_data event) = ZERO_ADDRESS ->
  ts_to (ev_data event) = ZERO_ADDRESS ->
  transformTransferSingleEvent env codec abi subName event eventIndex m =
  (inr None, m).
Proof.
  intros Hid Hsub Hpool Hfrom Hto.
  unfold transformTransferSingleEvent.
  cbv beta iota delta [bind lift].
  rewrite Hid, Hsub, Hpool, Hfrom, Hto, !String.eqb_refl.
  reflexivity.
Qed.

(** C1: for a single-transfer event accepted for the subscribed pool (its
    token id decodes to the pool of the subscription's locator, and it
    carries an integer transaction index), the message is chosen by the
    zero address: both [from] and [to] zero, no message; [from] zero, a
    token-mint; [to] zero, a token-burn; neither, a token-transfer. *)
Theorem transfer_kind_by_zero_address (subName : string)
    (event : Event TransferSingleData) (eventIndex : option nat)
    (m : Machine World) (unpackedId : UnpackedTokenId) (subLocator : string)
    (txIndex : Z) :
  unpackTokenId codec (ts_id (ev_data event)) = inr unpackedId ->
  sp_poolLocator (unpackSubscriptionName codec subName) = Some subLocator ->
  pl_poolId (unpackPoolLocator codec subLocator) = uti_poolId unpackedId ->
  Js.BigInt (ev_transactionIndex event) = Some txIndex ->
  let from := ts_from (ev_data event) in
  let to := ts_to (ev_data event) in
  let result :=
    fst (transformTransferSingleEvent env codec abi subName event eventIndex m) in
  (from = ZERO_ADDRESS -> to = ZERO_ADDRESS -> result = inr None)
  /\ (from = ZERO_ADDRESS -> to <> ZERO_ADDRESS ->
      exists d, result = inr (Some {| msg_event := "token-mint"; msg_data := d |}))
  /\ (from <> ZERO_ADDRESS -> to = ZERO_ADDRESS ->
      exists d, result = inr (Some {| msg_event := "token-burn"; msg_data := d |}))
  /\ (from <> ZERO_ADDRESS -> to <> ZERO_ADDRESS ->
      exists d, result = inr (Some {| msg_event := "token-transfer"; msg_data := d |})).
Proof.
  intros Hid Hsub Hpool Htx from to result.
  assert (Hfmt : exists eventId, formatBlockchainEventId event = inr eventId).
  { unfold formatBlockchainEventId. rewrite Htx. eauto. }
  destruct Hfmt as (eventId & Hfmt).
  assert (Hacc : String.eqb from ZERO_ADDRESS && String.eqb to ZERO_ADDRESS = false ->
                 exists d, result =
                   inr (Some {| msg_event := transferKind from to;
                                msg_data := d |})).
  { intros Hzero.
    destruct (transformTransferSingleEvent_accepted subName event eventIndex m
                unpackedId subLocator eventId Hid Hsub Hpool Hzero Hfmt)
      as (d & m' & Heq & _).
    subst result. rewrite Heq. simpl. eauto. }
  unfold transferKind in Hacc.
  repeat split.
  - intros Hfrom Hto. subst result.
    now rewrite (transformTransferSingleEvent_both_zero subName event eventIndex
                   m unpackedId subLocator).
  - intros Hfrom Hto. apply String.eqb_neq in Hto.
    rewrite Hto, andb_false_r in Hacc. apply String.eqb_eq in Hfrom.
    rewrite Hfrom in Hacc. auto.
  - intros Hfrom Hto. apply String.eqb_neq in Hfrom. apply String.eqb_eq in Hto.
    rewrite Hfrom, Hto in Hacc. auto.
  - intros Hfrom Hto. apply String.eqb_neq in Hfrom. apply String.eqb_neq in Hto.
    rewrite Hfrom, Hto in Hacc. auto.
Qed.

(** Whatever the event, a message of the single-transfer path is a
    transfer message whose id is the provenance id, followed by the
    sub-index when there is one. *)
Lemma transformTransferSingleEvent_some (subName : string)
    (event : Event TransferSingleData) (eventIndex : option nat)
    (m m' : Machine World) (msg : WebSocketMessage) :
  transformTransferSingleEvent env codec abi subName event eventIndex m =
  (inr (Some msg), m') ->
  exists d eventId,
    formatBlockchainEventId event = inr eventId
    /\ msg_data msg = TransferMessage d
    /\ tt_id d = transferIdOf eventId eventIndex.
Proof.
  unfold transformTransferSingleEvent.
  cbv beta iota delta [bind lift].
  destruct (unpackTokenId codec (ts_id (ev_data event))) as [e | uid];
    [discriminate|].
  destruct (sp_poolLocator (unpackSubscriptionName codec subName)) as [loc|];
    [|discriminate].
  destruct (negb _); [discriminate|].
  destruct (_ && _); [discriminate|].
  assert (Huri : exists uri m1,
    (if uti_isFungible uid then ret None
     else fun m0 =>
       let (r, m'0) := getTokenUri env codec abi (ts_id (ev_data event)) m0 in
       match r with
       | inl e => (inl e, m'0)
       | inr a => ret (Some a) m'0
       end) m = (inr uri, m1)).
  { destruct (uti_isFungible uid); [unfold ret; eauto|].
    destruct (getTokenUri_total (ts_id (ev_data event)) m) as (u & m1 & ->).
    unfold ret. eauto. }
  destruct Huri as (uri & m1 & ->).
  destruct (formatBlockchainEventId event) as [e | eventId]; [discriminate|].
  unfold ret.
  destruct (String.eqb (ts_from (ev_data event)) ZERO_ADDRESS);
    [|destruct (String.eqb (ts_to (ev_data event)) ZERO_ADDRESS)];
    intros H; injection H as <- _; do 2 eexists;
    (split; [reflexivity | split; reflexivity]).
Qed.

Lemma skipn_cons_nth {A} (l : list A) (i : nat) (x : A) (r : list A) :
  skipn i l = x :: r -> nth_error l i = Some x /\ skipn (S i) l = r.
Proof.
  revert l. induction i as [|i IH]; intros [|y l] H.
  - discriminate.
  - simpl in H. injection H as -> ->. now split.
  - discriminate.
  - change (skipn (S i) (y :: l)) with (skipn i l) in H.
    change (nth_error (y :: l) (S i)) with (nth_error l i).
    change (skipn (S (S i)) (y :: l)) with (skipn (S i) l).
    now apply IH.
Qed.

(** The loop, started at index [i] with [messages] collected so far, runs
    the single-transfer path over the remaining entries and appends the
    surviving messages. *)
Lemma batchLoop_expansion (subName : string) (event : Event TransferBatchData)
    (ids values : list string) (i : nat) (messages : list WebSocketMessage)
    (m : Machine World) :
  skipn i (tb_ids (ev_data event)) = ids ->
  skipn i (tb_values (ev_data event)) = values ->
  List.length ids = List.length values ->
  batchLoop env codec abi subName event (List.length ids) i messages m =
  bind (singlePathOnEach env codec abi subName event
          (combine (seq i (List.length ids)) (combine ids values)))
       (fun results => ret (messages ++ somes results)%list) m.
Proof.
  revert values i messages m.
  induction ids as [|id ids IH]; intros values i messages m Hids Hvals Hlen.
  - simpl. unfold bind, ret. now rewrite app_nil_r.
  - destruct values as [|value values]; [discriminate|].
    destruct (skipn_cons_nth _ _ _ _ Hids) as [Hid Hids'].
    destruct (skipn_cons_nth _ _ _ _ Hvals) as [Hval Hvals'].
    simpl List.length. simpl batchLoop. rewrite Hid.
    assert (Hentry : batchEntry event id i = entryEvent event id value).
    { unfold batchEntry, entryEvent. now rewrite Hval. }
    rewrite Hentry. simpl seq. simpl combine. simpl singlePathOnEach.
    unfold bind.
    destruct (transformTransferSingleEvent env codec abi subName
                (entryEvent event id value) (Some i) m) as [[e | message] m1];
      [reflexivity|].
    rewrite (IH values (S i)) by (try assumption; simpl in Hlen; lia).
    unfold bind.
    destruct (singlePathOnEach env codec abi subName event _ m1)
      as [[e | results] m2]; [reflexivity|].
    unfold ret. destruct message; simpl somes; [|reflexivity].
    now rewrite <- app_assoc.
Qed.

(** Results of the per-entry run carry the sub-index of their entry. *)
Lemma singlePathOnEach_ids (subName : string) (event : Event TransferBatchData)
    (ids values : list string) (start : nat)
    (m m' : Machine World) (results : list (option WebSocketMessage)) :
  List.length ids = List.length values ->
  singlePathOnEach env codec abi subName event
    (combine (seq start (List.length ids)) (combine ids values)) m
  = (inr results, m') ->
  List.length results = List.length ids
  /\ forall k msg, nth_error results k = Some (Some msg) ->
       exists d eventId,
         formatBlockchainEventId event = inr eventId
         /\ msg_data msg = TransferMessage d
         /\ tt_id d = transferIdOf eventId (Some (start + k)).
Proof.
  revert values start m m' results.
  induction ids as [|id ids IH]; intros values start m m' results Hlen Hrun.
  - simpl in Hrun. injection Hrun as <- _. split; [reflexivity|].
    intros [|k] msg H; discriminate.
  - destruct values as [|value values]; [discriminate|].
    simpl in Hrun. unfold bind at 1 in Hrun.
    destruct (transformTransferSingleEvent env codec abi subName
                (entryEvent event id value) (Some start) m)
      as [[e | message] m1] eqn:Hsingle; [discriminate|].
    unfold bind in Hrun.
    destruct (singlePathOnEach env codec abi subName event _ m1)
      as [[e | rest] m2] eqn:Hrest; [discriminate|].
    unfold ret in Hrun. injection Hrun as <- _.
    destruct (IH values (S start) m1 m2 rest) as [IHlen IHids];
      [simpl in Hlen; lia | exact Hrest |].
    split; [simpl; now rewrite IHlen|].
    intros [|k] msg Hk; simpl in Hk.
    + injection Hk as ->.
      destruct (transformTransferSingleEvent_some _ _ _ _ _ _ Hsingle)
        as (d & eventId & Hfmt & Hd & Hidd).
      exists d, eventId. rewrite Nat.add_0_r. now repeat split.
    + destruct (IHids k msg Hk) as (d & eventId & Hfmt & Hd & Hidd).
      exists d, eventId. rewrite Nat.add_succ_r. now repeat split.
Qed.

(** C3: for a batch event whose [ids] and [values] have the same length
    N, the translator returns what running the single-transfer path on the
    entries [(ids[i], values[i])] with sub-index [i = 0 .. N-1] in
    ascending order returns, with the discarded entries dropped and the
    order of the others kept; and the message that survives from entry [i]
    has the provenance id followed by [/] and [i] zero-padded to six
    digits as its id. *)
Theorem batch_is_single_path_on_each_entry (subName : string)
    (event : Event TransferBatchData) :
  List.length (tb_ids (ev_data event)) = List.length (tb_values (ev_data event)) ->
  (forall m,
     transformTransferBatchEvent env codec abi subName event m =
     batchExpansion env codec abi subName event m)
  /\ (forall m msgs m',
        transformTransferBatchEvent env codec abi subName event m = (inr msgs, m') ->
        exists results,
          List.length results = List.length (tb_ids (ev_data event))
          /\ msgs = somes results
          /\ forall i msg, nth_error results i = Some (Some msg) ->
               exists d eventId,
                 formatBlockchainEventId event = inr eventId
                 /\ msg_data msg = TransferMessage d
                 /\ tt_id d = eventId ++ "/"
                               ++ Js.padStart 6 "0" (Js.toString10 (N.of_nat i))).
Proof.
  intros Hlen.
  assert (Heq : forall m,
    transformTransferBatchEvent env codec abi subName event m =
    batchExpansion env codec abi subName event m).
  { intros m. unfold transformTransferBatchEvent, batchExpansion.
    now rewrite (batchLoop_expansion subName event (tb_ids (ev_data event))
                   (tb_values (ev_data event)) 0 [] m). }
  split; [exact Heq|].
  intros m msgs m' Hrun. rewrite Heq in Hrun.
  unfold batchExpansion, bind in Hrun.
  destruct (singlePathOnEach env codec abi subName event _ m)
    as [[e | results] m1] eqn:Hres; [discriminate|].
  unfold ret in Hrun. injection Hrun as <- _.
  destruct (singlePathOnEach_ids subName event _ _ 0 m m1 results Hlen Hres)
    as [Hl Hids].
  exists results. repeat split; [exact Hl|].
  intros i msg Hi. destruct (Hids i msg Hi) as (d & eventId & Hfmt & Hd & Hidd).
  exists d, eventId. now repeat split.
Qed.


(* ================================================================== *)
(** * Pool creation                                                     *)
(* ================================================================== *)

(** C4: for a pool-creation event (whose type id decodes and whose
    transaction index is an integer), a token-pool message is emitted if
    and only if the subscription is the base subscription or the pool id
    of its locator is the pool id decoded from the type id; otherwise the
    result is no message and no error.  The emitted pool locator is
    [packPoolLocator] of the decoded pool id and the event's block
    number. *)
Theorem pool_creation_acceptance (subName : string)
    (event : Event TokenPoolCreationData) (m : Machine World)
    (unpackedId : UnpackedTokenId) (txIndex : Z) :
  unpackTokenId codec (pc_type_id (ev_data event)) = inr unpackedId ->
  Js.BigInt (ev_transactionIndex event) = Some txIndex ->
  let result :=
    fst (transformTokenPoolCreationEvent env codec abi subName event m) in
  (poolCreationAccepted codec subName unpackedId ->
   exists d,
     result = inr (Some {| msg_event := "token-pool"; msg_data := PoolMessage d |})
     /\ tp_poolLocator d =
        packPoolLocator codec (uti_poolId unpackedId) (ev_blockNumber event))
  /\ (~ poolCreationAccepted codec subName unpackedId -> result = inr None)
  /\ ((exists msg, result = inr (Some msg)) <-> poolCreationAccepted codec subName unpackedId).
Proof.
  intros Hid Htx result.
  assert (Hfmt : exists eventId, formatBlockchainEventId event = inr eventId).
  { unfold formatBlockchainEventId. rewrite Htx. eauto. }
  destruct Hfmt as (eventId & Hfmt).
  assert (Hyes : poolCreationAccepted codec subName unpackedId ->
    exists d,
      result = inr (Some {| msg_event := "token-pool"; msg_data := PoolMessage d |})
      /\ tp_poolLocator d =
         packPoolLocator codec (uti_poolId unpackedId) (ev_blockNumber event)).
  { intros (subLocator & Hsub & Hpool). subst result.
    unfold transformTokenPoolCreationEvent.
    cbv beta iota delta [bind lift].
    rewrite Hid, Hsub.
    assert (Hgate :
      negb (String.eqb (pl_poolId (unpackPoolLocator codec subLocator))
                       BASE_SUBSCRIPTION_NAME)
      && negb (String.eqb (pl_poolId (unpackPoolLocator codec subLocator))
                          (uti_poolId unpackedId)) = false).
    { destruct Hpool as [-> | ->]; rewrite String.eqb_refl; simpl;
        [reflexivity | apply andb_false_r]. }
    rewrite Hgate.
    destruct (isCustomUriSupported_total m) as (b & m1 & ->).
    destruct b.
    - destruct (queryBaseUri_total m1) as (u & m2 & ->).
      unfold ret. rewrite Hfmt. simpl. eexists. split; reflexivity.
    - unfold ret. rewrite Hfmt. simpl. eexists. split; reflexivity. }
  assert (Hno : ~ poolCreationAccepted codec subName unpackedId -> result = inr None).
  { intros Hnot. subst result.
    unfold transformTokenPoolCreationEvent.
    cbv beta iota delta [bind lift].
    rewrite Hid.
    destruct (sp_poolLocator (unpackSubscriptionName codec subName))
      as [subLocator|] eqn:Hsub; [|reflexivity].
    destruct (String.eqb_spec (pl_poolId (unpackPoolLocator codec subLocator))
                BASE_SUBSCRIPTION_NAME) as [Hb | Hb].
    { exfalso. apply Hnot. exists subLocator. auto. }
    destruct (String.eqb_spec (pl_poolId (unpackPoolLocator codec subLocator))
                (uti_poolId unpackedId)) as [Hp | Hp].
    { exfalso. apply Hnot. exists subLocator. auto. }
    reflexivity. }
  split; [exact Hyes | split; [exact Hno|]].
  split.
  - intros (msg & Hmsg).
    destruct (sp_poolLocator (unpackSubscriptionName codec subName))
      as [subLocator|] eqn:Hsub.
    + destruct (String.eqb_spec (pl_poolId (unpackPoolLocator codec subLocator))
                  BASE_SUBSCRIPTION_NAME) as [Hb | Hb].
      { exists subLocator. auto. }
      destruct (String.eqb_spec (pl_poolId (unpackPoolLocator codec subLocator))
                  (uti_poolId unpackedId)) as [Hp | Hp].
      { exists subLocator. auto. }
      rewrite Hno in Hmsg; [discriminate|].
      intros (l & Hl & Hor). rewrite Hsub in Hl. injection Hl as <-.
      destruct Hor; contradiction.
    + rewrite Hno in Hmsg; [discriminate|].
      intros (l & Hl & _). rewrite Hsub in Hl. discriminate.
  - intros Hacc. destruct (Hyes Hacc) as (d & Hd & _). eauto.
Qed.

(* ================================================================== *)
(** * Subscriptions without a pool locator                              *)
(* ================================================================== *)

Lemma skipn_nth_error {A} (l : list A) (i : nat) :
  skipn i l = match nth_error l i with
              | Some x => x :: skipn (S i) l
              | None => []
              end.
Proof.
  revert l. induction i as [|i IH]; intros [|y l]; try reflexivity.
  change (skipn (S i) (y :: l)) with (skipn i l).
  change (nth_error (y :: l) (S i)) with (nth_error l i).
  change (skipn (S (S i)) (y :: l)) with (skipn (S i) l).
  apply IH.
Qed.

(** C10 (amended): when the name of the delivering subscription decodes
    to no pool locator, no transformation produces a message, and nothing
    is asked of the contract; but the token id is decoded before the
    locator is looked at.  The pool-creation and single-transfer paths
    return nothing when the token id decodes and throw the decoder's failure
    when it does not; the batch path returns the empty list when every id
    decodes and throws the failure of the first id that does not; the
    approval path, which decodes no id, returns nothing. *)
Theorem no_pool_locator_no_message (subName : string) :
  sp_poolLocator (unpackSubscriptionName codec subName) = None ->
  (forall (event : Event TokenPoolCreationData) m,
     transformTokenPoolCreationEvent env codec abi subName event m
     = (match unpackTokenId codec (pc_type_id (ev_data event)) with
        | inl e => inl e
        | inr _ => inr None
        end, m))
  /\ (forall (event : Event TransferSingleData) eventIndex m,
        transformTransferSingleEvent env codec abi subName event eventIndex m
        = (match unpackTokenId codec (ts_id (ev_data event)) with
           | inl e => inl e
           | inr _ => inr None
           end, m))
  /\ (forall (event : Event TransferBatchData) m,
        transformTransferBatchEvent env codec abi subName event m
        = (match firstRejected codec (tb_ids (ev_data event)) with
           | Some e => inl e
           | None => inr []
           end, m))
  /\ (forall (event : Event ApprovalForAllData),
        transformApprovalForAllEvent codec subName event = inr None)
  /\ (forall (event : Event TokenPoolCreationData) m msg,
        fst (transformTokenPoolCreationEvent env codec abi subName event m)
        <> inr (Some msg))
  /\ (forall (event : Event TransferSingleData) eventIndex m msg,
        fst (transformTransferSingleEvent env codec abi subName event eventIndex m)
        <> inr (Some msg))
  /\ (forall (event : Event TransferBatchData) m msgs,
        fst (transformTransferBatchEvent env codec abi subName event m) = inr msgs ->
        msgs = []).
Proof.
  intros Hsub.
  assert (Hsingle : forall (event : Event TransferSingleData) eventIndex m,
    transformTransferSingleEvent env codec abi subName event eventIndex m =
    (match unpackTokenId codec (ts_id (ev_data event)) with
     | inl e => inl e
     | inr _ => inr None
     end, m)).
  { intros event eventIndex m.
    unfold transformTransferSingleEvent.
    cbv beta iota delta [bind lift].
    destruct (unpackTokenId codec (ts_id (ev_data event))); [reflexivity|].
    now rewrite Hsub. }
  assert (Hpool : forall (event : Event TokenPoolCreationData) m,
    transformTokenPoolCreationEvent env codec abi subName event m =
    (match unpackTokenId codec (pc_type_id (ev_data event)) with
     | inl e => inl e
     | inr _ => inr None
     end, m)).
  { intros event m.
    unfold transformTokenPoolCreationEvent.
    cbv beta iota delta [bind lift].
    destruct (unpackTokenId codec (pc_type_id (ev_data event))); [reflexivity|].
    now rewrite Hsub. }
  assert (Hloop : forall (event : Event TransferBatchData) m fuel i,
    (List.length (tb_ids (ev_data event)) <= i + fuel)%nat ->
    batchLoop env codec abi subName event fuel i [] m
    = (match firstRejected codec (skipn i (tb_ids (ev_data event))) with
       | Some e => inl e
       | None => inr []
       end, m)).
  { intros event m. induction fuel as [|fuel IH]; intros i Hlen.
    - rewrite skipn_all2 by lia. reflexivity.
    - cbn [batchLoop]. rewrite skipn_nth_error.
      destruct (nth_error (tb_ids (ev_data event)) i) as [id|];
        [|reflexivity].
      cbn [firstRejected]. unfold bind. rewrite Hsingle. simpl ts_id.
      destruct (unpackTokenId codec id) as [e | uid]; [reflexivity|].
      apply IH. lia. }
  assert (Hbatch : forall (event : Event TransferBatchData) m,
    transformTransferBatchEvent env codec abi subName event m
    = (match firstRejected codec (tb_ids (ev_data event)) with
       | Some e => inl e
       | None => inr []
       end, m)).
  { intros event m. unfold transformTransferBatchEvent.
    now rewrite Hloop by lia. }
  repeat split.
  - exact Hpool.
  - exact Hsingle.
  - exact Hbatch.
  - intros event. unfold transformApprovalForAllEvent. now rewrite Hsub.
  - intros event m msg. rewrite Hpool. simpl.
    destruct (unpackTokenId codec (pc_type_id (ev_data event))); discriminate.
  - intros event eventIndex m msg. rewrite Hsingle. simpl.
    destruct (unpackTokenId codec (ts_id (ev_data event))); discriminate.
  - intros event m msgs. rewrite Hbatch. simpl.
    destruct (firstRejected codec (tb_ids (ev_data event))); [discriminate|].
    intros H. now injection H as <-.
Qed.

End Listener.

(* ================================================================== *)
(** * Contract queries                                                  *)
(* ================================================================== *)

(** Case analysis on every scrutinee of the goal. *)
Ltac break_matches :=
  repeat (match goal with
          | |- context [match ?x with _ => _ end] =>
              lazymatch x with
              | context [match _ with _ => _ end] => fail
              | _ => destruct x eqn:?
              end
          end; simpl).

(** The calls added to a trace, read off the goal. *)
Ltac solve_calls tac :=
  first
    [ exists []; split; [now rewrite app_nil_r | tac]
    | eexists; split; [reflexivity | tac]
    | eexists; split; [rewrite <- app_assoc; reflexivity | tac] ].

Section Queries.

Context {World : Type}.
Variable env : Env World.
Variable codec : Codec.
Variable abi : list IAbiMethod.

(** [query] issues at most one POST, after at most one GET for the
    contract address. *)
Lemma query_calls (method : option IAbiMethod) (params : list string)
    (m : Machine World) :
  exists calls,
    trace (snd (query env method params m)) = (trace m ++ calls)%list
    /\ posts calls <= 1.
Proof.
  unfold query, getContractAddress, wrapError.
  cbv beta iota delta [bind getService tryCatch call logger modifyService ret throw].
  break_matches; solve_calls ltac:(unfold posts; simpl; lia).
Qed.

(** A cached answer is returned as it is: no call, no change. *)
Lemma isCustomUriSupported_cached (b : bool) (m : Machine World) :
  supportsCustomUri (svc m) = Some b ->
  isCustomUriSupported env abi m = (inr b, m).
Proof.
  intros H. unfold isCustomUriSupported.
  cbv beta iota delta [bind getService ret]. rewrite H. simpl. now rewrite H.
Qed.

(** C8: the probe for custom-URI support is lazy and memoized.  With
    nothing cached, a call runs the capability query once (its effects on
    the outside world are those of one [query], which issues at most one
    POST), answers [true] exactly when the query succeeded with output
    [true] and [false] otherwise, failure included, and caches the answer;
    from then on every call returns the cached answer without any call
    to the outside.  In particular a failed first query is not retried. *)
Theorem custom_uri_probe_memoized (m : Machine World) :
  supportsCustomUri (svc m) = None ->
  let q := query env (abi_find abi "supportsInterface") [CUSTOM_URI_IID] m in
  let b := match fst q with
           | inr r => match ecr_output r with JBool true => true | _ => false end
           | inl _ => false
           end in
  exists m1 calls,
    isCustomUriSupported env abi m = (inr b, m1)
    /\ world m1 = world (snd q)
    /\ trace m1 = trace (snd q)
    /\ trace m1 = (trace m ++ calls)%list /\ posts calls <= 1
    /\ supportsCustomUri (svc m1) = Some b
    /\ isCustomUriSupported env abi m1 = (inr b, m1)
    /\ forall m2, supportsCustomUri (svc m2) = Some b ->
                  isCustomUriSupported env abi m2 = (inr b, m2).
Proof.
  intros Hnone q b.
  destruct (query_calls (abi_find abi "supportsInterface") [CUSTOM_URI_IID] m)
    as (calls & Hcalls & Hposts).
  fold q in Hcalls.
  assert (Hrun : exists m1,
    isCustomUriSupported env abi m = (inr b, m1)
    /\ world m1 = world (snd q) /\ trace m1 = trace (snd q)
    /\ supportsCustomUri (svc m1) = Some b).
  { subst b. unfold isCustomUriSupported.
    cbv beta iota delta [bind getService tryCatch logger modifyService ret].
    rewrite Hnone. fold q.
    destruct q as [[e | r] mq]; simpl; eexists; repeat split. }
  destruct Hrun as (m1 & Hrun & Hw & Ht & Hc).
  exists m1, calls. repeat split; try assumption.
  - now rewrite Ht.
  - now apply isCustomUriSupported_cached.
  - intros m2. apply isCustomUriSupported_cached.
Qed.


End Queries.

(* ================================================================== *)
(** * The map of found events                                           *)
(* ================================================================== *)

Lemma map_get_push (k key ev : string) (found : EventsMap) :
  map_get k (map_push key ev found) =
  if String.eqb key k
  then option_map (fun v => (v ++ [ev])%list) (map_get k found)
  else map_get k found.
Proof.
  induction found as [|[k0 v] rest IH]; simpl.
  - now destruct (String.eqb key k).
  - destruct (String.eqb_spec k0 key) as [-> | Hne]; simpl.
    + destruct (String.eqb key k); reflexivity.
    + rewrite IH. destruct (String.eqb_spec k0 k) as [-> | Hne'].
      * destruct (String.eqb_spec key k) as [-> | _]; [contradiction | reflexivity].
      * reflexivity.
Qed.

Lemma map_get_set (k key : string) (v : list string) (found : EventsMap) :
  map_get k (map_set key v found) =
  match map_get k found with
  | Some x => Some x
  | None => if String.eqb key k then Some v else None
  end.
Proof.
  unfold map_set. induction found as [|[k0 v0] rest IH]; simpl.
  - reflexivity.
  - destruct (String.eqb k0 k); [reflexivity | exact IH].
Qed.

Lemma map_fst_push (key ev : string) (found : EventsMap) :
  map fst (map_push key ev found) = map fst found.
Proof.
  induction found as [|[k0 v] rest IH]; simpl; [reflexivity|].
  destruct (String.eqb k0 key); simpl; [reflexivity | now rewrite IH].
Qed.

Lemma map_get_None (k : string) (found : EventsMap) :
  map_get k found = None -> ~ In k (map fst found).
Proof.
  induction found as [|[k0 v] rest IH]; simpl; [tauto|].
  destruct (String.eqb_spec k0 k) as [-> | Hne]; [discriminate|].
  intros H [Heq | Hin]; [contradiction | now apply IH].
Qed.

Lemma map_get_In (k : string) (evs : list string) (found : EventsMap) :
  map_get k found = Some evs -> In (k, evs) found.
Proof.
  induction found as [|[k0 v] rest IH]; simpl; [discriminate|].
  destruct (String.eqb_spec k0 k) as [-> | Hne].
  - intros H. injection H as ->. now left.
  - intros H. right. now apply IH.
Qed.

Lemma In_map_get (k : string) (evs : list string) (found : EventsMap) :
  NoDup (map fst found) -> In (k, evs) found -> map_get k found = Some evs.
Proof.
  induction found as [|[k0 v] rest IH]; simpl; [tauto|].
  intros Hnd [Heq | Hin].
  - injection Heq as -> ->. now rewrite String.eqb_refl.
  - inversion Hnd as [|? ? Hnotin Hnd']; subst.
    destruct (String.eqb_spec k0 k) as [-> | Hne].
    + exfalso. apply Hnotin. now apply (in_map fst) in Hin.
    + now apply IH.
Qed.

Lemma groupEvents_cons (k key event : string) (rest : list (string * string)) :
  groupEvents k ((key, event) :: rest) =
  if String.eqb key k then event :: groupEvents k rest else groupEvents k rest.
Proof.
  unfold groupEvents. simpl. now destruct (String.eqb key k).
Qed.

(** Under each key, the map built by the loop holds the event names of
    that key, in order of appearance. *)
Lemma addAll_get (pairs : list (string * string)) (found : EventsMap)
    (k : string) :
  map_get k (addAll pairs found) =
  match map_get k found with
  | Some evs => Some (evs ++ groupEvents k pairs)%list
  | None =>
      match groupEvents k pairs with
      | [] => None
      | g => Some g
      end
  end.
Proof.
  revert found. induction pairs as [|[key event] rest IH]; intros found.
  - simpl. destruct (map_get k found); [now rewrite app_nil_r | reflexivity].
  - simpl addAll. rewrite IH, groupEvents_cons.
    destruct (map_get key found) as [old|] eqn:Hkey.
    + rewrite map_get_push.
      destruct (String.eqb_spec key k) as [-> | Hne]; [|reflexivity].
      rewrite Hkey. simpl. now rewrite <- app_assoc.
    + rewrite map_get_set.
      destruct (String.eqb_spec key k) as [-> | Hne].
      * rewrite Hkey. reflexivity.
      * destruct (map_get k found); reflexivity.
Qed.

Lemma addAll_NoDup (pairs : list (string * string)) (found : EventsMap) :
  NoDup (map fst found) -> NoDup (map fst (addAll pairs found)).
Proof.
  revert found. induction pairs as [|[key event] rest IH]; intros found Hnd;
    [exact Hnd|].
  simpl. apply IH.
  destruct (map_get key found) eqn:Hkey.
  - now rewrite map_fst_push.
  - unfold map_set. rewrite map_app. simpl.
    apply NoDup_app; [exact Hnd | repeat constructor; intros [] |].
    intros x Hx [<- | []]. now apply (map_get_None _ _ Hkey).
Qed.

Lemma groupEvents_nonempty (k : string) (pairs : list (string * string)) :
  groupEvents k pairs <> [] <-> In k (map fst pairs).
Proof.
  induction pairs as [|[key event] rest IH].
  - simpl. tauto.
  - rewrite groupEvents_cons. simpl.
    destruct (String.eqb_spec key k) as [-> | Hne].
    + split; [now left | discriminate].
    + rewrite IH. split; [now right | intros [H | H]; [contradiction | exact H]].
Qed.

(* ================================================================== *)
(** * The expected events                                               *)
(* ================================================================== *)

Lemma array_includes_In (x : string) (l : list string) :
  array_includes x l = true <-> In x l.
Proof.
  unfold array_includes. rewrite existsb_exists. split.
  - intros (y & Hin & Heq). apply String.eqb_eq in Heq. now subst.
  - intros Hin. exists x. split; [exact Hin | apply String.eqb_refl].
Qed.

Lemma ALL_SUBSCRIBED_EVENTS_NoDup : NoDup ALL_SUBSCRIBED_EVENTS.
Proof.
  unfold ALL_SUBSCRIBED_EVENTS.
  repeat (constructor; [simpl; intuition discriminate|]). constructor.
Qed.

(** The test of the second loop holds exactly when the events of the group
    are the expected ones, each once, in any order. *)
Lemma events_mismatch_false (events : list string) :
  events_mismatch events = false <-> Permutation events ALL_SUBSCRIBED_EVENTS.
Proof.
  unfold events_mismatch. rewrite orb_false_iff, !negb_false_iff.
  rewrite Nat.eqb_eq, forallb_forall. split.
  - intros [Hlen Hincl]. symmetry.
    apply NoDup_Permutation_bis.
    + apply ALL_SUBSCRIBED_EVENTS_NoDup.
    + rewrite Hlen. apply le_n.
    + intros x Hx. apply array_includes_In. now apply Hincl.
  - intros Hperm. split.
    + symmetry. now apply Permutation_length.
    + intros x Hx. apply array_includes_In.
      apply Permutation_in with (l := ALL_SUBSCRIBED_EVENTS);
        [now symmetry | exact Hx].
Qed.

(* ================================================================== *)
(** * The migration check                                               *)
(* ================================================================== *)

Section Reconciliation.

Context {World : Type}.
Variable env : Env World.
Variable codec : Codec.
Variable abi : list IAbiMethod.

(** Both loops only write log lines and never throw. *)
Lemma collectEvents_frame (streamName baseSubscription : string)
    (subscriptions : list EventStreamSubscription) (foundEvents : EventsMap)
    (m : Machine World) :
  let r := collectEvents codec streamName baseSubscription subscriptions
             foundEvents m in
  world (snd r) = world m
  /\ trace (snd r) = trace m
  /\ forget_logs (svc (snd r)) = forget_logs (svc m)
  /\ exists x, fst r = inr x.
Proof.
  revert foundEvents m.
  induction subscriptions as [|sub rest IH]; intros foundEvents m; simpl.
  - repeat split. eauto.
  - destruct (String.eqb (sub_name sub) baseSubscription); [apply IH|].
    destruct (sp_poolLocator (unpackSubscriptionName codec (sub_name sub)));
      [destruct (sp_event (unpackSubscriptionName codec (sub_name sub)));
       [destruct (map_get _ foundEvents); apply IH|]|];
      cbv [bind logger modifyService ret]; simpl; repeat split; eauto.
Qed.

Lemma checkEvents_frame (foundEvents : EventsMap) (m : Machine World) :
  let r := checkEvents codec foundEvents m in
  world (snd r) = world m
  /\ trace (snd r) = trace m
  /\ forget_logs (svc (snd r)) = forget_logs (svc m)
  /\ fst r = inr (existsb (fun kv => events_mismatch (snd kv)) foundEvents).
Proof.
  revert m. induction foundEvents as [|[key events] rest IH]; intros m; simpl.
  - repeat split.
  - destruct (events_mismatch events); [|apply IH].
    cbv [bind logger modifyService ret]; simpl. repeat split.
Qed.

(** The part after the stream is found: one listing of the subscriptions,
    the stream handle cached, log lines. *)
Lemma checkStream_frame (existingStream : EventStream) (m : Machine World) :
  let r := checkStream env codec existingStream m in
  world (snd r) = snd (getSubscriptions env (world m))
  /\ trace (snd r) = (trace m ++ [CGetSubscriptions])%list
  /\ forget_logs (svc (snd r)) = forget_logs (set_stream existingStream (svc m)).
Proof.
  unfold checkStream.
  cbv beta iota delta [bind modifyService call getService ret].
  cbn [svc world trace].
  destruct (getSubscriptions env (world m)) as [[e | allSubscriptions] w];
    [cbn [fst snd svc world trace]; repeat split|].
  destruct (filter _ allSubscriptions) as [|sub subs];
    [cbn [fst snd svc world trace]; repeat split|].
  cbv beta iota. generalize (sub :: subs). intros subscriptions.
  match goal with
  | |- context [collectEvents codec ?sn ?b ?l ?f ?m0] =>
      destruct (collectEvents_frame sn b l f m0) as (Hw & Ht & Hs & x & Hx);
      destruct (collectEvents codec sn b l f m0) as [r1 m1]
  end.
  simpl in *. subst r1. destruct x as [foundEvents|]; simpl.
  - destruct (checkEvents_frame foundEvents m1) as (Hw' & Ht' & Hs' & _).
    rewrite Hw', Ht', Hs', Hw, Ht, Hs. repeat split.
  - rewrite Hw, Ht, Hs. repeat split.
Qed.

(** C9: [migrationCheck] only observes.  Its calls to the outside are the
    listing of the streams, followed (when a stream is found) by the
    listing of the subscriptions, and nothing else: no stream or
    subscription is created, updated or deleted, so whatever the listings
    leave unchanged in the outside world ([dir], the directory of streams
    and subscriptions) is unchanged by the check.  In the service, apart
    from log lines, at most the stream handle changes, to a stream found in
    the listing. *)
Theorem migrationCheck_read_only {D : Type} (dir : World -> D)
    (m : Machine World) :
  (forall w, dir (snd (getStreams env w)) = dir w) ->
  (forall w, dir (snd (getSubscriptions env w)) = dir w) ->
  let m' := snd (migrationCheck env codec m) in
  (exists calls,
     trace m' = (trace m ++ calls)%list
     /\ (calls = [CGetStreams] \/ calls = [CGetStreams; CGetSubscriptions])
     /\ Forall is_list_call calls)
  /\ dir (world m') = dir (world m)
  /\ (forget_logs (svc m') = forget_logs (svc m)
      \/ exists st streams w,
           getStreams env (world m) = (inr streams, w)
           /\ In st streams
           /\ forget_logs (svc m') = forget_logs (set_stream st (svc m))).
Proof.
  intros Hstreams Hsubs m'. subst m'.
  assert (Hlist1 : Forall is_list_call [CGetStreams]).
  { constructor; [left; reflexivity | constructor]. }
  assert (Hlist2 : Forall is_list_call [CGetStreams; CGetSubscriptions]).
  { constructor; [left; reflexivity|].
    constructor; [right; reflexivity | constructor]. }
  unfold migrationCheck.
  cbv beta iota delta [bind getService call logger modifyService ret].
  cbn [svc world trace].
  pose proof (Hstreams (world m)) as Hdir1.
  destruct (getStreams env (world m)) as [[e | streams] w] eqn:Hget;
    cbn [fst snd svc world trace] in *.
  { split; [exists [CGetStreams]; auto|]. split; [assumption | left; reflexivity]. }
  assert (Hfound : forall st m0,
    In st streams ->
    world m0 = w -> trace m0 = (trace m ++ [CGetStreams])%list ->
    forget_logs (svc m0) = forget_logs (svc m) ->
    let m' := snd (checkStream env codec st m0) in
    (exists calls,
       trace m' = (trace m ++ calls)%list
       /\ (calls = [CGetStreams] \/ calls = [CGetStreams; CGetSubscriptions])
       /\ Forall is_list_call calls)
    /\ dir (world m') = dir (world m)
    /\ (forget_logs (svc m') = forget_logs (svc m)
        \/ exists st streams0 w0,
             ((inr streams : Result (list EventStream)), w) = (inr streams0, w0)
             /\ In st streams0
             /\ forget_logs (svc m') = forget_logs (set_stream st (svc m)))).
  { intros st m0 Hin Hw Ht Hs.
    destruct (checkStream_frame st m0) as (Hw' & Ht' & Hs'). cbv zeta.
    split; [|split].
    - exists [CGetStreams; CGetSubscriptions].
      rewrite Ht', Ht, <- app_assoc. auto.
    - rewrite Hw', Hsubs, Hw. exact Hdir1.
    - right. exists st, streams, w. repeat split; [exact Hin|].
      rewrite Hs'. unfold forget_logs in *. simpl.
      injection Hs as -> -> -> -> -> ->. reflexivity. }
  destruct (find_stream _ streams) as [st|] eqn:Hfind.
  - apply Hfound; try reflexivity.
    apply (find_some _ _ Hfind).
  - destruct (find_stream (topic (svc m)) streams) as [st|] eqn:Hfind'.
    + apply Hfound; try reflexivity.
      apply (find_some _ _ Hfind').
    + cbn [fst snd svc world trace].
      split; [exists [CGetStreams]; auto|]. split; [assumption | left; reflexivity].
Qed.

(** When every name decodes, the first loop builds the map of the decoded
    pairs and writes nothing. *)
Lemma collectEvents_decoded (streamName baseSubscription : string)
    (subscriptions : list EventStreamSubscription)
    (pairs : list (string * string)) (foundEvents : EventsMap)
    (m : Machine World) :
  decodeSubscriptions codec baseSubscription subscriptions = Some pairs ->
  collectEvents codec streamName baseSubscription subscriptions foundEvents m
  = (inr (Some (addAll pairs foundEvents)), m).
Proof.
  revert pairs foundEvents.
  induction subscriptions as [|sub rest IH]; intros pairs foundEvents Hdec;
    simpl in *.
  - injection Hdec as <-. reflexivity.
  - destruct (String.eqb (sub_name sub) baseSubscription); [now apply IH|].
    destruct (sp_poolLocator (unpackSubscriptionName codec (sub_name sub)))
      as [poolLocator|]; [|discriminate].
    destruct (sp_event (unpackSubscriptionName codec (sub_name sub)))
      as [event|]; [|discriminate].
    destruct (decodeSubscriptions codec baseSubscription rest) as [rest'|];
      [|discriminate].
    injection Hdec as <-. simpl addAll. unfold poolKey.
    destruct (map_get _ foundEvents); now apply IH.
Qed.

Lemma checkStream_decoded (existingStream : EventStream) (m : Machine World)
    (allSubscriptions : list EventStreamSubscription) (w : World)
    (pairs : list (string * string)) :
  getSubscriptions env (world m) = (inr allSubscriptions, w) ->
  decodeSubscriptions codec (baseSubscriptionName codec (svc m))
    (subscriptionsOf existingStream allSubscriptions) = Some pairs ->
  fst (checkStream env codec existingStream m) =
  inr (existsb (fun kv => events_mismatch (snd kv)) (addAll pairs [])).
Proof.
  intros Hget Hdec. unfold checkStream.
  cbv beta iota delta [bind modifyService call getService ret].
  cbn [svc world trace]. rewrite Hget.
  unfold subscriptionsOf in Hdec.
  destruct (filter _ allSubscriptions) as [|sub subs].
  - simpl in Hdec. injection Hdec as <-. reflexivity.
  - cbv beta iota. revert Hdec. generalize (sub :: subs). intros subscriptions Hdec.
    unfold baseSubscriptionName in Hdec.
    change (instancePath (set_stream existingStream (svc m)))
      with (instancePath (svc m)).
    rewrite (collectEvents_decoded _ _ _ pairs) by exact Hdec.
    apply checkEvents_frame.
Qed.

(** C5 (amended): when a stream is adopted and every subscription on it
    other than the base one decodes, [migrationCheck] groups the event
    names by pool key (instance path, pool locator and pool data, without
    the event name) and answers [true] exactly when the names of some group
    are not the four expected ones, each once, in any order; it answers
    [false] when every group is such a rearrangement.  A name missing,
    foreign or repeated in a group is a mismatch. *)
Theorem migrationCheck_by_group (m : Machine World)
    (streams : list EventStream) (w1 w2 : World) (st : EventStream)
    (allSubscriptions : list EventStreamSubscription)
    (pairs : list (string * string)) :
  getStreams env (world m) = (inr streams, w1) ->
  adoptedStream codec (svc m) streams = Some st ->
  getSubscriptions env w1 = (inr allSubscriptions, w2) ->
  decodeSubscriptions codec (baseSubscriptionName codec (svc m))
    (subscriptionsOf st allSubscriptions) = Some pairs ->
  exists b,
    fst (migrationCheck env codec m) = inr b
    /\ (b = true <->
        exists key, In key (map fst pairs)
                    /\ ~ Permutation (groupEvents key pairs) ALL_SUBSCRIBED_EVENTS)
    /\ (b = false <->
        forall key, In key (map fst pairs) ->
                    Permutation (groupEvents key pairs) ALL_SUBSCRIBED_EVENTS).
Proof.
  intros Hstreams Hadopt Hsubs Hdec.
  set (found := addAll pairs []).
  assert (Hrun : fst (migrationCheck env codec m) =
                 inr (existsb (fun kv => events_mismatch (snd kv)) found)).
  { unfold migrationCheck.
    cbv beta iota delta [bind getService call logger modifyService ret].
    cbn [svc world trace]. rewrite Hstreams.
    unfold adoptedStream in Hadopt.
    destruct (find_stream _ streams) as [st'|].
    - injection Hadopt as ->.
      now apply (checkStream_decoded st _ allSubscriptions w2 pairs).
    - rewrite Hadopt.
      now apply (checkStream_decoded st _ allSubscriptions w2 pairs). }
  assert (Hget : forall k, map_get k found =
                           match groupEvents k pairs with
                           | [] => None
                           | g => Some g
                           end).
  { intros k. unfold found. now rewrite addAll_get. }
  assert (Hnd : NoDup (map fst found)).
  { apply addAll_NoDup. constructor. }
  assert (Htrue :
    existsb (fun kv => events_mismatch (snd kv)) found = true <->
    exists key, In key (map fst pairs)
                /\ ~ Permutation (groupEvents key pairs) ALL_SUBSCRIBED_EVENTS).
  { rewrite existsb_exists. split.
    - intros ([key events] & Hin & Hmis). simpl in Hmis.
      apply (In_map_get _ _ _ Hnd) in Hin. rewrite Hget in Hin.
      exists key. destruct (groupEvents key pairs) as [|e g] eqn:Hg;
        [discriminate|].
      injection Hin as <-. split.
      + apply groupEvents_nonempty. rewrite Hg. discriminate.
      + intros Hperm. apply events_mismatch_false in Hperm. congruence.
    - intros (key & Hin & Hnperm).
      apply groupEvents_nonempty in Hin.
      exists (key, groupEvents key pairs). split.
      + apply map_get_In. rewrite Hget.
        destruct (groupEvents key pairs); [contradiction | reflexivity].
      + simpl. destruct (events_mismatch (groupEvents key pairs)) eqn:Hmis;
          [reflexivity|].
        exfalso. apply Hnperm. now apply events_mismatch_false. }
  exists (existsb (fun kv => events_mismatch (snd kv)) found).
  split; [exact Hrun|]. split; [exact Htrue|].
  split.
  - intros Hfalse key Hin.
    destruct (events_mismatch (groupEvents key pairs)) eqn:Hmis.
    + exfalso. assert (Hex : existsb (fun kv => events_mismatch (snd kv)) found = true).
      { apply Htrue. exists key. split; [exact Hin|].
        intros Hperm. apply events_mismatch_false in Hperm. congruence. }
      congruence.
    + now apply events_mismatch_false.
  - intros Hall.
    destruct (existsb (fun kv => events_mismatch (snd kv)) found) eqn:Hex;
      [|reflexivity].
    destruct (proj1 Htrue eq_refl) as (key & Hin & Hnperm).
    exfalso. apply Hnperm. now apply Hall.
Qed.

End Reconciliation.

(* ================================================================== *)
(** * Pool activation                                                   *)
(* ================================================================== *)

Section Activation.

Context {World : Type}.
Variable env : Env World.
Variable codec : Codec.
Variable abi : list IAbiMethod.

(** C6: once the stream and the contract address are resolved (and the
    ABI has the five entries looked up), [activatePool] issues four
    create-or-reuse calls, one per tracked event, all of them before any
    result is awaited.  The pool-creation, single-transfer and
    batch-transfer subscriptions start from the block number of the pool
    locator, ["0"] when it has none; the approval subscription always
    starts from block ["0"]. *)
Theorem activatePool_subscriptions (dto : TokenPoolActivate)
    (m m1 m2 : Machine World) (strm : EventStream) (address : string)
    (a1 a2 a3 a4 a5 : IAbiMethod) :
  abi_find abi tokenCreateEvent = Some a1 ->
  abi_find abi tokenCreateFunctionName = Some a2 ->
  abi_find abi transferSingleEvent = Some a3 ->
  abi_find abi transferBatchEvent = Some a4 ->
  abi_find abi approvalForAllEvent = Some a5 ->
  getStream env codec m = (inr strm, m1) ->
  getContractAddress env m1 = (inr address, m2) ->
  let seed :=
    Js.nullish (pl_blockNumber (unpackPoolLocator codec (tpa_poolLocator dto))) "0" in
  let name event :=
    packSubscriptionName codec (instancePath (svc m1)) (tpa_poolLocator dto)
      event (tpa_poolData dto) in
  exists r1 r2 r3 r4,
    trace (snd (activatePool env codec abi dto m)) =
    (trace m2 ++ [CGetOrCreateSubscription r1; CGetOrCreateSubscription r2;
                  CGetOrCreateSubscription r3; CGetOrCreateSubscription r4])%list
    /\ (sr_event r1 = tokenCreateEvent /\ sr_name r1 = name tokenCreateEvent
        /\ sr_streamId r1 = es_id strm /\ sr_fromBlock r1 = seed)
    /\ (sr_event r2 = transferSingleEvent /\ sr_name r2 = name transferSingleEvent
        /\ sr_streamId r2 = es_id strm /\ sr_fromBlock r2 = seed)
    /\ (sr_event r3 = transferBatchEvent /\ sr_name r3 = name transferBatchEvent
        /\ sr_streamId r3 = es_id strm /\ sr_fromBlock r3 = seed)
    /\ (sr_event r4 = approvalForAllEvent /\ sr_name r4 = name approvalForAllEvent
        /\ sr_streamId r4 = es_id strm /\ sr_fromBlock r4 = "0").
Proof.
  intros H1 H2 H3 H4 H5 Hstream Haddress seed name.
  unfold activatePool.
  cbv beta iota delta [bind getService ret].
  rewrite Hstream, H1, H2, H3, H4, H5, Haddress.
  unfold promiseAll, settleAll, subscribe, call.
  cbn [svc world trace].
  do 4 eexists. split.
  { break_matches; rewrite <- !app_assoc; reflexivity. }
  repeat split.
Qed.

End Activation.


(* ================================================================== *)
(** * Runs on the concrete codec and world                              *)
(* ================================================================== *)

Lemma transfer_kind_by_zero_address_witness :
  exists d,
    fst (transformTransferSingleEvent Sample.env Sample.codec Sample.abi
           (Sample.subF1 transferSingleEvent) Sample.mintEvent None
           (Sample.start Sample.world_down))
    = inr (Some {| msg_event := "token-mint"; msg_data := d |}).
Proof.
  destruct (transfer_kind_by_zero_address Sample.env Sample.codec Sample.abi
              (Sample.subF1 transferSingleEvent) Sample.mintEvent None
              (Sample.start Sample.world_down) Sample.unpackedF1
              Sample.locatorF1 1%Z)
    as (_ & Hmint & _); try reflexivity.
  apply Hmint; [reflexivity | discriminate].
Defined.

Lemma batch_is_single_path_on_each_entry_witness :
  transformTransferBatchEvent Sample.env Sample.codec Sample.abi
    (Sample.subF1 transferBatchEvent) Sample.batchEvent
    (Sample.start Sample.world_down)
  = batchExpansion Sample.env Sample.codec Sample.abi
      (Sample.subF1 transferBatchEvent) Sample.batchEvent
      (Sample.start Sample.world_down).
Proof.
  exact (proj1 (batch_is_single_path_on_each_entry Sample.env Sample.codec
                  Sample.abi (Sample.subF1 transferBatchEvent)
                  Sample.batchEvent eq_refl)
               (Sample.start Sample.world_down)).
Defined.

Lemma pool_creation_acceptance_witness :
  exists d,
    fst (transformTokenPoolCreationEvent Sample.env Sample.codec Sample.abi
           Sample.baseSub Sample.createEvent (Sample.start Sample.world_down))
    = inr (Some {| msg_event := "token-pool"; msg_data := PoolMessage d |})
    /\ tp_poolLocator d = "id=F1&block=5".
Proof.
  destruct (pool_creation_acceptance Sample.env Sample.codec Sample.abi
              Sample.baseSub Sample.createEvent (Sample.start Sample.world_down)
              Sample.unpackedF1 1%Z eq_refl eq_refl) as (Hyes & _).
  destruct Hyes as (d & Hd & Hloc).
  - exists "base". split; [reflexivity | left; reflexivity].
  - exists d. split; [exact Hd | exact Hloc].
Defined.

Lemma migrationCheck_by_group_witness :
  exists b,
    fst (migrationCheck Sample.env Sample.codec
           (Sample.start Sample.world_reconciled)) = inr b
    /\ (b = true <->
        exists key, In key (map fst Sample.pairsF1)
                    /\ ~ Permutation (groupEvents key Sample.pairsF1)
                                     ALL_SUBSCRIBED_EVENTS)
    /\ (b = false <->
        forall key, In key (map fst Sample.pairsF1) ->
                    Permutation (groupEvents key Sample.pairsF1)
                                ALL_SUBSCRIBED_EVENTS).
Proof.
  apply (migrationCheck_by_group Sample.env Sample.codec
           (Sample.start Sample.world_reconciled) [Sample.theStream]
           Sample.world_reconciled Sample.world_reconciled Sample.theStream
           (Sample.sw_subscriptions Sample.world_reconciled) Sample.pairsF1);
    reflexivity.
Defined.

Lemma activatePool_subscriptions_witness :
  let m1 := snd (getStream Sample.env Sample.codec
                   (Sample.start Sample.world_reconciled)) in
  let m2 := snd (getContractAddress Sample.env m1) in
  exists r1 r2 r3 r4,
    trace (snd (activatePool Sample.env Sample.codec Sample.abi
                  Sample.activateF1 (Sample.start Sample.world_reconciled))) =
    (trace m2 ++ [CGetOrCreateSubscription r1; CGetOrCreateSubscription r2;
                  CGetOrCreateSubscription r3; CGetOrCreateSubscription r4])%list
    /\ sr_fromBlock r1 = "5" /\ sr_fromBlock r2 = "5"
    /\ sr_fromBlock r3 = "5" /\ sr_fromBlock r4 = "0".
Proof.
  intros m1 m2.
  destruct (activatePool_subscriptions Sample.env Sample.codec Sample.abi
              Sample.activateF1 (Sample.start Sample.world_reconciled) m1 m2
              Sample.theStream "0x123456"
              {| abi_name := Some "TokenPoolCreation"; abi_type := Some "event" |}
              {| abi_name := Some "create"; abi_type := Some "function" |}
              {| abi_name := Some "TransferSingle"; abi_type := Some "event" |}
              {| abi_name := Some "TransferBatch"; abi_type := Some "event" |}
              {| abi_name := Some "ApprovalForAll"; abi_type := Some "event" |}
              eq_refl eq_refl eq_refl eq_refl eq_refl eq_refl eq_refl)
    as (r1 & r2 & r3 & r4 & Htrace & (_ & _ & _ & H1) & (_ & _ & _ & H2)
        & (_ & _ & _ & H3) & (_ & _ & _ & H4)).
  exists r1, r2, r3, r4. repeat split; assumption.
Defined.


Lemma custom_uri_probe_memoized_witness :
  exists m1,
    isCustomUriSupported Sample.env Sample.abi
      (Sample.start Sample.world_fails_once) = (inr false, m1)
    /\ posts (trace m1) = 1
    /\ isCustomUriSupported Sample.env Sample.abi m1 = (inr false, m1).
Proof.
  destruct (custom_uri_probe_memoized Sample.env Sample.abi
              (Sample.start Sample.world_fails_once) eq_refl)
    as (m1 & calls & Hrun & _ & Htrace & _ & _ & _ & Hagain & _).
  exists m1. split; [exact Hrun|]. split; [|exact Hagain].
  rewrite Htrace. reflexivity.
Defined.

Lemma migrationCheck_read_only_witness :
  let m := Sample.start Sample.world_reconciled in
  let m' := snd (migrationCheck Sample.env Sample.codec m) in
  (Sample.sw_streams (world m'), Sample.sw_subscriptions (world m'))
  = (Sample.sw_streams (world m), Sample.sw_subscriptions (world m)).
Proof.
  exact (proj1 (proj2
    (migrationCheck_read_only Sample.env Sample.codec
       (fun w => (Sample.sw_streams w, Sample.sw_subscriptions w))
       (Sample.start Sample.world_reconciled)
       (fun w => eq_refl) (fun w => eq_refl)))).
Defined.

Lemma no_pool_locator_no_message_witness :
  let m := Sample.start Sample.world_down in
  transformTokenPoolCreationEvent Sample.env Sample.codec Sample.abi
    "tokens:legacy" Sample.createEvent m = (inr None, m)
  /\ transformTransferSingleEvent Sample.env Sample.codec Sample.abi
       "tokens:legacy" Sample.mintEvent None m = (inr None, m)
  /\ transformTransferBatchEvent Sample.env Sample.codec Sample.abi
       "tokens:legacy" Sample.batchEvent m = (inr [], m)
  /\ transformApprovalForAllEvent Sample.codec "tokens:legacy"
       Sample.approvalEvent = inr None.
Proof.
  intros m.
  destruct (no_pool_locator_no_message Sample.env Sample.codec Sample.abi
              "tokens:legacy" eq_refl)
    as (Hpool & Hsingle & Hbatch & Happroval & _).
  split; [|split; [|split]].
  - rewrite Hpool. reflexivity.
  - rewrite Hsingle. reflexivity.
  - rewrite Hbatch. reflexivity.
  - apply Happroval.
Defined.

(** C10 as stated fails on a token id that does not decode: under a
    subscription whose name gives no pool locator, the pool-creation, the
    single-transfer and the batch path throw the decoder's failure, because
    the source decodes the token id before it looks at the locator. *)
Lemma no_pool_locator_undecodable_id_throws :
  let m := Sample.start Sample.world_down in
  let e := UtilError "malformed token id 0xZZ" in
  sp_poolLocator (unpackSubscriptionName Sample.codec "tokens:legacy") = None
  /\ fst (transformTokenPoolCreationEvent Sample.env Sample.codec Sample.abi
            "tokens:legacy"
            (Sample.mkEvent Sample.createSig "5" "0x1" "2"
               {| pc_operator := "0x0a"; pc_type_id := "0xZZ";
                  pc_data := None |}) m) = inl e
  /\ fst (transformTransferSingleEvent Sample.env Sample.codec Sample.abi
            "tokens:legacy"
            (Sample.transferEvent ZERO_ADDRESS "0xABC" "0xZZ") None m) = inl e
  /\ fst (transformTransferBatchEvent Sample.env Sample.codec Sample.abi
            "tokens:legacy"
            (Sample.mkEvent Sample.batchSig "5" "0x1" "2"
               {| tb_operator := "0x0a"; tb_from := ZERO_ADDRESS;
                  tb_to := "0xABC"; tb_ids := [Sample.tokenF1; "0xZZ"];
                  tb_values := ["1"; "2"] |}) m) = inl e.
Proof.
  cbv zeta. repeat split; reflexivity.
Qed.

(** C5 as stated fails on a repeated name: with the approval subscription
    of pool [F1] listed twice, the event names of its group are, as a set,
    the four expected ones, yet the check answers [true], because the
    source also compares the number of names. *)
Lemma migrationCheck_repeated_name_is_mismatch :
  let m := Sample.start Sample.world_duplicate in
  let pairs := (Sample.pairsF1 ++ [(Sample.keyF1, approvalForAllEvent)])%list in
  decodeSubscriptions Sample.codec (baseSubscriptionName Sample.codec (svc m))
    (subscriptionsOf Sample.theStream (Sample.sw_subscriptions Sample.world_duplicate))
  = Some pairs
  /\ forallb (fun key => same_set (groupEvents key pairs) ALL_SUBSCRIBED_EVENTS)
       (map fst pairs) = true
  /\ fst (migrationCheck Sample.env Sample.codec m) = inr true.
Proof.
  cbv zeta. repeat split; reflexivity.
Qed.


(* ================================================================== *)
(** * The testable properties of the specification, run                 *)
(* ================================================================== *)

Example padStart_pads : Js.padStart 6 "0" "31" = "000031".
Proof. reflexivity. Qed.

Example padStart_keeps_long : Js.padStart 6 "0" "1000000" = "1000000".
Proof. reflexivity. Qed.

Example BigInt_hex : Js.BigInt "0x1f" = Some 31%Z.
Proof. reflexivity. Qed.

Example BigInt_not_a_literal : Js.BigInt "1e3" = None.
Proof. reflexivity. Qed.

Example trimEventSignature_prefixed :
  trimEventSignature "0xabc:TransferSingle(address)" = "TransferSingle(address)"
  /\ stripParamsFromSignature "TransferSingle(address)" = "TransferSingle".
Proof. split; reflexivity. Qed.

(** Provenance id ordering: (5, 1, 2) before (5, 1, 10). *)
Example provenance_ids_of_logs_2_and_10 :
  formatBlockchainEventId (Sample.mkEvent Sample.transferSig "5" "0x1" "2" tt)
  = inr "000000000005/000001/000002"
  /\ formatBlockchainEventId (Sample.mkEvent Sample.transferSig "5" "0x1" "10" tt)
     = inr "000000000005/000001/000010"
  /\ ("000000000005/000001/000002" <? "000000000005/000001/000010")%string = true.
Proof. repeat split; reflexivity. Qed.

(** Sentinel classification: burn, and the discarded zero-to-zero
    transfer. *)
Example burn_and_zero_to_zero :
  let run from to :=
    option_map msg_event
      (match fst (transformTransferSingleEvent Sample.env Sample.codec Sample.abi
                    (Sample.subF1 transferSingleEvent)
                    (Sample.transferEvent from to Sample.tokenF1) None
                    (Sample.start Sample.world_down)) with
       | inr r => r
       | inl _ => None
       end) in
  run ZERO_ADDRESS "0xABC" = Some "token-mint"
  /\ run "0xABC" ZERO_ADDRESS = Some "token-burn"
  /\ run "0xABC" "0xDEF" = Some "token-transfer"
  /\ run ZERO_ADDRESS ZERO_ADDRESS = None.
Proof. cbv zeta. repeat split; reflexivity. Qed.

(** Batch expansion: two messages, with sub-indices 0 and 1. *)
Example batch_of_two :
  match fst (transformTransferBatchEvent Sample.env Sample.codec Sample.abi
               (Sample.subF1 transferBatchEvent) Sample.batchEvent
               (Sample.start Sample.world_down)) with
  | inr msgs => map message_id msgs
  | inl _ => []
  end
  = ["000000000005/000001/000002/000000"; "000000000005/000001/000002/000001"].
Proof. reflexivity. Qed.

(** Cross-pool filtering: a transfer of pool [N2] under the subscription
    of pool [F1]. *)
Example cross_pool_transfer_is_filtered :
  fst (transformTransferSingleEvent Sample.env Sample.codec Sample.abi
         (Sample.subF1 transferSingleEvent)
         (Sample.transferEvent ZERO_ADDRESS "0xABC" Sample.tokenN2_1) None
         (Sample.start Sample.world_down))
  = inr None.
Proof. reflexivity. Qed.

(** Reconciliation: all four events present, then one removed. *)
Example reconciliation_complete_and_incomplete :
  fst (migrationCheck Sample.env Sample.codec
         (Sample.start Sample.world_reconciled)) = inr false
  /\ fst (migrationCheck Sample.env Sample.codec
            (Sample.start Sample.world_missing_one)) = inr true.
Proof. split; reflexivity. Qed.

(** Memoization: two probes against a capability that fails on the first
    call: one POST, and the reply that would have said [true] is never
    asked for. *)
Example two_probes_one_query :
  let '(r1, m1) := isCustomUriSupported Sample.env Sample.abi
                     (Sample.start Sample.world_fails_once) in
  let '(r2, m2) := isCustomUriSupported Sample.env Sample.abi m1 in
  r1 = inr false /\ r2 = inr false
  /\ posts (trace m2) = 1 /\ List.length (trace m2) = 1
  /\ Sample.sw_replies (world m2) = [inr {| ecr_output := JBool true |}].
Proof. vm_compute. repeat split; reflexivity. Qed.

(* ================================================================== *)
(** * Event signatures                                                  *)
(* ================================================================== *)

Lemma prefix_single (c b : ascii) (s : string) :
  prefix (String c "") (String b s) = Ascii.eqb c b.
Proof.
  destruct (prefix (String c "") (String b s)) eqn:Hp.
  - apply prefix_correct in Hp. simpl in Hp.
    assert (Hb : b = c) by (injection Hp; auto). subst b.
    symmetry. apply Ascii.eqb_refl.
  - destruct (Ascii.eqb_spec c b) as [-> | Hne]; [|reflexivity].
    assert (Ht : prefix (String b "") (String b s) = true).
    { apply prefix_correct. simpl. now destruct s. }
    congruence.
Qed.

Lemma index_cons (c b : ascii) (s : string) :
  index 0 (String c "") (String b s) =
  if Ascii.eqb c b then Some 0
  else match index 0 (String c "") s with
       | Some n => Some (S n)
       | None => None
       end.
Proof.
  change (index 0 (String c "") (String b s))
    with (if prefix (String c "") (String b s) then Some 0
          else match index 0 (String c "") s with
               | Some n => Some (S n)
               | None => None
               end).
  now rewrite prefix_single.
Qed.

(** The first occurrence of a character that a prefix does not contain
    is right after the prefix. *)
Lemma indexOf_after_prefix (c : ascii) (p rest : string) :
  Js.indexOf (String c "") p = None ->
  Js.indexOf (String c "") (p ++ String c rest) = Some (String.length p).
Proof.
  unfold Js.indexOf. induction p as [|b p IH]; intros Hnone.
  - cbn [append String.length]. now rewrite index_cons, Ascii.eqb_refl.
  - cbn [append String.length]. rewrite index_cons in *.
    destruct (Ascii.eqb c b); [discriminate|].
    destruct (index 0 (String c "") p) eqn:Hp; [discriminate|].
    now rewrite IH.
Qed.

Lemma substring_prefix (p rest : string) :
  substring 0 (String.length p) (p ++ rest) = p.
Proof. induction p as [|b p IH]; simpl; [now destruct rest | now rewrite IH]. Qed.

Lemma substring_skip (p rest : string) (n : nat) :
  substring (String.length p) n (p ++ rest) = substring 0 n rest.
Proof. induction p as [|b p IH]; simpl; [reflexivity | exact IH]. Qed.

Lemma substring_from_skip (p rest : string) :
  Js.substring_from (String.length p) (p ++ rest) = rest.
Proof.
  unfold Js.substring_from. rewrite substring_skip, length_append.
  replace (String.length p + String.length rest - String.length p)
    with (String.length rest) by lia.
  apply substring_all.
Qed.

(** X1: [stripParamsFromSignature] keeps what comes before the first
    opening parenthesis: the event name of a signature; a signature without
    a parenthesis gives the empty string. *)
Theorem stripParamsFromSignature_name (name params : string) :
  Js.indexOf "(" name = None ->
  stripParamsFromSignature (name ++ "(" ++ params) = name
  /\ stripParamsFromSignature name = "".
Proof.
  intros Hnone. unfold stripParamsFromSignature. split.
  - change (name ++ "(" ++ params) with (name ++ String "(" params).
    rewrite (indexOf_after_prefix "(" name params Hnone). simpl.
    apply substring_prefix.
  - now rewrite Hnone.
Qed.

Lemma stripParamsFromSignature_name_witness :
  stripParamsFromSignature ("TransferSingle" ++ "(" ++ "address,uint256)")
  = "TransferSingle"
  /\ stripParamsFromSignature "TransferSingle" = "".
Proof.
  apply (stripParamsFromSignature_name "TransferSingle" "address,uint256)").
  reflexivity.
Defined.

(** X2: [trimEventSignature] drops a non-empty prefix up to and including
    the first colon (the contract address in front of a signature); a
    signature without a colon, or starting with one, is returned as it
    is. *)
Theorem trimEventSignature_prefix (p rest : string) :
  p <> "" ->
  Js.indexOf ":" p = None ->
  trimEventSignature (p ++ ":" ++ rest) = rest
  /\ trimEventSignature p = p
  /\ trimEventSignature (":" ++ rest) = ":" ++ rest.
Proof.
  intros Hne Hnone. unfold trimEventSignature. repeat split.
  - change (p ++ ":" ++ rest) with (p ++ String ":" rest).
    rewrite (indexOf_after_prefix ":" p rest Hnone).
    destruct p as [|b p]; [contradiction|]. cbn [String.length].
    replace (S (String.length p) + 1) with (String.length (String b p ++ ":"))
      by (rewrite length_append; simpl; lia).
    change (String b p ++ String ":" rest) with (String b p ++ (":" ++ rest)).
    rewrite <- append_assoc. apply substring_from_skip.
  - now rewrite Hnone.
  - unfold Js.indexOf. cbn [append]. now rewrite index_cons, Ascii.eqb_refl.
Qed.

Lemma trimEventSignature_prefix_witness :
  trimEventSignature ("0x123456" ++ ":" ++ "TransferSingle(address)")
  = "TransferSingle(address)"
  /\ trimEventSignature "0x123456" = "0x123456"
  /\ trimEventSignature (":" ++ "TransferSingle(address)")
     = ":" ++ "TransferSingle(address)".
Proof.
  apply (trimEventSignature_prefix "0x123456" "TransferSingle(address)").
  - discriminate.
  - reflexivity.
Defined.

(* ================================================================== *)
(** * Ids tell events apart                                             *)
(* ================================================================== *)

(** X3: within the field widths, the provenance id determines the
    position: two events with the same id have the same block number,
    transaction index and log index. *)
Theorem provenance_id_injective {D} (e1 e2 : Event D) (b1 t1 l1 b2 t2 l2 : N) :
  positioned e1 b1 t1 l1 ->
  positioned e2 b2 t2 l2 ->
  (b1 < 1000000000000)%N -> (t1 < 1000000)%N -> (l1 < 1000000)%N ->
  (b2 < 1000000000000)%N -> (t2 < 1000000)%N -> (l2 < 1000000)%N ->
  formatBlockchainEventId e1 = formatBlockchainEventId e2 ->
  (b1, t1, l1) = (b2, t2, l2).
Proof.
  intros P1 P2 Bb1 Bt1 Bl1 Bb2 Bt2 Bl2 Heq.
  rewrite (formatBlockchainEventId_positioned e1 b1 t1 l1) in Heq by assumption.
  rewrite (formatBlockchainEventId_positioned e2 b2 t2 l2) in Heq by assumption.
  set (id1 := fixed_digits 12 b1 ++ "/" ++ fixed_digits 6 t1 ++ "/"
               ++ fixed_digits 6 l1) in *.
  set (id2 := fixed_digits 12 b2 ++ "/" ++ fixed_digits 6 t2 ++ "/"
               ++ fixed_digits 6 l2) in *.
  assert (Hid : id1 = id2) by congruence.
  assert (Hcases : position_lt (b1, t1, l1) (b2, t2, l2)
                   \/ position_lt (b2, t2, l2) (b1, t1, l1)
                   \/ (b1, t1, l1) = (b2, t2, l2)).
  { simpl.
    destruct (N.lt_trichotomy b1 b2) as [Hb | [Hb | Hb]]; [tauto | | tauto].
    destruct (N.lt_trichotomy t1 t2) as [Ht | [Ht | Ht]];
      [left; tauto | | right; left; right; split; [now symmetry | tauto]].
    destruct (N.lt_trichotomy l1 l2) as [Hl | [Hl | Hl]];
      [left; tauto | | right; left; right; split; [now symmetry|];
                        right; split; [now symmetry | exact Hl]].
    right. right. congruence. }
  destruct Hcases as [Hlt | [Hgt | Hsame]]; [| |exact Hsame].
  - pose proof (position_ids_compare b1 t1 l1 b2 t2 l2 Bb1 Bt1 Bl1 Bb2 Bt2 Bl2 Hlt)
      as Hc.
    fold id1 id2 in Hc. rewrite Hid, compare_refl in Hc. discriminate.
  - pose proof (position_ids_compare b2 t2 l2 b1 t1 l1 Bb2 Bt2 Bl2 Bb1 Bt1 Bl1 Hgt)
      as Hc.
    fold id1 id2 in Hc. rewrite Hid, compare_refl in Hc. discriminate.
Qed.

Lemma provenance_id_injective_witness :
  let e1 := Sample.mkEvent Sample.transferSig "5" "0x1f" "2" tt in
  let e2 := Sample.mkEvent Sample.transferSig "5" "31" "2" tt in
  formatBlockchainEventId e1 = inr "000000000005/000031/000002"
  /\ formatBlockchainEventId e2 = inr "000000000005/000031/000002"
  /\ (5, 31, 2)%N = (5, 31, 2)%N.
Proof.
  (* the same transaction index written in hexadecimal and in decimal *)
  intros e1 e2. split; [reflexivity|]. split; [reflexivity|].
  apply (provenance_id_injective e1 e2);
    try reflexivity; repeat split; reflexivity.
Defined.

Lemma append_inj_l (s a b : string) : s ++ a = s ++ b -> a = b.
Proof.
  induction s as [|c s IH]; simpl; intros H; [exact H|].
  injection H as H. now apply IH.
Qed.

(** ** Reading a decimal rendering back *)

Lemma digit_val_digit_char (d : N) :
  (d < 10)%N -> Js.digit_val (Js.digit_char d) = Some d.
Proof.
  intros Hd. unfold Js.digit_val, Js.digit_char.
  rewrite N_ascii_embedding by lia.
  destruct (N.leb_spec 48 (48 + d)); [|lia].
  destruct (N.leb_spec (48 + d) 57); [|lia].
  cbn [andb]. f_equal. lia.
Qed.

Lemma parse_digits_app (radix : N) (a b : string) (acc : N) :
  Js.parse_digits radix (a ++ b) acc =
  match Js.parse_digits radix a acc with
  | Some v => Js.parse_digits radix b v
  | None => None
  end.
Proof.
  revert acc. induction a as [|c a IH]; intros acc; simpl; [reflexivity|].
  destruct (Js.digit_val c) as [d|]; [|reflexivity].
  destruct (d <? radix)%N; [apply IH | reflexivity].
Qed.

Lemma parse_digits_dec (fuel : nat) (n : N) :
  (n < pow10 fuel)%N -> 0 < fuel ->
  Js.parse_digits 10 (Js.dec_digits fuel n) 0 = Some n.
Proof.
  revert n. induction fuel as [|fuel IH]; intros n Hn Hf; [lia|].
  simpl Js.dec_digits. rewrite parse_digits_app.
  pose proof (N.div_mod n 10 ltac:(lia)) as Hdm.
  pose proof (N.mod_lt n 10 ltac:(lia)) as Hm.
  assert (Hq : (n / 10 < pow10 fuel)%N) by now apply div10_lt.
  set (q := (n / 10)%N) in *. set (r := (n mod 10)%N) in *.
  assert (Hpre : Js.parse_digits 10 (if (q =? 0)%N then "" else Js.dec_digits fuel q) 0
                 = Some q).
  { destruct (N.eqb_spec q 0) as [-> | Hnz]; [reflexivity|].
    apply IH; [exact Hq|].
    destruct fuel; [|lia]. unfold pow10 in Hq. simpl in Hq. clearbody q. lia. }
  rewrite Hpre. simpl. rewrite digit_val_digit_char by exact Hm.
  destruct (N.ltb_spec r 10); [|lia].
  f_equal. clearbody q r. lia.
Qed.

Lemma parse_digits_zeros (k : nat) (s : string) :
  Js.parse_digits 10 (Js.repeat_string "0" k ++ s) 0 = Js.parse_digits 10 s 0.
Proof.
  induction k as [|k IH]; [reflexivity|].
  change (Js.repeat_string "0" (S k)) with ("0" ++ Js.repeat_string "0" k).
  rewrite append_assoc. exact IH.
Qed.

(** The zero-padded decimal rendering reads back as the number, whatever
    the width. *)
Lemma parse_padStart_toString10 (k : nat) (n : N) :
  Js.parse_digits 10 (Js.padStart k "0" (Js.toString10 n)) 0 = Some n.
Proof.
  rewrite padStart_zero, parse_digits_zeros. unfold Js.toString10.
  apply parse_digits_dec; [apply toString10_fuel | lia].
Qed.

Lemma sub_index_injective (eventId : string) (i j : nat) :
  transferIdOf eventId (Some i) = transferIdOf eventId (Some j) -> i = j.
Proof.
  unfold transferIdOf. intros H.
  apply append_inj_l in H. apply (append_inj_l "/") in H.
  assert (Hp : Some (N.of_nat i) = Some (N.of_nat j)).
  { rewrite <- (parse_padStart_toString10 6 (N.of_nat i)).
    rewrite <- (parse_padStart_toString10 6 (N.of_nat j)). now rewrite H. }
  injection Hp as Hp. lia.
Qed.

Lemma In_somes {A} (x : A) (l : list (option A)) :
  In x (somes l) -> exists k, nth_error l k = Some (Some x).
Proof.
  induction l as [|[a|] l IH]; simpl; [tauto | |].
  - intros [-> | Hin]; [now exists 0|].
    destruct (IH Hin) as (k & Hk). now exists (S k).
  - intros Hin. destruct (IH Hin) as (k & Hk). now exists (S k).
Qed.

Lemma somes_length {A} (l : list (option A)) :
  List.length (somes l) <= List.length l.
Proof. induction l as [|[a|] l IH]; simpl; lia. Qed.

Lemma somes_ids_NoDup (results : list (option WebSocketMessage))
    (start : nat) (eventId : string) :
  (forall k msg, nth_error results k = Some (Some msg) ->
                 message_id msg = transferIdOf eventId (Some (start + k))) ->
  NoDup (map message_id (somes results)).
Proof.
  revert start. induction results as [|[msg|] results IH]; intros start Hids;
    simpl.
  - constructor.
  - constructor.
    + intros Hin. apply in_map_iff in Hin. destruct Hin as (msg' & Heq & Hin).
      apply In_somes in Hin. destruct Hin as (k & Hk).
      pose proof (Hids 0 msg eq_refl) as H0.
      pose proof (Hids (S k) msg' Hk) as H1.
      rewrite H0, H1 in Heq. apply sub_index_injective in Heq. lia.
    + apply (IH (S start)). intros k msg' Hk.
      rewrite (Hids (S k) msg' Hk). f_equal. f_equal. lia.
  - apply (IH (S start)). intros k msg' Hk.
    rewrite (Hids (S k) msg' Hk). f_equal. f_equal. lia.
Qed.

Section ListenerEffects.

Context {World : Type}.
Variable env : Env World.
Variable codec : Codec.
Variable abi : list IAbiMethod.

(** X4: the messages of one batch event have pairwise distinct ids, and
    there are at most as many as entries. *)
Theorem batch_message_ids_distinct (subName : string)
    (event : Event TransferBatchData) (m m' : Machine World)
    (msgs : list WebSocketMessage) :
  List.length (tb_ids (ev_data event)) = List.length (tb_values (ev_data event)) ->
  transformTransferBatchEvent env codec abi subName event m = (inr msgs, m') ->
  NoDup (map message_id msgs)
  /\ List.length msgs <= List.length (tb_ids (ev_data event)).
Proof.
  intros Hlen Hrun. unfold transformTransferBatchEvent in Hrun.
  rewrite (batchLoop_expansion env codec abi subName event
             (tb_ids (ev_data event)) (tb_values (ev_data event)) 0 [] m)
    in Hrun by (try reflexivity; exact Hlen).
  unfold bind in Hrun.
  destruct (singlePathOnEach env codec abi subName event _ m)
    as [[e | results] m1] eqn:Hres; [discriminate|].
  unfold ret in Hrun. injection Hrun as <- _. simpl.
  destruct (singlePathOnEach_ids env codec abi subName event _ _ 0 m m1 results
              Hlen Hres) as [Hl Hids].
  split; [|rewrite <- Hl; apply somes_length].
  destruct (formatBlockchainEventId event) as [e | eventId] eqn:Hfmt.
  - (* no entry can have produced a message *)
    assert (Hnone : somes results = []).
    { destruct (somes results) as [|msg rest] eqn:Hs; [reflexivity|].
      assert (Hin : In msg (somes results)) by (rewrite Hs; now left).
      apply In_somes in Hin. destruct Hin as (k & Hk).
      destruct (Hids k msg Hk) as (d & eventId & Hbad & _). discriminate. }
    rewrite Hnone. constructor.
  - apply (somes_ids_NoDup results 0 eventId). intros k msg Hk.
    destruct (Hids k msg Hk) as (d & eventId' & Hfmt' & Hd & Hidd).
    injection Hfmt' as <-. unfold message_id. now rewrite Hd.
Qed.

(** X5: the id of an approval message is the provenance id followed by
    the pool id of the subscription, so the messages that one approval
    event yields under the subscriptions of two pools have different ids
    exactly when the pool ids differ; they share the provenance id of the
    blockchain envelope. *)
Theorem approval_id_per_pool (sub1 sub2 : string)
    (event : Event ApprovalForAllData) (loc1 loc2 : string) (txIndex : Z) :
  sp_poolLocator (unpackSubscriptionName codec sub1) = Some loc1 ->
  sp_poolLocator (unpackSubscriptionName codec sub2) = Some loc2 ->
  Js.BigInt (ev_transactionIndex event) = Some txIndex ->
  exists eventId d1 d2,
    formatBlockchainEventId event = inr eventId
    /\ transformApprovalForAllEvent codec sub1 event
       = inr (Some {| msg_event := "token-approval"; msg_data := ApprovalMessage d1 |})
    /\ transformApprovalForAllEvent codec sub2 event
       = inr (Some {| msg_event := "token-approval"; msg_data := ApprovalMessage d2 |})
    /\ ta_id d1 = eventId ++ "/" ++ pl_poolId (unpackPoolLocator codec loc1)
    /\ ta_id d2 = eventId ++ "/" ++ pl_poolId (unpackPoolLocator codec loc2)
    /\ bc_id (ta_blockchain d1) = eventId
    /\ bc_id (ta_blockchain d2) = eventId
    /\ (ta_id d1 = ta_id d2 <->
        pl_poolId (unpackPoolLocator codec loc1)
        = pl_poolId (unpackPoolLocator codec loc2)).
Proof.
  intros H1 H2 Htx.
  assert (Hfmt : exists eventId, formatBlockchainEventId event = inr eventId).
  { unfold formatBlockchainEventId. rewrite Htx. eauto. }
  destruct Hfmt as (eventId & Hfmt).
  unfold transformApprovalForAllEvent. rewrite H1, H2, Hfmt.
  exists eventId. do 2 eexists.
  repeat split; try reflexivity; simpl.
  - intros H. apply append_inj_l in H. now apply (append_inj_l "/") in H.
  - intros ->. reflexivity.
Qed.

(** X6: a single transfer that is filtered out (another pool's token, or
    from the zero address to the zero address) is filtered before anything
    is asked of the contract: the result is no message and the machine is
    unchanged. *)
Theorem filtered_transfer_issues_no_query (subName : string)
    (event : Event TransferSingleData) (eventIndex : option nat)
    (m : Machine World) (unpackedId : UnpackedTokenId) (subLocator : string) :
  unpackTokenId codec (ts_id (ev_data event)) = inr unpackedId ->
  sp_poolLocator (unpackSubscriptionName codec subName) = Some subLocator ->
  pl_poolId (unpackPoolLocator codec subLocator) <> uti_poolId unpackedId
  \/ (ts_from (ev_data event) = ZERO_ADDRESS /\ ts_to (ev_data event) = ZERO_ADDRESS) ->
  transformTransferSingleEvent env codec abi subName event eventIndex m
  = (inr None, m).
Proof.
  intros Hid Hsub Hor.
  unfold transformTransferSingleEvent.
  cbv beta iota delta [bind lift]. rewrite Hid, Hsub.
  destruct (String.eqb_spec (pl_poolId (unpackPoolLocator codec subLocator))
              (uti_poolId unpackedId)) as [Heq | Hne]; [|reflexivity].
  destruct Hor as [Hne | [-> ->]]; [contradiction|].
  now rewrite !String.eqb_refl.
Qed.

(** X7: an accepted transfer of a fungible token carries no URI and asks
    nothing of the contract; an accepted transfer of a non-fungible token
    carries the answer of [getTokenUri] for its token id, and its effects
    are those of that lookup. *)
Theorem transfer_uri_lookup (subName : string)
    (event : Event TransferSingleData) (eventIndex : option nat)
    (m : Machine World) (unpackedId : UnpackedTokenId)
    (subLocator eventId : string) :
  unpackTokenId codec (ts_id (ev_data event)) = inr unpackedId ->
  sp_poolLocator (unpackSubscriptionName codec subName) = Some subLocator ->
  pl_poolId (unpackPoolLocator codec subLocator) = uti_poolId unpackedId ->
  String.eqb (ts_from (ev_data event)) ZERO_ADDRESS
    && String.eqb (ts_to (ev_data event)) ZERO_ADDRESS = false ->
  formatBlockchainEventId event = inr eventId ->
  exists kind d m',
    transformTransferSingleEvent env codec abi subName event eventIndex m =
    (inr (Some {| msg_event := kind; msg_data := TransferMessage d |}), m')
    /\ bc_id (tt_blockchain d) = eventId
    /\ tt_amount d = ts_value (ev_data event)
    /\ tt_tokenIndex d = uti_tokenIndex unpackedId
    /\ (uti_isFungible unpackedId = true -> tt_uri d = None /\ m' = m)
    /\ (uti_isFungible unpackedId = false ->
        getTokenUri env codec abi (ts_id (ev_data event)) m
        = (inr (Js.nullish (tt_uri d) ""), m')
        /\ tt_uri d <> None).
Proof.
  intros Hid Hsub Hpool Hzero Hfmt.
  unfold transformTransferSingleEvent.
  cbv beta iota delta [bind lift].
  rewrite Hid, Hsub, Hpool, String.eqb_refl, Hzero, Hfmt. cbn [negb].
  destruct (uti_isFungible unpackedId).
  - destruct (String.eqb (ts_from (ev_data event)) ZERO_ADDRESS);
      [|destruct (String.eqb (ts_to (ev_data event)) ZERO_ADDRESS)];
      cbv [ret]; do 3 eexists;
      (split; [reflexivity|]); repeat split; try reflexivity; discriminate.
  - destruct (getTokenUri_total env codec abi (ts_id (ev_data event)) m)
      as (u & m1 & Hu). rewrite Hu.
    destruct (String.eqb (ts_from (ev_data event)) ZERO_ADDRESS);
      [|destruct (String.eqb (ts_to (ev_data event)) ZERO_ADDRESS)];
      cbv [ret]; do 3 eexists;
      (split; [reflexivity|]); repeat split; try reflexivity; discriminate.
Qed.

End ListenerEffects.

(* ================================================================== *)
(** * The token URI template                                            *)
(* ================================================================== *)

Lemma prefix_app (p rest : string) : prefix p (p ++ rest) = true.
Proof. apply prefix_correct. apply substring_prefix. Qed.

Lemma prefix_head_neq (c b : ascii) (p s : string) :
  Ascii.eqb c b = false -> prefix (String c p) (String b s) = false.
Proof.
  intros Hne. destruct (prefix (String c p) (String b s)) eqn:Hp; [|reflexivity].
  apply prefix_correct in Hp. simpl in Hp.
  assert (b = c) by (injection Hp; auto). subst b.
  now rewrite Ascii.eqb_refl in Hne.
Qed.

Lemma index_step (pat : string) (b : ascii) (s : string) :
  index 0 pat (String b s) =
  if prefix pat (String b s) then Some 0
  else match index 0 pat s with
       | Some n => Some (S n)
       | None => None
       end.
Proof. reflexivity. Qed.

(** A pattern occurs first right after a prefix that does not contain
    the first character of the pattern. *)
Lemma indexOf_pattern_after_prefix (c : ascii) (pat pre post : string) :
  Js.indexOf (String c "") pre = None ->
  Js.indexOf (String c pat) (pre ++ String c pat ++ post)
  = Some (String.length pre).
Proof.
  unfold Js.indexOf. induction pre as [|b pre IH]; intros Hnone.
  - change ("" ++ String c pat ++ post) with (String c (pat ++ post)).
    rewrite index_step.
    change (String c (pat ++ post)) with (String c pat ++ post).
    now rewrite prefix_app.
  - rewrite index_cons in Hnone.
    destruct (Ascii.eqb c b) eqn:Hcb; [discriminate|].
    destruct (index 0 (String c "") pre) eqn:Hp; [discriminate|].
    change (String b pre ++ String c pat ++ post)
      with (String b (pre ++ String c pat ++ post)).
    rewrite index_step, prefix_head_neq by exact Hcb.
    now rewrite IH.
Qed.

Lemma replace_first_template (pre post by_ : string) :
  Js.indexOf "{" pre = None ->
  Js.includes "{id}" (pre ++ "{id}" ++ post) = true
  /\ Js.replace_first "{id}" by_ (pre ++ "{id}" ++ post) = pre ++ by_ ++ post.
Proof.
  intros Hnone. unfold Js.includes, Js.replace_first.
  rewrite (indexOf_pattern_after_prefix "{" "id}" pre post Hnone).
  split; [reflexivity|].
  rewrite substring_prefix. f_equal. f_equal.
  replace (String.length pre + String.length "{id}")
    with (String.length (pre ++ "{id}")) by (now rewrite length_append).
  rewrite <- append_assoc. apply substring_from_skip.
Qed.

Section TokenUri.

Context {World : Type}.
Variable env : Env World.
Variable codec : Codec.
Variable abi : list IAbiMethod.

(** X8: when the contract answers the [uri] query with a template, the
    first [{id}] of the template is replaced by the hexadecimal form of the
    token id and the rest is kept; an answer without [{id}] is returned as
    it is. *)
Theorem getTokenUri_fills_template (id pre post plain : string)
    (m mq m2 mq2 : Machine World) :
  Js.indexOf "{" pre = None ->
  query env (abi_find abi "uri") [id] m
  = (inr {| ecr_output := JString (pre ++ "{id}" ++ post) |}, mq) ->
  Js.indexOf "{id}" plain = None ->
  query env (abi_find abi "uri") [id] m2
  = (inr {| ecr_output := JString plain |}, mq2) ->
  getTokenUri env codec abi id m
  = (inr (pre ++ encodeHexIDForURI codec id ++ post), mq)
  /\ getTokenUri env codec abi id m2 = (inr plain, mq2).
Proof.
  intros Hpre Hq Hplain Hq2. split.
  - unfold getTokenUri. cbv beta iota delta [bind tryCatch ret].
    rewrite Hq. cbn [ecr_output].
    destruct (replace_first_template pre post (encodeHexIDForURI codec id) Hpre)
      as [-> ->]. reflexivity.
  - unfold getTokenUri. cbv beta iota delta [bind tryCatch ret].
    rewrite Hq2. simpl. unfold Js.includes. now rewrite Hplain.
Qed.

End TokenUri.

(* ================================================================== *)
(** * The contract address                                              *)
(* ================================================================== *)

Section ContractAddress.

Context {World : Type}.
Variable env : Env World.

Lemma getContractAddress_configured (m : Machine World) :
  contractAddress (svc m) <> "" ->
  getContractAddress env m = (inr (contractAddress (svc m)), m).
Proof.
  intros Hne. unfold getContractAddress.
  cbv beta iota delta [bind getService ret].
  destruct (String.eqb_spec (contractAddress (svc m)) ""); [contradiction|].
  reflexivity.
Qed.

(** X9: without a configured address, [getContractAddress] fetches the
    contract info once: the address becomes ["0x"] followed by the fetched
    address in lower case, and from then on it is served from the service
    without any call. *)
Theorem getContractAddress_fetched_once (m : Machine World)
    (info : ContractInfoResponse) (w : World) :
  contractAddress (svc m) = "" ->
  http_get env (instanceUrl (svc m)) (world m) = (inr info, w) ->
  let address := "0x" ++ Js.toLowerCase (cir_address info) in
  exists m1,
    getContractAddress env m = (inr address, m1)
    /\ trace m1 = (trace m ++ [CHttpGet (instanceUrl (svc m))])%list
    /\ world m1 = w
    /\ contractAddress (svc m1) = address
    /\ getContractAddress env m1 = (inr address, m1).
Proof.
  intros Hempty Hget address.
  assert (Hrun : exists m1,
    getContractAddress env m = (inr address, m1)
    /\ trace m1 = (trace m ++ [CHttpGet (instanceUrl (svc m))])%list
    /\ world m1 = w
    /\ contractAddress (svc m1) = address).
  { unfold getContractAddress, wrapError.
    cbv beta iota delta [bind getService tryCatch call logger modifyService ret].
    rewrite Hempty. cbn [String.eqb svc world trace]. rewrite Hget.
    eexists. repeat split. }
  destruct Hrun as (m1 & Hrun & Ht & Hw & Ha).
  exists m1. repeat split; try assumption.
  rewrite <- Ha. apply getContractAddress_configured.
  rewrite Ha. discriminate.
Qed.

(** X10: a failed fetch of the contract info is not remembered: the call
    throws (an Axios failure as an [InternalServerErrorException] with the
    gateway's error text, or else the failure's own message), the address
    stays unset, and the next call fetches again. *)
Theorem getContractAddress_failure_not_cached (m : Machine World)
    (e : Err) (w : World) :
  contractAddress (svc m) = "" ->
  http_get env (instanceUrl (svc m)) (world m) = (inl e, w) ->
  exists m1,
    getContractAddress env m =
    (inl (match e with
          | AxiosError _ resp message =>
              InternalServerErrorException
                (Js.nullish (match resp with
                             | Some r => aer_data_error r
                             | None => None
                             end) message)
          | _ => e
          end), m1)
    /\ contractAddress (svc m1) = ""
    /\ instanceUrl (svc m1) = instanceUrl (svc m)
    /\ world m1 = w
    /\ trace m1 = (trace m ++ [CHttpGet (instanceUrl (svc m))])%list
    /\ trace (snd (getContractAddress env m1))
       = (trace m1 ++ [CHttpGet (instanceUrl (svc m))])%list.
Proof.
  intros Hempty Hget.
  assert (Hrun : exists m1,
    getContractAddress env m =
    (inl (match e with
          | AxiosError _ resp message =>
              InternalServerErrorException
                (Js.nullish (match resp with
                             | Some r => aer_data_error r
                             | None => None
                             end) message)
          | _ => e
          end), m1)
    /\ contractAddress (svc m1) = ""
    /\ instanceUrl (svc m1) = instanceUrl (svc m)
    /\ world m1 = w
    /\ trace m1 = (trace m ++ [CHttpGet (instanceUrl (svc m))])%list).
  { unfold getContractAddress, wrapError.
    cbv beta iota delta [bind getService tryCatch call logger modifyService ret throw].
    rewrite Hempty. cbn [String.eqb svc world trace]. rewrite Hget.
    destruct e; eexists; (split; [reflexivity|]); repeat split; exact Hempty. }
  destruct Hrun as (m1 & Hrun & Ha & Hu & Hw & Ht).
  exists m1. repeat split; try assumption.
  unfold getContractAddress, wrapError.
  cbv beta iota delta [bind getService tryCatch call logger modifyService ret throw].
  rewrite Ha, Hu. cbn [String.eqb svc world trace].
  break_matches; reflexivity.
Qed.

(** X11: no failure of the HTTP client leaves [query] as an Axios error:
    it is either rethrown as it is (when it is no Axios error) or turned
    into an [InternalServerErrorException]. *)
Theorem query_never_throws_axios (method : option IAbiMethod)
    (params : list string) (m : Machine World) :
  match fst (query env method params m) with
  | inl (AxiosError _ _ _) => False
  | _ => True
  end.
Proof.
  unfold query, getContractAddress, wrapError.
  cbv beta iota delta [bind getService tryCatch call logger modifyService ret throw].
  break_matches; try exact I; try discriminate; try congruence.
Qed.

End ContractAddress.

(* ================================================================== *)
(** * Stream discovery and initialization                               *)
(* ================================================================== *)

Section StreamLifecycle.

Context {World : Type}.
Variable env : Env World.
Variable codec : Codec.
Variable abi : list IAbiMethod.

(** X12: on a fresh deployment (no stream under the expected name nor
    under the topic) [migrationCheck] answers [false] after listing the
    streams only: the subscriptions are not listed, nothing is logged and no
    stream handle is cached. *)
Theorem migrationCheck_fresh_deployment (m : Machine World)
    (streams : list EventStream) (w : World) :
  getStreams env (world m) = (inr streams, w) ->
  adoptedStream codec (svc m) streams = None ->
  migrationCheck env codec m
  = (inr false, Build_Machine (svc m) w (trace m ++ [CGetStreams])%list).
Proof.
  intros Hget Hnone. unfold migrationCheck.
  cbv beta iota delta [bind getService call ret].
  rewrite Hget. unfold adoptedStream in Hnone.
  destruct (find_stream _ streams); [discriminate|].
  now rewrite Hnone.
Qed.

Lemma decodeSubscriptions_bad (baseSubscription : string)
    (subscriptions : list EventStreamSubscription)
    (sub : EventStreamSubscription) :
  In sub subscriptions ->
  sub_name sub <> baseSubscription ->
  sp_poolLocator (unpackSubscriptionName codec (sub_name sub)) = None
  \/ sp_event (unpackSubscriptionName codec (sub_name sub)) = None ->
  decodeSubscriptions codec baseSubscription subscriptions = None.
Proof.
  intros Hin Hnb Hbad.
  induction subscriptions as [|s rest IH]; [contradiction|].
  simpl. destruct Hin as [-> | Hin].
  - destruct (String.eqb_spec (sub_name sub) baseSubscription); [contradiction|].
    destruct Hbad as [-> | Hev]; [reflexivity|].
    rewrite Hev.
    now destruct (sp_poolLocator (unpackSubscriptionName codec (sub_name sub))).
  - rewrite (IH Hin).
    destruct (String.eqb (sub_name s) baseSubscription); [reflexivity|].
    destruct (sp_poolLocator (unpackSubscriptionName codec (sub_name s)));
      [|reflexivity].
    now destruct (sp_event (unpackSubscriptionName codec (sub_name s))).
Qed.

Lemma collectEvents_undecodable (streamName baseSubscription : string)
    (subscriptions : list EventStreamSubscription) (foundEvents : EventsMap)
    (m : Machine World) :
  decodeSubscriptions codec baseSubscription subscriptions = None ->
  fst (collectEvents codec streamName baseSubscription subscriptions
         foundEvents m) = inr None.
Proof.
  revert foundEvents.
  induction subscriptions as [|sub rest IH]; intros foundEvents Hdec;
    simpl in *; [discriminate|].
  destruct (String.eqb (sub_name sub) baseSubscription); [now apply IH|].
  destruct (sp_poolLocator (unpackSubscriptionName codec (sub_name sub)));
    [|reflexivity].
  destruct (sp_event (unpackSubscriptionName codec (sub_name sub)));
    [|reflexivity].
  destruct (decodeSubscriptions codec baseSubscription rest); [discriminate|].
  destruct (map_get _ foundEvents); now apply IH.
Qed.

(** X13: one subscription of the adopted stream, other than the base one,
    whose name gives no pool locator or no event name is enough for
    [migrationCheck] to answer [true], wherever it is in the listing and
    whatever the other subscriptions are. *)
Theorem migrationCheck_unparseable_name (m : Machine World)
    (streams : list EventStream) (w1 w2 : World) (st : EventStream)
    (allSubscriptions : list EventStreamSubscription)
    (sub : EventStreamSubscription) :
  getStreams env (world m) = (inr streams, w1) ->
  adoptedStream codec (svc m) streams = Some st ->
  getSubscriptions env w1 = (inr allSubscriptions, w2) ->
  In sub allSubscriptions ->
  sub_stream sub = es_id st ->
  sub_name sub <> baseSubscriptionName codec (svc m) ->
  sp_poolLocator (unpackSubscriptionName codec (sub_name sub)) = None
  \/ sp_event (unpackSubscriptionName codec (sub_name sub)) = None ->
  fst (migrationCheck env codec m) = inr true.
Proof.
  intros Hstreams Hadopt Hsubs Hin Hon Hnb Hbad.
  assert (Hin' : In sub (subscriptionsOf st allSubscriptions)).
  { unfold subscriptionsOf. apply filter_In. split; [exact Hin|].
    rewrite Hon. apply String.eqb_refl. }
  pose proof (decodeSubscriptions_bad _ _ sub Hin' Hnb Hbad) as Hdec.
  assert (Hcheck : forall m0,
    world m0 = w1 -> instancePath (svc m0) = instancePath (svc m) ->
    fst (checkStream env codec st m0) = inr true).
  { intros m0 Hw Hp. unfold checkStream.
    cbv beta iota delta [bind modifyService call getService ret].
    cbn [svc world trace]. rewrite Hw, Hsubs.
    unfold subscriptionsOf in Hdec, Hin'.
    destruct (filter _ allSubscriptions) as [|s0 subs]; [contradiction|].
    cbv beta iota. revert Hdec. generalize (s0 :: subs).
    intros subscriptions Hdec.
    unfold baseSubscriptionName in Hdec.
    cbn [svc instancePath set_stream]. rewrite Hp.
    match goal with
    | |- context [collectEvents codec ?sn ?b ?l ?f ?m1] =>
        pose proof (collectEvents_undecodable sn b l f m1 Hdec) as Hc;
        destruct (collectEvents codec sn b l f m1) as [r1 m2]
    end.
    simpl in Hc. subst r1. reflexivity. }
  unfold migrationCheck.
  cbv beta iota delta [bind getService call logger modifyService ret].
  cbn [svc world trace]. rewrite Hstreams.
  unfold adoptedStream in Hadopt.
  destruct (find_stream _ streams) as [st'|].
  - injection Hadopt as ->. now apply Hcheck.
  - rewrite Hadopt. now apply Hcheck.
Qed.

(** X14: the stream found by [migrationCheck] (under the expected name,
    else under the topic) is kept as the stream of the service before the
    subscriptions are listed, so it stays adopted whatever the listing and
    the check give, a failure included. *)
Theorem migrationCheck_adopts_stream (m : Machine World)
    (streams : list EventStream) (w : World) (st : EventStream) :
  getStreams env (world m) = (inr streams, w) ->
  adoptedStream codec (svc m) streams = Some st ->
  stream (svc (snd (migrationCheck env codec m))) = Some st.
Proof.
  intros Hstreams Hadopt.
  assert (Hcheck : forall m0,
    stream (svc (snd (checkStream env codec st m0))) = Some st).
  { intros m0. destruct (checkStream_frame env codec st m0) as (_ & _ & Hs).
    apply (f_equal stream) in Hs. exact Hs. }
  unfold migrationCheck.
  cbv beta iota delta [bind getService call logger modifyService ret].
  cbn [svc world trace]. rewrite Hstreams.
  unfold adoptedStream in Hadopt.
  destruct (find_stream _ streams) as [st'|].
  - injection Hadopt as ->. apply Hcheck.
  - rewrite Hadopt. apply Hcheck.
Qed.

Lemma getStream_cached (m : Machine World) (st : EventStream) :
  stream (svc m) = Some st -> getStream env codec m = (inr st, m).
Proof.
  intros H. unfold getStream. cbv beta iota delta [bind getService ret].
  now rewrite H.
Qed.

(** X15: [getStream] without a cached stream runs the migration check
    and then creates or updates a stream, under the name of the stream the
    check adopted if there is one (so a stream under the legacy name keeps
    being used) and under the expected name otherwise; the stream returned
    by the directory is cached, and later calls return it without any
    call. *)
Theorem getStream_creates_then_caches (m m1 : Machine World) (b : bool)
    (st : EventStream) (w : World) :
  stream (svc m) = None ->
  migrationCheck env codec m = (inr b, m1) ->
  let name :=
    match stream (svc m1) with
    | Some adopted => es_name adopted
    | None => packStreamName codec (topic (svc m1)) (instancePath (svc m1))
    end in
  createOrUpdateStream env name name (world m1) = (inr st, w) ->
  exists m2,
    getStream env codec m = (inr st, m2)
    /\ trace m2 = (trace m1 ++ [CCreateOrUpdateStream name name])%list
    /\ world m2 = w
    /\ stream (svc m2) = Some st
    /\ getStream env codec m2 = (inr st, m2).
Proof.
  intros Hnone Hcheck name Hcreate.
  assert (Hrun : exists m2,
    getStream env codec m = (inr st, m2)
    /\ trace m2 = (trace m1 ++ [CCreateOrUpdateStream name name])%list
    /\ world m2 = w
    /\ stream (svc m2) = Some st).
  { unfold getStream.
    cbv beta iota delta [bind getService call logger modifyService ret].
    rewrite Hnone, Hcheck. cbn [svc world trace]. fold name.
    rewrite Hcreate. eexists. repeat split. }
  destruct Hrun as (m2 & Hrun & Ht & Hw & Hs).
  exists m2. repeat split; try assumption.
  now apply getStream_cached.
Qed.

(** X16: [init] subscribes the base subscription: once the stream and the
    contract address are resolved (and the ABI has the pool-creation event
    and the [create] function), it issues one create-or-reuse call, for the
    pool-creation event, named after the instance path and the base
    locator, from block ["0"], and nothing else. *)
Theorem init_base_subscription (m m1 m2 : Machine World) (strm : EventStream)
    (address : string) (eventABI methodABI : IAbiMethod) :
  abi_find abi tokenCreateEvent = Some eventABI ->
  abi_find abi tokenCreateFunctionName = Some methodABI ->
  getStream env codec m = (inr strm, m1) ->
  getContractAddress env m1 = (inr address, m2) ->
  exists req,
    trace (snd (init env codec abi m))
    = (trace m2 ++ [CGetOrCreateSubscription req])%list
    /\ sr_event req = tokenCreateEvent
    /\ sr_name req = baseSubscriptionName codec (svc m2)
    /\ sr_streamId req = es_id strm
    /\ sr_contractAddress req = address
    /\ sr_methodABIs req = [methodABI]
    /\ sr_fromBlock req = "0".
Proof.
  intros He Hm Hstream Haddress.
  unfold init. cbv beta iota delta [bind getService ret].
  rewrite Hstream, He, Hm, Haddress.
  unfold subscribe, call. cbn [svc world trace].
  eexists. split.
  { break_matches; reflexivity. }
  repeat split.
Qed.

(** X17: with an ABI that lacks the pool-creation event or the [create]
    function, [init] resolves the stream and stops: no subscription call,
    no failure. *)
Theorem init_silent_without_abi (m m1 : Machine World) (strm : EventStream) :
  abi_find abi tokenCreateEvent = None
  \/ abi_find abi tokenCreateFunctionName = None ->
  getStream env codec m = (inr strm, m1) ->
  init env codec abi m = (inr tt, m1).
Proof.
  intros Hor Hstream. unfold init. cbv beta iota delta [bind getService ret].
  rewrite Hstream. destruct Hor as [-> | ->]; [reflexivity|].
  now destruct (abi_find abi tokenCreateEvent).
Qed.

(** X18: with an ABI that lacks one of the five entries looked up,
    [activatePool] resolves the stream and stops: no subscription is
    created and the activation still reports success. *)
Theorem activatePool_silent_without_abi (dto : TokenPoolActivate)
    (m m1 : Machine World) (strm : EventStream) :
  abi_find abi tokenCreateEvent = None
  \/ abi_find abi tokenCreateFunctionName = None
  \/ abi_find abi transferSingleEvent = None
  \/ abi_find abi transferBatchEvent = None
  \/ abi_find abi approvalForAllEvent = None ->
  getStream env codec m = (inr strm, m1) ->
  activatePool env codec abi dto m = (inr tt, m1).
Proof.
  intros Hor Hstream. unfold activatePool.
  cbv beta iota delta [bind getService ret].
  rewrite Hstream.
  destruct Hor as [H | [H | [H | [H | H]]]]; rewrite H;
    repeat match goal with
           | |- context [match abi_find abi ?n with _ => _ end] =>
               destruct (abi_find abi n)
           end; reflexivity.
Qed.

End StreamLifecycle.

(* ================================================================== *)
(** * Transactions                                                      *)
(* ================================================================== *)

Lemma pushLoop_fills (arrayLimit : Z) (fuel : nat) (i n : Z) (x : string)
    (to : list string) :
  (n <= pushLimit arrayLimit)%Z ->
  Z.of_nat (List.length to) = i ->
  (Z.to_nat (n - i) < fuel)%nat ->
  pushLoop arrayLimit fuel i n x to
  = inr (to ++ repeat x (Z.to_nat (n - i)))%list.
Proof.
  revert i to. induction fuel as [|fuel IH]; intros i to Hmax Hlen Hfuel; [lia|].
  cbn [pushLoop]. destruct (Z.ltb_spec i n) as [Hlt | Hge].
  - destruct (Z.ltb_spec (Z.of_nat (List.length to)) (pushLimit arrayLimit))
      as [_ | Hfull]; [|lia].
    rewrite IH; [| exact Hmax | rewrite length_app; simpl; lia | lia].
    replace (Z.to_nat (n - i)) with (S (Z.to_nat (n - (i + 1)))) by lia.
    simpl. now rewrite <- app_assoc.
  - replace (Z.to_nat (n - i)) with 0%nat by lia. simpl. now rewrite app_nil_r.
Qed.

Lemma pushLoop_overflows (arrayLimit : Z) (fuel : nat) (i n : Z) (x : string)
    (to : list string) :
  (pushLimit arrayLimit < n)%Z ->
  (i < n)%Z ->
  Z.of_nat (List.length to) = i ->
  (Z.to_nat (pushLimit arrayLimit - i) < fuel)%nat ->
  pushLoop arrayLimit fuel i n x to
  = inl (OtherError "RangeError: Invalid array length").
Proof.
  revert i to. induction fuel as [|fuel IH]; intros i to Hmax Hi Hlen Hfuel;
    [lia|].
  cbn [pushLoop]. destruct (Z.ltb_spec i n) as [Hlt | Hge]; [|lia].
  destruct (Z.ltb_spec (Z.of_nat (List.length to)) (pushLimit arrayLimit))
    as [Hroom | Hfull]; [|reflexivity].
  apply IH; [exact Hmax | lia | rewrite length_app; simpl; lia | lia].
Qed.

(** X19: the recipients of a non-fungible mint are the address repeated
    [parseInt(amount)] times, as far as the engine lets the array grow
    ([arrayLimit], at most [2^32 - 1]).  An amount that is not a number,
    zero or negative gives no recipient at all (and no failure); a positive
    count within the limit gives that many copies; a count beyond it is a
    [RangeError]. *)
Theorem mintRecipients_count (arrayLimit : Z) (to amount : string) :
  (JsInt.parseInt amount = None -> mintRecipients arrayLimit to amount = inr [])
  /\ (forall n, JsInt.parseInt amount = Some n -> (n <= 0)%Z ->
                mintRecipients arrayLimit to amount = inr [])
  /\ (forall n, JsInt.parseInt amount = Some n ->
                (0 < n <= Z.min arrayLimit JsInt.MAX_ARRAY_LENGTH)%Z ->
                mintRecipients arrayLimit to amount
                = inr (repeat to (Z.to_nat n)))
  /\ (forall n, JsInt.parseInt amount = Some n ->
                (0 < n)%Z ->
                (Z.min arrayLimit JsInt.MAX_ARRAY_LENGTH < n)%Z ->
                mintRecipients arrayLimit to amount
                = inl (OtherError "RangeError: Invalid array length")).
Proof.
  unfold mintRecipients. fold (pushLimit arrayLimit). repeat split.
  - now intros ->.
  - intros n -> Hn. cbn [pushLoop].
    destruct (Z.ltb_spec 0 n); [lia | reflexivity].
  - intros n -> Hn.
    rewrite pushLoop_fills; [| lia | reflexivity | lia].
    now rewrite Z.sub_0_r.
  - intros n -> Hpos Hn.
    apply pushLoop_overflows; [exact Hn | exact Hpos | reflexivity |].
    destruct (Z.le_gt_cases 0 (pushLimit arrayLimit)); lia.
Qed.

Section Transactions.

Context {World : Type}.
Variable env : Env World.
Variable codec : Codec.
Variable abi : list IAbiMethod.
Variable post_transaction :
  TxRequest -> World -> Result EthConnectAsyncResponse * World.
Variable isFungible : string -> bool.
Variable encodeHex : string -> string.
Variable arrayLimit : Z.

(** [sendTransaction] issues no query and no event-stream call: at most
    the fetch of the contract address. *)
Lemma sendTransaction_calls (from : string) (id : option string)
    (method : option IAbiMethod) (params : list TxParam) (m : Machine World) :
  let m' := snd (sendTransaction env post_transaction from id method params m) in
  supportsCustomUri (svc m') = supportsCustomUri (svc m)
  /\ exists calls, trace m' = (trace m ++ calls)%list /\ posts calls = 0.
Proof.
  unfold sendTransaction, getContractAddress, wrapError.
  cbv beta iota delta [bind getService tryCatch call logger modifyService ret throw].
  break_matches; (split; [reflexivity|]);
    solve_calls ltac:(unfold posts; simpl; lia).
Qed.

(** X20: a pool id that [packTokenId] rejects stops [transfer], [burn]
    and [mint] before anything is sent: the failure is the codec's and the
    machine is unchanged. *)
Theorem rejected_token_id_sends_nothing (dtoT : TokenTransfer) (dtoB : TokenBurn)
    (dtoM : TokenMint) (e1 e2 e3 : Err) (m : Machine World) :
  packTokenId codec (pl_poolId (unpackPoolLocator codec (ttr_poolLocator dtoT)))
    (ttr_tokenIndex dtoT) = inl e1 ->
  packTokenId codec (pl_poolId (unpackPoolLocator codec (tbu_poolLocator dtoB)))
    (tbu_tokenIndex dtoB) = inl e2 ->
  packTokenId codec (pl_poolId (unpackPoolLocator codec (tm_poolLocator dtoM)))
    None = inl e3 ->
  transfer env codec abi post_transaction encodeHex dtoT m = (inl e1, m)
  /\ burn env codec abi post_transaction encodeHex dtoB m = (inl e2, m)
  /\ mint env codec abi post_transaction isFungible encodeHex arrayLimit dtoM m = (inl e3, m).
Proof.
  intros H1 H2 H3. repeat split.
  - unfold transfer. cbv beta iota delta [bind lift]. now rewrite H1.
  - unfold burn. cbv beta iota delta [bind lift]. now rewrite H2.
  - unfold mint. cbv beta iota delta [bind lift]. now rewrite H3.
Qed.

(** X21: a URI given for a non-fungible mint is dropped when the contract
    does not support custom URIs: after the probe has answered [false], the
    mint proceeds exactly as the same mint without a URI. *)
Theorem mint_uri_dropped_when_unsupported (dto : TokenMint) (uri typeId : string)
    (to : list string) (m m1 : Machine World) :
  tm_uri dto = Some uri ->
  isFungible (pl_poolId (unpackPoolLocator codec (tm_poolLocator dto))) = false ->
  packTokenId codec (pl_poolId (unpackPoolLocator codec (tm_poolLocator dto)))
    None = inr typeId ->
  mintRecipients arrayLimit (tm_to dto) (tm_amount dto) = inr to ->
  isCustomUriSupported env abi m = (inr false, m1) ->
  mint env codec abi post_transaction isFungible encodeHex arrayLimit dto m
  = mint env codec abi post_transaction isFungible encodeHex arrayLimit (without_uri dto) m1
  /\ mint env codec abi post_transaction isFungible encodeHex arrayLimit dto m
     = bind (sendTransaction env post_transaction (tm_signer dto)
               (tm_requestId dto) (abi_find abi "mintNonFungible")
               [PString typeId; PStrings to;
                PString (encodeHex (Js.nullish (tm_data dto) ""))])
            (fun response => ret {| ar_id := ecar_id response |}) m1.
Proof.
  intros Huri Hnf Hpack Hto Hprobe.
  unfold mint. cbn [without_uri tm_poolLocator tm_to tm_amount tm_requestId
                    tm_signer tm_data tm_uri].
  cbv beta iota delta [bind lift ret].
  rewrite Hpack, Hnf, Hto, Huri, Hprobe. split; reflexivity.
Qed.

(** X22: minting fungible tokens, or non-fungible tokens without a URI,
    never asks the contract whether it supports custom URIs: no query is
    posted and the cached answer is left as it is. *)
Theorem mint_probes_only_for_uri (dto : TokenMint) (m : Machine World) :
  isFungible (pl_poolId (unpackPoolLocator codec (tm_poolLocator dto))) = true
  \/ tm_uri dto = None ->
  let m' := snd (mint env codec abi post_transaction isFungible encodeHex arrayLimit dto m) in
  supportsCustomUri (svc m') = supportsCustomUri (svc m)
  /\ exists calls, trace m' = (trace m ++ calls)%list /\ posts calls = 0.
Proof.
  intros Hor.
  assert (Hnone : supportsCustomUri (svc m) = supportsCustomUri (svc m)
                  /\ exists calls, trace m = (trace m ++ calls)%list
                                   /\ posts calls = 0).
  { split; [reflexivity|]. exists []. now rewrite app_nil_r. }
  assert (Hsend : forall method params,
    let m' := snd (bind (sendTransaction env post_transaction (tm_signer dto)
                           (tm_requestId dto) method params)
                        (fun response => ret {| ar_id := ecar_id response |}) m) in
    supportsCustomUri (svc m') = supportsCustomUri (svc m)
    /\ exists calls, trace m' = (trace m ++ calls)%list /\ posts calls = 0).
  { intros method params.
    pose proof (sendTransaction_calls (tm_signer dto) (tm_requestId dto)
                  method params m) as Hs.
    unfold bind, ret.
    destruct (sendTransaction env post_transaction (tm_signer dto)
                (tm_requestId dto) method params m) as [[e | r] m1]; exact Hs. }
  unfold mint. cbv beta iota delta [lift].
  unfold bind at 1.
  destruct (packTokenId codec _ None) as [e | typeId]; [exact Hnone|].
  destruct (isFungible _) eqn:Hf.
  - apply Hsend.
  - destruct Hor as [Hyes | Huri]; [discriminate|].
    rewrite Huri. unfold bind at 1.
    destruct (mintRecipients arrayLimit (tm_to dto) (tm_amount dto))
      as [e | to];
      [exact Hnone|].
    unfold bind at 1. cbv beta iota delta [ret]. apply Hsend.
Qed.

(** X23: no failure of the HTTP client leaves [sendTransaction] as an
    Axios error; and when the POST succeeds with a configured contract
    address, the gateway's reply is returned and nothing of the service
    changes. *)
Theorem sendTransaction_result (from : string) (id : option string)
    (method : option IAbiMethod) (params : list TxParam) (m : Machine World) :
  match fst (sendTransaction env post_transaction from id method params m) with
  | inl (AxiosError _ _ _) => False
  | _ => True
  end
  /\ (contractAddress (svc m) <> "" ->
      forall response w,
        post_transaction
          {| tx_url := baseUrl (svc m); tx_id := id;
             tx_type := sendTransactionHeader; tx_from := from;
             tx_to := contractAddress (svc m); tx_method := method;
             tx_params := params |} (world m) = (inr response, w) ->
        sendTransaction env post_transaction from id method params m
        = (inr response, Build_Machine (svc m) w (trace m))).
Proof.
  split.
  - unfold sendTransaction, getContractAddress, wrapError.
    cbv beta iota delta [bind getService tryCatch call logger modifyService ret throw].
    break_matches; try exact I; try discriminate; try congruence.
  - intros Hne response w Hpost.
    unfold sendTransaction. cbv beta iota delta [bind getService].
    rewrite (getContractAddress_configured env m Hne).
    unfold wrapError, tryCatch. now rewrite Hpost.
Qed.

End Transactions.

(* ================================================================== *)
(** * The properties above, on concrete inputs                          *)
(* ================================================================== *)

Lemma batch_message_ids_distinct_witness :
  exists msgs,
    fst (transformTransferBatchEvent Sample.env Sample.codec Sample.abi
           (Sample.subF1 transferBatchEvent) Sample.batchEvent
           (Sample.start Sample.world_down)) = inr msgs
    /\ List.length msgs = 2
    /\ NoDup (map message_id msgs).
Proof.
  destruct (transformTransferBatchEvent Sample.env Sample.codec Sample.abi
              (Sample.subF1 transferBatchEvent) Sample.batchEvent
              (Sample.start Sample.world_down)) as [[e | msgs] m'] eqn:Hrun.
  - vm_compute in Hrun. discriminate.
  - exists msgs. split; [reflexivity|]. split.
    + vm_compute in Hrun. injection Hrun as <- _. reflexivity.
    + exact (proj1 (batch_message_ids_distinct Sample.env Sample.codec
                      Sample.abi (Sample.subF1 transferBatchEvent)
                      Sample.batchEvent (Sample.start Sample.world_down) m'
                      msgs eq_refl Hrun)).
Defined.

Lemma approval_id_per_pool_witness :
  exists d1 d2,
    transformApprovalForAllEvent Sample.codec
      (Sample.subF1 approvalForAllEvent) Sample.approvalEvent
    = inr (Some {| msg_event := "token-approval"; msg_data := ApprovalMessage d1 |})
    /\ transformApprovalForAllEvent Sample.codec
         (Fixtures.subN2 approvalForAllEvent) Sample.approvalEvent
       = inr (Some {| msg_event := "token-approval";
                      msg_data := ApprovalMessage d2 |})
    /\ ta_id d1 <> ta_id d2
    /\ bc_id (ta_blockchain d1) = bc_id (ta_blockchain d2).
Proof.
  destruct (approval_id_per_pool Sample.codec
              (Sample.subF1 approvalForAllEvent)
              (Fixtures.subN2 approvalForAllEvent) Sample.approvalEvent
              Sample.locatorF1 Fixtures.locatorN2 1%Z eq_refl eq_refl eq_refl)
    as (eventId & d1 & d2 & _ & H1 & H2 & _ & _ & Hb1 & Hb2 & Hiff).
  exists d1, d2. split; [exact H1|]. split; [exact H2|]. split.
  - intros Heq. apply Hiff in Heq. vm_compute in Heq. discriminate.
  - now rewrite Hb1, Hb2.
Defined.

Lemma filtered_transfer_issues_no_query_witness :
  let m := Sample.start (Fixtures.world_uri "https://host/{id}.json") in
  transformTransferSingleEvent Sample.env Sample.codec Sample.abi
    (Sample.subF1 transferSingleEvent)
    (Sample.transferEvent "0x01" "0x02" Sample.tokenN2_1) None m
  = (inr None, m).
Proof.
  intros m.
  apply (filtered_transfer_issues_no_query Sample.env Sample.codec Sample.abi
           (Sample.subF1 transferSingleEvent)
           (Sample.transferEvent "0x01" "0x02" Sample.tokenN2_1) None m
           Fixtures.unpackedN2_1 Sample.locatorF1 eq_refl eq_refl).
  left. vm_compute. discriminate.
Defined.

Lemma transfer_uri_lookup_witness :
  exists d m',
    transformTransferSingleEvent Sample.env Sample.codec Sample.abi
      (Fixtures.subN2 transferSingleEvent)
      (Sample.transferEvent "0x01" "0x02" Sample.tokenN2_1) None
      (Sample.start (Fixtures.world_uri "https://host/token.json"))
    = (inr (Some {| msg_event := "token-transfer";
                    msg_data := TransferMessage d |}), m')
    /\ tt_tokenIndex d = Some "1"
    /\ tt_uri d = Some "https://host/token.json".
Proof.
  destruct (transfer_uri_lookup Sample.env Sample.codec Sample.abi
              (Fixtures.subN2 transferSingleEvent)
              (Sample.transferEvent "0x01" "0x02" Sample.tokenN2_1) None
              (Sample.start (Fixtures.world_uri "https://host/token.json"))
              Fixtures.unpackedN2_1 Fixtures.locatorN2
              "000000000005/000001/000002"
              eq_refl eq_refl eq_refl eq_refl eq_refl)
    as (kind & d & m' & Hrun & _ & _ & Hindex & _ & Hnf).
  destruct (Hnf eq_refl) as [Huri Hsome].
  assert (Hkind : kind = "token-transfer").
  { vm_compute in Hrun. now injection Hrun as <- _ _. }
  subst kind. exists d, m'. split; [exact Hrun|]. split; [exact Hindex|].
  destruct (tt_uri d) as [u|]; [|now elim Hsome].
  vm_compute in Huri. now injection Huri as <- _.
Defined.

Lemma getTokenUri_fills_template_witness :
  fst (getTokenUri Sample.env Sample.codec Sample.abi Sample.tokenN2_1
         (Sample.start (Fixtures.world_uri "https://host/{id}.json?v={id}")))
  = inr ("https://host/"
         ++ "8000000000000000000000000000000200000000000000000000000000000001"
         ++ ".json?v={id}")
  /\ fst (getTokenUri Sample.env Sample.codec Sample.abi Sample.tokenN2_1
            (Sample.start (Fixtures.world_uri "https://host/token.json")))
     = inr "https://host/token.json".
Proof.
  destruct (getTokenUri_fills_template Sample.env Sample.codec Sample.abi
              Sample.tokenN2_1 "https://host/" ".json?v={id}"
              "https://host/token.json"
              (Sample.start (Fixtures.world_uri "https://host/{id}.json?v={id}"))
              (snd (query Sample.env (abi_find Sample.abi "uri")
                      [Sample.tokenN2_1]
                      (Sample.start
                         (Fixtures.world_uri "https://host/{id}.json?v={id}"))))
              (Sample.start (Fixtures.world_uri "https://host/token.json"))
              (snd (query Sample.env (abi_find Sample.abi "uri")
                      [Sample.tokenN2_1]
                      (Sample.start
                         (Fixtures.world_uri "https://host/token.json"))))
              eq_refl eq_refl eq_refl eq_refl) as [Htemplate Hplain].
  rewrite Htemplate, Hplain. split; reflexivity.
Defined.

Lemma getContractAddress_fetched_once_witness :
  exists m1,
    getContractAddress Sample.env (Fixtures.unconfigured Fixtures.world_mixed_case)
    = (inr "0x12ab56", m1)
    /\ trace m1 = [CHttpGet "http://ethconnect:5102/contracts/erc1155"]
    /\ getContractAddress Sample.env m1 = (inr "0x12ab56", m1).
Proof.
  destruct (getContractAddress_fetched_once Sample.env
              (Fixtures.unconfigured Fixtures.world_mixed_case)
              {| cir_address := "12AB56" |} Fixtures.world_mixed_case
              eq_refl eq_refl)
    as (m1 & Hrun & Htrace & _ & _ & Hagain).
  exists m1. split; [exact Hrun|]. split; [exact Htrace | exact Hagain].
Defined.

Lemma getContractAddress_failure_not_cached_witness :
  exists m1,
    getContractAddress Fixtures.env_unregistered
      (Fixtures.unconfigured Sample.world_down)
    = (inl (InternalServerErrorException "contract not registered"), m1)
    /\ contractAddress (svc m1) = ""
    /\ List.length (trace (snd (getContractAddress Fixtures.env_unregistered m1)))
       = 2.
Proof.
  destruct (getContractAddress_failure_not_cached Fixtures.env_unregistered
              (Fixtures.unconfigured Sample.world_down) Fixtures.notFound
              Sample.world_down eq_refl eq_refl)
    as (m1 & Hrun & Haddr & _ & _ & Htrace & Hnext).
  exists m1. split; [exact Hrun|]. split; [exact Haddr|].
  rewrite Hnext, Htrace. reflexivity.
Defined.

Lemma migrationCheck_fresh_deployment_witness :
  migrationCheck Sample.env Sample.codec (Sample.start Sample.world_down)
  = (inr false,
     Build_Machine Sample.service Sample.world_down [CGetStreams]).
Proof.
  exact (migrationCheck_fresh_deployment Sample.env Sample.codec
           (Sample.start Sample.world_down) [] Sample.world_down
           eq_refl eq_refl).
Defined.

Lemma migrationCheck_unparseable_name_witness :
  fst (migrationCheck Sample.env Sample.codec
         (Sample.start Fixtures.world_legacy_name)) = inr true.
Proof.
  apply (migrationCheck_unparseable_name Sample.env Sample.codec
           (Sample.start Fixtures.world_legacy_name) [Sample.theStream]
           Fixtures.world_legacy_name Fixtures.world_legacy_name
           Sample.theStream
           (Sample.sw_subscriptions Fixtures.world_legacy_name)
           (Sample.onStream "tokens:legacy") eq_refl eq_refl eq_refl).
  - simpl. tauto.
  - reflexivity.
  - vm_compute. discriminate.
  - left. reflexivity.
Defined.

Lemma migrationCheck_adopts_stream_witness :
  stream (svc (snd (migrationCheck Sample.env Sample.codec
                      (Sample.start Fixtures.world_legacy_name))))
  = Some Sample.theStream.
Proof.
  exact (migrationCheck_adopts_stream Sample.env Sample.codec
           (Sample.start Fixtures.world_legacy_name) [Sample.theStream]
           Fixtures.world_legacy_name Sample.theStream eq_refl eq_refl).
Defined.

Lemma getStream_creates_then_caches_witness :
  exists m2,
    getStream Sample.env Sample.codec (Sample.start Sample.world_down)
    = (inr Sample.theStream, m2)
    /\ trace m2 = [CGetStreams;
                   CCreateOrUpdateStream "tokens:/contracts/erc1155"
                     "tokens:/contracts/erc1155"]
    /\ getStream Sample.env Sample.codec m2 = (inr Sample.theStream, m2).
Proof.
  destruct (getStream_creates_then_caches Sample.env Sample.codec
              (Sample.start Sample.world_down)
              (Build_Machine Sample.service Sample.world_down [CGetStreams])
              false Sample.theStream
              (snd (Sample.sample_createStream "tokens:/contracts/erc1155"
                      "tokens:/contracts/erc1155" Sample.world_down))
              eq_refl eq_refl eq_refl)
    as (m2 & Hrun & Htrace & _ & _ & Hagain).
  exists m2. split; [exact Hrun|]. split; [exact Htrace | exact Hagain].
Defined.

Lemma init_base_subscription_witness :
  let m := Sample.start Sample.world_down in
  let m2 := snd (getContractAddress Sample.env
                   (snd (getStream Sample.env Sample.codec m))) in
  exists req,
    trace (snd (init Sample.env Sample.codec Sample.abi m))
    = (trace m2 ++ [CGetOrCreateSubscription req])%list
    /\ sr_name req = Sample.baseSub
    /\ sr_streamId req = "es-0"
    /\ sr_fromBlock req = "0".
Proof.
  intros m m2.
  destruct (init_base_subscription Sample.env Sample.codec Sample.abi m
              (snd (getStream Sample.env Sample.codec m)) m2 Sample.theStream
              "0x123456"
              {| abi_name := Some "TokenPoolCreation"; abi_type := Some "event" |}
              {| abi_name := Some "create"; abi_type := Some "function" |}
              eq_refl eq_refl eq_refl eq_refl)
    as (req & Htrace & _ & Hname & Hstream & _ & _ & Hblock).
  exists req. split; [exact Htrace|]. split; [exact Hname|].
  split; [exact Hstream | exact Hblock].
Defined.

Lemma init_silent_without_abi_witness :
  let m := Sample.start Sample.world_down in
  init Sample.env Sample.codec Fixtures.abi_without_create m
  = (inr tt, snd (getStream Sample.env Sample.codec m)).
Proof.
  intros m.
  apply (init_silent_without_abi Sample.env Sample.codec
           Fixtures.abi_without_create m
           (snd (getStream Sample.env Sample.codec m)) Sample.theStream).
  - right. reflexivity.
  - reflexivity.
Defined.

Lemma activatePool_silent_without_abi_witness :
  let m := Sample.start Sample.world_reconciled in
  activatePool Sample.env Sample.codec Fixtures.abi_without_create
    Sample.activateF1 m
  = (inr tt, snd (getStream Sample.env Sample.codec m)).
Proof.
  intros m.
  apply (activatePool_silent_without_abi Sample.env Sample.codec
           Fixtures.abi_without_create Sample.activateF1 m
           (snd (getStream Sample.env Sample.codec m)) Sample.theStream).
  - right. left. reflexivity.
  - reflexivity.
Defined.

Lemma mintRecipients_count_witness :
  let recipients := mintRecipients Fixtures.arrayLimit "0xABC" in
  recipients " 3 tokens" = inr ["0xABC"; "0xABC"; "0xABC"]
  /\ recipients Fixtures.amountAfterNbsp = inr ["0xABC"; "0xABC"; "0xABC"]
  /\ recipients "0x10" = inr (repeat "0xABC" 16)
  /\ recipients "three" = inr []
  /\ recipients "-2" = inr []
  /\ recipients "120000000"
     = inl (OtherError "RangeError: Invalid array length").
Proof.
  intros recipients. unfold recipients.
  split; [|split; [|split; [|split; [|split]]]].
  - apply (proj1 (proj2 (proj2 (mintRecipients_count Fixtures.arrayLimit
                                  "0xABC" " 3 tokens"))) 3%Z eq_refl).
    unfold Fixtures.arrayLimit, JsInt.MAX_ARRAY_LENGTH. lia.
  - apply (proj1 (proj2 (proj2 (mintRecipients_count Fixtures.arrayLimit
                                  "0xABC" Fixtures.amountAfterNbsp)))
             3%Z eq_refl).
    unfold Fixtures.arrayLimit, JsInt.MAX_ARRAY_LENGTH. lia.
  - apply (proj1 (proj2 (proj2 (mintRecipients_count Fixtures.arrayLimit
                                  "0xABC" "0x10"))) 16%Z eq_refl).
    unfold Fixtures.arrayLimit, JsInt.MAX_ARRAY_LENGTH. lia.
  - apply (proj1 (mintRecipients_count Fixtures.arrayLimit "0xABC" "three")).
    reflexivity.
  - apply (proj1 (proj2 (mintRecipients_count Fixtures.arrayLimit "0xABC" "-2"))
             (-2)%Z eq_refl). lia.
  - apply (proj2 (proj2 (proj2 (mintRecipients_count Fixtures.arrayLimit
                                  "0xABC" "120000000")))
             120000000%Z eq_refl);
      unfold Fixtures.arrayLimit, JsInt.MAX_ARRAY_LENGTH; lia.
Defined.

Lemma rejected_token_id_sends_nothing_witness :
  let m := Sample.start Sample.world_down in
  let e := UtilError "invalid pool id Fx" in
  transfer Sample.env Sample.codec Sample.abi Fixtures.post_transaction
    Fixtures.encodeHex Fixtures.transferBad m = (inl e, m)
  /\ burn Sample.env Sample.codec Sample.abi Fixtures.post_transaction
       Fixtures.encodeHex Fixtures.burnBad m = (inl e, m)
  /\ mint Sample.env Sample.codec Sample.abi Fixtures.post_transaction
       Fixtures.isFungible Fixtures.encodeHex Fixtures.arrayLimit
       Fixtures.mintBad m = (inl e, m).
Proof.
  intros m e.
  exact (rejected_token_id_sends_nothing Sample.env Sample.codec Sample.abi
           Fixtures.post_transaction Fixtures.isFungible Fixtures.encodeHex
           Fixtures.arrayLimit Fixtures.transferBad Fixtures.burnBad
           Fixtures.mintBad e e e m eq_refl eq_refl eq_refl).
Defined.

Lemma mint_uri_dropped_when_unsupported_witness :
  let m := Sample.start Sample.world_down in
  let m1 := snd (isCustomUriSupported Sample.env Sample.abi m) in
  mint Sample.env Sample.codec Sample.abi Fixtures.post_transaction
    Fixtures.isFungible Fixtures.encodeHex Fixtures.arrayLimit
    (Fixtures.mintN2 "2" (Some "https://host/1.json")) m
  = mint Sample.env Sample.codec Sample.abi Fixtures.post_transaction
      Fixtures.isFungible Fixtures.encodeHex Fixtures.arrayLimit
      (Fixtures.mintN2 "2" None) m1.
Proof.
  intros m m1.
  exact (proj1 (mint_uri_dropped_when_unsupported Sample.env Sample.codec
                  Sample.abi Fixtures.post_transaction Fixtures.isFungible
                  Fixtures.encodeHex Fixtures.arrayLimit
                  (Fixtures.mintN2 "2" (Some "https://host/1.json"))
                  "https://host/1.json"
                  (Js.toString10 (2 ^ 255 + 2 * 2 ^ 128))
                  ["0xABC"; "0xABC"] m m1
                  eq_refl eq_refl eq_refl eq_refl eq_refl)).
Defined.

Lemma mint_probes_only_for_uri_witness :
  let m := Sample.start
             (Fixtures.world_uri "never asked") in
  let m' := snd (mint Sample.env Sample.codec Sample.abi
                   Fixtures.post_transaction Fixtures.isFungible
                   Fixtures.encodeHex Fixtures.arrayLimit Fixtures.mintF1 m) in
  supportsCustomUri (svc m') = None
  /\ exists calls, trace m' = calls /\ posts calls = 0.
Proof.
  intros m m'.
  exact (mint_probes_only_for_uri Sample.env Sample.codec Sample.abi
           Fixtures.post_transaction Fixtures.isFungible Fixtures.encodeHex
           Fixtures.arrayLimit Fixtures.mintF1 m (or_introl eq_refl)).
Defined.

Lemma sendTransaction_result_witness :
  let m := Sample.start Sample.world_down in
  sendTransaction Sample.env Fixtures.post_transaction "0x0a" (Some "req-1")
    (abi_find Sample.abi "burn") [PString "0x0a"] m
  = (inr {| ecar_id := "req-1" |}, m).
Proof.
  intros m.
  apply (proj2 (sendTransaction_result Sample.env Fixtures.post_transaction
                  "0x0a" (Some "req-1") (abi_find Sample.abi "burn")
                  [PString "0x0a"] m)).
  - discriminate.
  - reflexivity.
Defined.
